(** * Themerator: palette filter and Base16 slot assigner

    A shallow embedding of [src/themerator.py] (class [Theme]) and of the
    two functions of [src/base16_imagen.py] that differ from it, followed
    by the properties of the palette filter, the slot assigner, the hue
    score and the RGB/hex conversion.

    Conventions of the embedding.
    - A colour is a triple of integers (Python [int], unbounded: [Z]).
    - A raised Python exception is the [Raise] case of [result].
    - A Python float is the rational ([Q]) it stands for.  The binary
      search computes its thresholds as the code does, every operation
      rounded to binary64 ([binary64], [midpoint]).
    - The two comparisons of the similarity pass are decided on the
      exact values in [filter_by_similarity], the pass [filter_palette]
      runs, and on the rounded values of the code in
      [filter_by_similarity_binary64]; for channels in [0, 256) the two
      return the same list unless a comparison is within [2 ^ -50] of
      its threshold.
    - Lists that the code mutates in place live in a store ([heap]) and
      are passed around by reference. *)

From stdpp Require Import gmap strings list pretty.
From Stdlib Require Import Ascii Sorted QArith Qminmax Qround Qpower Qabs.
From Stdlib Require Import Reals Qreals Psatz.
From Stdlib Require Qcanon.

Local Open Scope Z_scope.

(* ================================================================== *)
(** ** Python prelude: exceptions, results, builtins                   *)
(* ================================================================== *)

Inductive exception : Type :=
| ValueError (msg : string)
| KeyError (key : string)
| IndexError (msg : string)
| AssertionError
| UnboundLocalError (name : string).

Inductive result (A : Type) : Type :=
| Ok (a : A)
| Raise (e : exception).
Arguments Ok {A} a.
Arguments Raise {A} e.

#[global] Instance result_ret : MRet result := fun A a => Ok a.
#[global] Instance result_bind : MBind result := fun A B f m =>
  match m with
  | Ok a => f a
  | Raise e => Raise e
  end.

(** [d[k]] on a dict with string keys. *)
Definition dict_get {V} (d : gmap string V) (k : string) : result V :=
  match d !! k with
  | Some v => Ok v
  | None => Raise (KeyError k)
  end.

(** [min(l)] *)
Definition py_min (l : list Z) : result Z :=
  match l with
  | [] => Raise (ValueError "min() arg is an empty sequence")
  | x :: l' => Ok (fold_left Z.min l' x)
  end.

(** [l[0]] *)
Definition py_first {A} (l : list A) : result A :=
  match l with
  | [] => Raise (IndexError "list index out of range")
  | x :: _ => Ok x
  end.

(** [sorted(l, key=...)] is a stable sort: the keys are computed once
    (decorate), the decorated list is sorted on the key with ties left
    in input order, and the keys are dropped.  Insertion from the right
    is such a sort, and a stable sort has only one possible result. *)
Fixpoint insert_keyed {A} (k : Z) (x : A) (l : list (Z * A)) : list (Z * A) :=
  match l with
  | [] => [(k, x)]
  | (k', y) :: l' =>
      if k <=? k' then (k, x) :: (k', y) :: l'
      else (k', y) :: insert_keyed k x l'
  end.

Definition sort_keyed {A} (l : list (Z * A)) : list (Z * A) :=
  foldr (fun kx acc => insert_keyed kx.1 kx.2 acc) [] l.

(** [sorted] with a key function that cannot raise. *)
Definition sorted {A} (key : A -> Z) (l : list A) : list A :=
  (sort_keyed ((fun x => (key x, x)) <$> l)).*2.

(** [sorted] with a key function that may raise: the first failing key
    aborts the call. *)
Definition sorted_raising {A} (key : A -> result Z) (l : list A)
  : result (list A) :=
  decorated ← mapM (fun x => k ← key x; mret (k, x)) l;
  mret ((sort_keyed decorated).*2).

(** [s * k] for a string [s] and an int [k] (empty when [k <= 0]). *)
Definition str_repeat (s : string) (k : Z) : string :=
  Nat.iter (Z.to_nat k) (String.append s) "".

(** [s[n:]] *)
Fixpoint str_from (n : nat) (s : string) : string :=
  match n, s with
  | O, _ => s
  | S n', String _ s' => str_from n' s'
  | S _, EmptyString => EmptyString
  end.

Definition hex_digit (d : Z) : ascii :=
  match d with
  | 0 => "0" | 1 => "1" | 2 => "2" | 3 => "3" | 4 => "4" | 5 => "5"
  | 6 => "6" | 7 => "7" | 8 => "8" | 9 => "9" | 10 => "a" | 11 => "b"
  | 12 => "c" | 13 => "d" | 14 => "e" | _ => "f"
  end%char.

Fixpoint hex_digits (fuel : nat) (n : Z) (acc : string) : string :=
  let acc' := String (hex_digit (n mod 16)) acc in
  match fuel with
  | O => acc'
  | S fuel' => if n / 16 =? 0 then acc' else hex_digits fuel' (n / 16) acc'
  end.

(** [hex(n)] for an int: sign, the prefix 0x, lowercase digits without
    leading zeros.  A number has no more hex digits than bits. *)
Definition hex (n : Z) : string :=
  if n <? 0 then "-0x" +:+ hex_digits (Z.to_nat (Z.log2 (- n))) (- n) ""
  else "0x" +:+ hex_digits (Z.to_nat (Z.log2 n)) n "".

(** [s.upper()] on ASCII letters. *)
Definition ascii_upper (a : ascii) : ascii :=
  let n := nat_of_ascii a in
  if ((97 <=? n) && (n <=? 122))%nat then ascii_of_nat (n - 32) else a.

Fixpoint upper (s : string) : string :=
  match s with
  | EmptyString => EmptyString
  | String a s' => String (ascii_upper a) (upper s')
  end.

Definition hex_value (a : ascii) : option Z :=
  let n := Z.of_nat (nat_of_ascii a) in
  if (48 <=? n) && (n <=? 57) then Some (n - 48)
  else if (97 <=? n) && (n <=? 102) then Some (n - 87)
  else if (65 <=? n) && (n <=? 70) then Some (n - 55)
  else None.

Fixpoint int16_digits (s : string) (acc : Z) : option Z :=
  match s with
  | EmptyString => Some acc
  | String a s' =>
      match hex_value a with
      | Some d => int16_digits s' (acc * 16 + d)
      | None => None
      end
  end.

(** [int(s, 16)] on the strings this program passes to it: a non-empty
    run of hex digits of either case.  (Python also takes a sign, a 0x
    prefix, underscores and surrounding blanks; [_rgb_to_hex] produces
    none of them, and they are rejected here.) *)
Definition int16 (s : string) : result Z :=
  match s with
  | EmptyString => Raise (ValueError "invalid literal for int() with base 16")
  | _ =>
      match int16_digits s 0 with
      | Some h => Ok h
      | None => Raise (ValueError "invalid literal for int() with base 16")
      end
  end.

(* ================================================================== *)
(** ** Colours and the RGB to hex conversion                           *)
(* ================================================================== *)

Abbreviation colour := (Z * Z * Z)%type.

(** [sum(colour)] *)
Definition sum (c : colour) : Z :=
  let '(r, g, b) := c in 0 + r + g + b.

Definition _pad (x : string) : string :=
  str_repeat "0" (2 - Z.of_nat (String.length x)) +:+ x.

(** [Theme._rgb_to_hex]; the channels are ints. *)
Definition _rgb_to_hex (red green blue : Z) (separator : string)
  : result string :=
  if forallb (fun colour => (0 <=? colour) && (colour <? 256))
       [red; green; blue]
  then Ok (String.concat separator
             ((fun colour => _pad (str_from 2 (hex colour)))
                <$> [red; green; blue]))
  else Raise AssertionError.

(** The three numbers [Theme._render] prints for a colour given as a
    tuple: [hexint>>16], [hexint>>8&0xFF], [hexint&0xFF], where [hexint]
    is the upper-cased hex code read back in base 16. *)
Definition _render_channels (c : colour) : result (Z * Z * Z) :=
  let '(r, g, b) := c in
  code ← _rgb_to_hex r g b "";
  hexint ← int16 (upper code);
  mret (Z.shiftr hexint 16,
        Z.land (Z.shiftr hexint 8) 255,
        Z.land hexint 255).

(* ================================================================== *)
(** ** Hue prominence                                                  *)
(* ================================================================== *)

(** The [highlights] argument: a list of names, or a single value that
    is not a list and gets wrapped into one. *)
Inductive highlights_arg : Type :=
| hl_list (names : list string)
| hl_single (name : string).

Definition channel_names : list string := ["red"; "green"; "blue"].

Definition channels (rgb : colour) : list Z :=
  let '(r, g, b) := rgb in [r; g; b].

(** [Theme.prominence] *)
Definition prominence (rgb : colour) (highlights : highlights_arg)
  : result Z :=
  let highlights :=
    match highlights with
    | hl_list names => names
    | hl_single name => [name]
    end in
  if existsb (fun highlight => negb (bool_decide (highlight ∈ channel_names)))
       highlights
  then Raise (ValueError "Bad highlight selection")
  else
    let '(desired, undesired) :=
      fold_left
        (fun (acc : list Z * list Z) (cs : Z * string) =>
           let '(colour, name) := cs in
           if bool_decide (name ∈ highlights)
           then (acc.1 ++ [colour], acc.2)
           else (acc.1, acc.2 ++ [colour]))
        (zip (channels rgb) channel_names) ([], []) in
    py_min (d ← desired; u ← undesired; [d - u]).

(* ================================================================== *)
(** ** Palette filter                                                  *)
(* ================================================================== *)

Definition Qgtb (a b : Q) : bool := negb (Qle_bool a b).

(** Truth value of a list: non-empty. *)
Definition truthy {A} (l : list A) : bool :=
  match l with [] => false | _ :: _ => true end.

(** [sum([(a - b) ** 2 for a, b in zip(c1, c2)])] *)
Definition sq_distance (c1 c2 : colour) : Z :=
  let '(r1, g1, b1) := c1 in
  let '(r2, g2, b2) := c2 in
  0 + (r1 - r2) ^ 2 + (g1 - g2) ^ 2 + (b1 - b2) ^ 2.

(** [sum([255 ** 2 for _ in range(3)])] *)
Definition max_sq_distance : Z := 0 + 255 ^ 2 + 255 ^ 2 + 255 ^ 2.

(** The test [self.get_similarity(c1, c2) > threshold], where
    [get_similarity] is [1 - sqrt(d) / sqrt(D)] with [d = sq_distance]
    and [D = max_sq_distance].  Both roots are irrational in general, so
    the value itself is not computed; over the reals
    [1 - sqrt d / sqrt D > t] holds exactly when [t < 1] and
    [d < (1 - t)^2 * D], and that is what is decided here (lemma
    [get_similarity_gt_real] below relates it to [get_similarity_real]).
    The rounding of binary64 [sqrt], [/] and [-] is left out here and
    modelled in [get_similarity_binary64]: the code's comparison can fall
    the other way when the exact similarity is within [2 ^ -51] of the
    threshold. *)
Definition get_similarity_gt (c1 c2 : colour) (threshold : Q) : bool :=
  Qgtb (1 - threshold) 0
  && Qgtb ((1 - threshold) ^ 2 * inject_Z max_sq_distance)
          (inject_Z (sq_distance c1 c2)).

(** [(255 - abs(sum(colour) - sum(background)) / 3) / 255], as an exact
    rational; [background_similarity_binary64] is the code's float, within
    [2 ^ -52] of it for channels in [0, 256). *)
Definition background_similarity (colour background : colour) : Q :=
  (255 - inject_Z (Z.abs (sum colour - sum background)) / 3) / 255.

(** The [for colour in colours] loop of [filter_by_similarity]; the same
    text in both source files.  Both tests are decided on the exact
    values; [similarity_loop_binary64] decides them on the rounded ones. *)
Fixpoint similarity_loop (similarity_threshold
                            background_similarity_threshold : Q)
    (background : colour) (colours chosen : list colour) : list colour :=
  match colours with
  | [] => chosen
  | colour :: colours' =>
      if truthy chosen
           && existsb
                (fun choice =>
                   get_similarity_gt colour choice similarity_threshold)
                chosen
         || Qgtb (background_similarity colour background)
                 background_similarity_threshold
      then similarity_loop similarity_threshold
             background_similarity_threshold background colours' chosen
      else similarity_loop similarity_threshold
             background_similarity_threshold background colours'
             (chosen ++ [colour])
  end.

(** [Theme.filter_by_similarity] of themerator.py.  The argument list is
    copied before its head is popped, so the caller's list is unchanged. *)
Definition filter_by_similarity (colours : list colour)
    (similarity_threshold : Q) : list colour :=
  match colours with
  | [] => []
  | background :: colours' =>
      let chosen := [background] in
      let background_similarity_threshold :=
        Qmax (1 - (1 - similarity_threshold) * 2) similarity_threshold in
      similarity_loop similarity_threshold background_similarity_threshold
        background colours' chosen
  end.

(** Outcome of the [for _ in range(max_retries)] loop: an early
    [return candidates], or the loop ran out with [candidates] bound to
    the last round's list ([None]: never bound, no round ran). *)
Inductive search_result : Type :=
| Found (candidates : list colour)
| Exhausted (candidates : option (list colour)).

(** Nearest integer, ties to the even one. *)
Definition round_half_even (q : Q) : Z :=
  let f := Qfloor q in
  match (q - inject_Z f ?= 1 # 2)%Q with
  | Lt => f
  | Gt => f + 1
  | Eq => if Z.even f then f else f + 1
  end.

(** The binary exponent of a positive rational: the [e] with
    [2 ^ e <= q < 2 ^ (e + 1)]. *)
Definition exponent (q : Q) : Z :=
  let e := Z.log2 (Qnum q) - Z.log2 (Z.pos (Qden q)) in
  if Qle_bool (2 ^ e) q then e else e - 1.

(** The value a Python float takes for the real number [q]: the
    binary64 number nearest to [q], ties to even, with 53 significant
    bits and multiples of [2 ^ -1074] below [2 ^ -1022].  (Overflow is
    not modelled; the search stays within [0, 1].) *)
Definition binary64 (q : Q) : Q :=
  if Qeq_bool q 0 then 0%Q
  else
    let ulp := (2 ^ (Z.max (exponent (Qabs q)) (-1022) - 52))%Q in
    (inject_Z (round_half_even (q / ulp)) * ulp)%Q.

(** [(left + right) / 2] on floats: the sum is rounded, then the
    quotient.  The result is kept in lowest terms. *)
Definition midpoint (left right : Q) : Q :=
  Qred (binary64 (binary64 (left + right) / 2)).

(** [math.sqrt(n)] for an integer [0 <= n < 2 ^ 53]: the binary64
    number nearest to the square root.  With [2 ^ e <= sqrt n < 2 ^ (e + 1)],
    [s] is the integer part of [sqrt n * 2 ^ (53 - e)], one bit more
    than the significand; a tie cannot occur, so rounding is on that
    bit. *)
Definition sqrt_binary64 (n : Z) : Q :=
  if n <=? 0 then 0%Q
  else let e := Z.log2 n / 2 in
       let s := Z.sqrt (n * 4 ^ (53 - e)) in
       (inject_Z ((s + 1) / 2) * 2 ^ (e - 52))%Q.

(** [get_similarity] as the code computes it: the two roots, the
    quotient and the difference each rounded. *)
Definition get_similarity_binary64 (c1 c2 : colour) : Q :=
  binary64 (1 - binary64 (sqrt_binary64 (sq_distance c1 c2)
                          / sqrt_binary64 max_sq_distance)).

(** [(255 - abs(sum(colour) - sum(background)) / 3) / 255] as the code
    computes it. *)
Definition background_similarity_binary64 (colour background : colour) : Q :=
  binary64 (binary64 (255 - binary64 (inject_Z (Z.abs (sum colour - sum background)) / 3)) / 255).

(** [max(1 - (1 - similarity_threshold) * 2, similarity_threshold)] as
    the code computes it. *)
Definition background_threshold_binary64 (similarity_threshold : Q) : Q :=
  Qmax (binary64 (1 - binary64 (binary64 (1 - similarity_threshold) * 2)))
       similarity_threshold.

(** The loop of [filter_by_similarity] with both tests on the rounded
    values, as the code decides them. *)
Fixpoint similarity_loop_binary64 (similarity_threshold
                                     background_similarity_threshold : Q)
    (background : colour) (colours chosen : list colour) : list colour :=
  match colours with
  | [] => chosen
  | colour :: colours' =>
      if truthy chosen
           && existsb
                (fun choice =>
                   Qgtb (get_similarity_binary64 colour choice)
                        similarity_threshold)
                chosen
         || Qgtb (background_similarity_binary64 colour background)
                 background_similarity_threshold
      then similarity_loop_binary64 similarity_threshold
             background_similarity_threshold background colours' chosen
      else similarity_loop_binary64 similarity_threshold
             background_similarity_threshold background colours'
             (chosen ++ [colour])
  end.

(** [filter_by_similarity] on floats, for a given value of the derived
    threshold.  themerator.py computes that value with the operations
    above; base16_imagen.py computes it as [similarity_threshold ** 4],
    the C library's [pow], whose rounding is not fixed by IEEE 754. *)
Definition filter_by_similarity_binary64_with (colours : list colour)
    (similarity_threshold background_similarity_threshold : Q)
    : list colour :=
  match colours with
  | [] => []
  | background :: colours' =>
      similarity_loop_binary64 similarity_threshold
        background_similarity_threshold background colours' [background]
  end.

(** [Theme.filter_by_similarity] of themerator.py on floats. *)
Definition filter_by_similarity_binary64 (colours : list colour)
    (similarity_threshold : Q) : list colour :=
  filter_by_similarity_binary64_with colours similarity_threshold
    (background_threshold_binary64 similarity_threshold).

(** The binary search over the threshold, the same text in both source
    files; [pass] is the caller's [filter_by_similarity] applied to the
    sorted colours.  The thresholds are the floats of the code: the
    midpoints are exact through round 53 and rounded from round 54 on. *)
Fixpoint threshold_search (pass : Q -> list colour) (retries : nat)
    (left right : Q) (candidates : option (list colour)) : search_result :=
  match retries with
  | O => Exhausted candidates
  | S retries' =>
      let middle := midpoint left right in
      let candidates := pass middle in
      let n := length candidates in
      if (n <? 16)%nat
      then threshold_search pass retries' middle right (Some candidates)
      else if (16 <? n)%nat
      then threshold_search pass retries' left middle (Some candidates)
      else Found candidates
  end.

(** The key of the tone sort: [sum(x) * (1 if self.dark else -1)]. *)
Definition tone_key (dark : bool) (x : colour) : Z :=
  sum x * (if dark then 1 else -1).

(** [Theme.filter_palette] of themerator.py.  The result carries the
    warnings written to the logger. *)
Definition filter_palette (dark : bool) (colours : list colour)
    (max_retries : nat) : result (list colour * list string) :=
  let colours := sorted (tone_key dark) colours in
  match threshold_search (filter_by_similarity colours) max_retries 0 1 None
  with
  | Found candidates => Ok (candidates, [])
  | Exhausted None => Raise (UnboundLocalError "n")
  | Exhausted (Some candidates) =>
      let n := length candidates in
      if (n <? 8)%nat
      then Raise (ValueError
                    ("can only find " +:+ pretty n
                       +:+ " (< 8) distinct colours"))
      else Ok (candidates,
               ["only found distinct " +:+ pretty n +:+ " colours"])
  end.

(** The rounds the search runs, in order: the threshold probed and the
    candidates it gave (a ghost trace of [threshold_search]). *)
Fixpoint rounds (pass : Q -> list colour) (retries : nat) (left right : Q)
  : list (Q * list colour) :=
  match retries with
  | O => []
  | S retries' =>
      let middle := midpoint left right in
      let candidates := pass middle in
      let n := length candidates in
      (middle, candidates) ::
        (if (n <? 16)%nat then rounds pass retries' middle right
         else if (16 <? n)%nat then rounds pass retries' left middle
         else [])
  end.

(** How far a candidate set is from the target count. *)
Definition miss (candidates : list colour) : Z :=
  Z.abs (Z.of_nat (length candidates) - 16).

Module base16_imagen.

(** [Theme.filter_by_similarity] of base16_imagen.py: the background
    threshold is [similarity_threshold ** 4]. *)
Definition filter_by_similarity (colours : list colour)
    (similarity_threshold : Q) : list colour :=
  match colours with
  | [] => []
  | background :: colours' =>
      let chosen := [background] in
      let background_similarity_threshold := (similarity_threshold ^ 4)%Q in
      similarity_loop similarity_threshold
        background_similarity_threshold background colours' chosen
  end.

(** [Theme.filter_palette] of base16_imagen.py: the warning is logged
    only below 16 colours. *)
Definition filter_palette (dark : bool) (colours : list colour)
    (max_retries : nat) : result (list colour * list string) :=
  let colours := sorted (tone_key dark) colours in
  match threshold_search (filter_by_similarity colours) max_retries 0 1 None
  with
  | Found candidates => Ok (candidates, [])
  | Exhausted None => Raise (UnboundLocalError "n")
  | Exhausted (Some candidates) =>
      let n := length candidates in
      if (n <? 8)%nat
      then Raise (ValueError
                    ("can only find " +:+ pretty n
                       +:+ " (< 8) distinct colours"))
      else Ok (candidates,
               if (n <? 16)%nat
               then ["only found distinct " +:+ pretty n +:+ " colours"]
               else [])
  end.

End base16_imagen.

(* ================================================================== *)
(** ** Slot assigner                                                   *)
(* ================================================================== *)

(** The store of list objects and computations over it.  A raised
    exception leaves the store as it was at the raise. *)
Abbreviation loc := nat.
Abbreviation heap := (gmap nat (list colour)).

Definition M (A : Type) : Type := heap -> result A * heap.

#[global] Instance M_ret : MRet M := fun A a h => (Ok a, h).
#[global] Instance M_bind : MBind M := fun A B f m h =>
  match m h with
  | (Ok a, h') => f a h'
  | (Raise e, h') => (Raise e, h')
  end.

Definition lift {A} (r : result A) : M A := fun h => (r, h).

(** [l.copy()]: a new list object with the same elements. *)
Definition list_copy (l : loc) : M loc := fun h =>
  let l' := fresh (dom h) in (Ok l', <[l' := h !!! l]> h).

(** [sorted(l, key=key)]: a new list object. *)
Definition list_sorted (key : colour -> result Z) (l : loc) : M loc :=
  fun h =>
    match sorted_raising key (h !!! l) with
    | Ok s => let l' := fresh (dom h) in (Ok l', <[l' := s]> h)
    | Raise e => (Raise e, h)
    end.

(** [if l:] *)
Definition list_truthy (l : loc) : M bool := fun h =>
  (Ok (truthy (h !!! l)), h).

Fixpoint pop_last {A} (l : list A) : option (list A * A) :=
  match l with
  | [] => None
  | x :: l' =>
      match pop_last l' with
      | None => Some ([], x)
      | Some (r, y) => Some (x :: r, y)
      end
  end.

(** [l.pop()]: removes the last element of the object in place. *)
Definition list_pop (l : loc) : M colour := fun h =>
  match pop_last (h !!! l) with
  | Some (r, y) => (Ok y, <[l := r]> h)
  | None => (Raise (IndexError "pop from empty list"), h)
  end.

(** The object [self], as far as [assign_palette] reads it. *)
Record Theme : Type := { dark : bool; palette : loc }.

Definition metrics : gmap string (colour -> result Z) :=
  list_to_map
    [ ("dark", fun colour => Ok (- sum colour));
      ("light", fun colour => Ok (sum colour));
      ("red", fun colour => prominence colour (hl_list ["red"]));
      ("green", fun colour => prominence colour (hl_list ["green"]));
      ("blue", fun colour => prominence colour (hl_list ["blue"]));
      ("cyan", fun colour => prominence colour (hl_list ["green"; "blue"]));
      ("magenta", fun colour => prominence colour (hl_list ["red"; "blue"]));
      ("yellow", fun colour => prominence colour (hl_list ["red"; "green"])) ].

Definition order : gmap string (list (string * string)) :=
  list_to_map
    [ ("dark",
       [ ("color00", "dark"); ("color07", "light"); ("color01", "red");
         ("color02", "green"); ("color04", "blue"); ("color03", "yellow");
         ("color05", "magenta"); ("color06", "cyan"); ("color18", "dark");
         ("color19", "dark"); ("color20", "dark"); ("color21", "dark");
         ("color15", "dark"); ("color16", "dark"); ("color17", "dark");
         ("color08", "dark") ]);
      ("light",
       [ ("color00", "light"); ("color07", "dark"); ("color01", "red");
         ("color02", "green"); ("color04", "blue"); ("color03", "yellow");
         ("color05", "magenta"); ("color06", "cyan"); ("color18", "light");
         ("color19", "light"); ("color20", "light"); ("color21", "light");
         ("color15", "light"); ("color16", "light"); ("color17", "light");
         ("color08", "light") ]) ].

(** An entry of [reuse_palette], as the starred call of
    [get_preference] unpacks it:
    a pair (options, metric name), or a one-element list whose element
    becomes [options] with [metric_name=None]. *)
Inductive reuse_entry : Type :=
| reuse_best (options : list string) (metric_name : string)
| reuse_copy (options : string).

Definition reuse_palette : gmap string reuse_entry :=
  list_to_map
    [ ("color08",
       reuse_best
         ["color01"; "color02"; "color03"; "color04"; "color05"; "color06"]
         "dark");
      ("color18",
       reuse_best
         ["color01"; "color02"; "color03"; "color04"; "color05"; "color06"]
         "light");
      ("color19", reuse_copy "color04");
      ("color20", reuse_copy "color07");
      ("color21", reuse_copy "color00");
      ("color15", reuse_copy "color01");
      ("color16", reuse_copy "color06");
      ("color17", reuse_copy "color02") ].

(** The slot catalog: the labels of the order tables. *)
Definition catalog : list string :=
  [ "color00"; "color01"; "color02"; "color03"; "color04"; "color05";
    "color06"; "color07"; "color08"; "color15"; "color16"; "color17";
    "color18"; "color19"; "color20"; "color21" ].

(** The closure [get_preference], applied to an entry. *)
Definition get_preference (designations : gmap string colour)
    (entry : reuse_entry) : result colour :=
  match entry with
  | reuse_copy options => dict_get designations options
  | reuse_best options metric_name =>
      picked ← mapM (dict_get designations) options;
      key ← dict_get metrics metric_name;
      ranked ← sorted_raising key picked;
      py_first ranked
  end.

(** The [for label, metric_name in order[tone]] loop. *)
Fixpoint assign_loop (slots : list (string * string)) (palette : loc)
    (designations : gmap string colour) : M (gmap string colour) :=
  match slots with
  | [] => mret designations
  | (label, metric_name) :: slots' =>
      key ← lift (dict_get metrics metric_name);
      palette ← list_sorted key palette;
      nonempty ← list_truthy palette;
      if (nonempty : bool)
      then
        c ← list_pop palette;
        assign_loop slots' palette (<[label := c]> designations)
      else
        entry ← lift (dict_get reuse_palette label);
        c ← lift (get_preference designations entry);
        assign_loop slots' palette (<[label := c]> designations)
  end.

(** [Theme.assign_palette] *)
Definition assign_palette (self : Theme) : M (gmap string colour) :=
  palette ← list_copy (palette self);
  let tone := if dark self then "dark" else "light" in
  slots ← lift (dict_get order tone);
  assign_loop slots palette ∅.

(* ================================================================== *)
(** ** Definitions used to state and prove the properties              *)
(* ================================================================== *)

(** [assign_loop] on list values instead of list objects: what the loop
    computes when the store is left out ([assign_loop_run] below shows
    they agree). *)
Fixpoint assign_fun (slots : list (string * string)) (palette : list colour)
    (designations : gmap string colour) : result (gmap string colour) :=
  match slots with
  | [] => Ok designations
  | (label, metric_name) :: slots' =>
      key ← dict_get metrics metric_name;
      palette ← sorted_raising key palette;
      match pop_last palette with
      | Some (rest, c) => assign_fun slots' rest (<[label := c]> designations)
      | None =>
          entry ← dict_get reuse_palette label;
          c ← get_preference designations entry;
          assign_fun slots' palette (<[label := c]> designations)
      end
  end.

(** The threshold probed in round [k] when every earlier round came back
    with fewer than 16 colours. *)
Definition probe (k : nat) (left right : Q) : Q :=
  Nat.iter k (fun l => midpoint l right) left.

(** [l'] is the stable sort of [l] on [key]: ascending keys, and colours
    of equal key in their input order. *)
Definition stable_sort_of {A} (key : A -> Z) (l l' : list A) : Prop :=
  StronglySorted (fun x y => key x <= key y) l'
  /\ forall k, filter (fun x => key x = k) l' = filter (fun x => key x = k) l.

(** The differences [desired channel - undesired channel] of a colour,
    for a set of hue names. *)
Definition pair_difference (rgb : colour) (hues : list string) (x : Z)
  : Prop :=
  exists d nd u nu,
    ((d, nd) ∈ zip (channels rgb) channel_names) /\ (nd ∈ hues)
    /\ ((u, nu) ∈ zip (channels rgb) channel_names) /\ (nu ∉ hues)
    /\ x = d - u.

Definition minimum_of (P : Z -> Prop) (m : Z) : Prop :=
  P m /\ forall x, P x -> m <= x.

Definition is_hex_digit (a : ascii) : bool :=
  match hex_value a with Some _ => true | None => false end.

Fixpoint string_forallb (f : ascii -> bool) (s : string) : bool :=
  match s with
  | EmptyString => true
  | String a s' => f a && string_forallb f s'
  end.

(** [get_similarity] over the reals, as the source writes it. *)
Definition get_similarity_real (c1 c2 : colour) : R :=
  (1 - sqrt (IZR (sq_distance c1 c2)) / sqrt (IZR max_sq_distance))%R.

(** The value of a metric, with the [Ok] stripped. *)
Definition score (key : colour -> result Z) (c : colour) : Z :=
  match key c with Ok z => z | Raise _ => 0 end.

(** The slots that are filled before any reuse entry exists: the first
    eight of either order table. *)
Definition primary : list string :=
  ["color00"; "color07"; "color01"; "color02"; "color04"; "color03";
   "color05"; "color06"].

(** A slot can be filled from the reuse table when only the labels in
    [avail] have been designated. *)
Definition resolvable (avail : list string) (label : string) : Prop :=
  match reuse_palette !! label with
  | Some (reuse_copy o) => o ∈ avail
  | Some (reuse_best os mn) =>
      os <> [] /\ Forall (fun o => o ∈ avail) os /\ is_Some (metrics !! mn)
  | None => False
  end.

(* ================================================================== *)
(** ** Concrete inputs                                                 *)
(* ================================================================== *)

(** The eight-colour scenario of the specification. *)
Definition eight_spread : list colour :=
  [ (10, 10, 10); (250, 250, 250); (200, 30, 30); (30, 200, 30);
    (30, 30, 200); (200, 200, 30); (200, 30, 200); (30, 200, 200) ].

(** Eight identical black triples. *)
Definition eight_black : list colour :=
  [ (0, 0, 0); (0, 0, 0); (0, 0, 0); (0, 0, 0);
    (0, 0, 0); (0, 0, 0); (0, 0, 0); (0, 0, 0) ].

(** Ten distinct colours between near-black and near-white. *)
Definition ten_spread : list colour :=
  [ (10, 10, 10); (250, 250, 250); (200, 30, 30); (30, 200, 30);
    (30, 30, 200); (200, 200, 31); (200, 30, 201); (30, 200, 202);
    (120, 120, 120); (60, 60, 61) ].

(** Sixteen distinct colours, the two darkest of equal brightness sum:
    the second one is as bright as the anchor and is dropped at every
    threshold below 1. *)
Definition twin_darkest : list colour :=
  [ (1, 0, 0); (0, 1, 0); (17, 17, 17); (34, 34, 34); (51, 51, 51);
    (68, 68, 68); (85, 85, 85); (102, 102, 102); (119, 119, 119);
    (136, 136, 136); (153, 153, 153); (170, 170, 170); (187, 187, 187);
    (204, 204, 204); (221, 221, 221); (238, 238, 238) ].

(** Eighteen distinct colours, three of them at the same distance 23
    from (60,60,60): the count jumps from 15 to 18 at one threshold. *)
Definition equidistant_cluster : list colour :=
  [ (0, 0, 0); (60, 60, 60); (83, 60, 60); (60, 83, 60); (60, 60, 83);
    (255, 255, 255); (255, 255, 128); (255, 128, 255); (128, 255, 255);
    (255, 128, 128); (128, 255, 128); (128, 128, 255); (255, 255, 0);
    (255, 0, 255); (0, 255, 255); (255, 0, 0); (0, 255, 0); (0, 0, 255) ].

(** Eighteen distinct colours, twelve of them of the same brightness
    sum 174, 24 above the anchor's: the count jumps from 6 to 18 at the
    threshold 1 - 24/765. *)
Definition iso_bright_cluster : list colour :=
  [ (50, 50, 50);
    (78, 38, 58); (38, 78, 58); (78, 58, 38); (38, 58, 78); (58, 78, 38);
    (58, 38, 78); (98, 38, 38); (18, 78, 78); (78, 78, 18); (38, 38, 98);
    (78, 18, 78); (38, 98, 38);
    (150, 150, 150); (200, 200, 200); (250, 250, 250); (250, 100, 100);
    (100, 250, 100) ].

(** An anchor and two colours whose similarity is within rounding
    distance of the threshold [near_threshold]. *)
Definition near_miss : list colour :=
  [ (0, 0, 0); (60, 60, 60); (117, 60, 60) ].

Definition near_threshold : Q := 490298578882329 # 2 ^ 49.

(** Sixteen greys and two colours next to a grey, out of order: round 4
    of the search keeps exactly the sixteen greys. *)
Definition eighteen_greys : list colour :=
  [ (35, 34, 34); (255, 255, 255); (238, 238, 238); (221, 221, 221);
    (204, 204, 204); (187, 187, 187); (170, 170, 170); (153, 153, 153);
    (136, 136, 136); (119, 119, 119); (102, 102, 102); (85, 85, 85);
    (68, 68, 68); (51, 51, 51); (34, 34, 34); (17, 17, 17); (0, 0, 0);
    (18, 17, 17) ].

Definition sixteen_greys : list colour :=
  [ (0, 0, 0); (17, 17, 17); (34, 34, 34); (51, 51, 51); (68, 68, 68);
    (85, 85, 85); (102, 102, 102); (119, 119, 119); (136, 136, 136);
    (153, 153, 153); (170, 170, 170); (187, 187, 187); (204, 204, 204);
    (221, 221, 221); (238, 238, 238); (255, 255, 255) ].

(** A dark theme whose palette is list object 0. *)
Definition dark_theme : Theme := {| dark := true; palette := 0%nat |}.

(* ================================================================== *)
(** ** The rest of themerator.py: [get_palette], [save], [render]     *)
(* ================================================================== *)

(** The test of the list comprehension in [get_palette]; a bound that is
    [None] does not filter.  [sum(colour) / 3] is a true division. *)
Definition within_boundaries (lower_bound upper_bound : option Q)
    (colour : colour) : bool :=
  match lower_bound with
  | None => true
  | Some lower_bound => Qgtb (inject_Z (sum colour) / 3) lower_bound
  end
  && match upper_bound with
     | None => true
     | Some upper_bound => Qgtb upper_bound (inject_Z (sum colour) / 3)
     end.

(** [Theme.get_palette].  [thief_palette] is what
    [self.thief.get_palette(color_count=50, quality=1)] returns;
    [darkness_boundaries] is [None] or a list of bounds, each a number
    or [None]. *)
Definition get_palette (dark : bool) (thief_palette : list colour)
    (darkness_boundaries : option (list (option Q)))
  : result (list colour * list string) :=
  let darkness_boundaries :=
    match darkness_boundaries with
    | None => if dark then [Some 25%Q; None] else [None; Some 225%Q]
    | Some boundaries => boundaries
    end in
  match darkness_boundaries with
  | [lower_bound; upper_bound] =>
      let colours :=
        List.filter (within_boundaries lower_bound upper_bound)
          thief_palette in
      filter_palette dark colours 50
  | [] | [_] =>
      Raise (ValueError
               ("not enough values to unpack (expected 2, got "
                  +:+ pretty (length darkness_boundaries) +:+ ")"))
  | _ => Raise (ValueError "too many values to unpack (expected 2)")
  end.

(** [s.replace(old, new)]: the occurrences of [old] are replaced from
    the left, without overlap.  [skip] counts the characters of a
    matched occurrence that are still to be passed over. *)
Fixpoint replace_from (old new : string) (skip : nat) (s : string) : string :=
  match s with
  | EmptyString => EmptyString
  | String c s' =>
      match skip with
      | S skip' => replace_from old new skip' s'
      | O =>
          if String.prefix old s
          then new +:+ replace_from old new (pred (String.length old)) s'
          else String c (replace_from old new 0 s')
      end
  end.

(** With an empty [old], [new] is put before every character and at the
    end. *)
Fixpoint intersperse (new s : string) : string :=
  match s with
  | EmptyString => new
  | String c s' => new +:+ String c (intersperse new s')
  end.

Definition replace (old new s : string) : string :=
  match old with
  | EmptyString => intersperse new s
  | _ => replace_from old new 0 s
  end.

(** Truth value of a string: non-empty. *)
Definition str_truthy (s : string) : bool :=
  match s with EmptyString => false | _ => true end.

(** The [for label, code in self.designations.items()] loop of [save];
    [vim] and [shell] are [None] for [False] and the text read from the
    template otherwise. *)
Fixpoint save_loop (items : list (string * colour))
    (vim shell : option string) : result (option string * option string) :=
  match items with
  | [] => Ok (vim, shell)
  | (label, (r, g, b)) :: items' =>
      hexcode ← _rgb_to_hex r g b "/";
      let shell :=
        match shell with
        | Some text =>
            if str_truthy text
            then Some (replace ("__" +:+ label +:+ "__") hexcode text)
            else shell
        | None => None
        end in
      let vim :=
        match vim with
        | Some text =>
            if str_truthy text
            then
              let vim_hexcode := replace "/" "" hexcode in
              let text := replace ("__" +:+ label +:+ "__") vim_hexcode text in
              Some (replace ("__hashed_" +:+ label +:+ "__")
                      ("#" +:+ vim_hexcode) text)
            else vim
        | None => None
        end in
      save_loop items' vim shell
  end.

(** [Theme.save], up to the two writes: the result is the text written
    to the vim file and the text written to the shell file ([None]: that
    file is not written).  [designations] are the items of
    [self.designations] in dict order; [vim_txt] and [shell_txt] are the
    contents of the two template files. *)
Definition save (designations : list (string * colour))
    (theme_name : string) (vim shell : bool) (vim_txt shell_txt : string)
  : result (option string * option string) :=
  if negb (truthy designations)
  then Raise (ValueError "No colours designated")
  else if negb (vim || shell)
  then Raise (ValueError "Must select at least one or 'shell' or 'vim'")
  else
    let vim :=
      if vim then Some (replace "__theme_name__" theme_name vim_txt)
      else None in
    let shell :=
      if shell then Some (replace "__theme__name__" theme_name shell_txt)
      else None in
    '(vim, shell) ← save_loop designations vim shell;
    let written (text : option string) :=
      match text with
      | Some text => if str_truthy text then Some text else None
      | None => None
      end in
    Ok (written vim, written shell).

(** A colour [_rgb_to_hex] accepts: every channel in [0, 256). *)
Definition in_range (c : colour) : Prop :=
  let '(r, g, b) := c in 0 <= r < 256 /\ 0 <= g < 256 /\ 0 <= b < 256.

(** The two hex digits of a channel. *)
Definition channel_hex (c : Z) : string :=
  String (hex_digit (c / 16)) (String (hex_digit (c mod 16)) "").

(** [Theme.render]: every designation goes through [_render]; the
    result lists what is printed, the slot name with the three channel
    numbers of the escape sequence.  [designations] are the items of
    [self.designations] in dict order. *)
Definition render (designations : list (string * colour))
  : result (list (string * (Z * Z * Z))) :=
  mapM (fun item => printed ← _render_channels item.2; mret (item.1, printed))
    designations.

Module sweet16.

(** [ThemeMaker.save] of sweet16.py.  Its second guard reads
    [if not vim or shell], and the rest is the text of themerator.py. *)
Definition save (designations : list (string * colour))
    (theme_name : string) (vim shell : bool) (vim_txt shell_txt : string)
  : result (option string * option string) :=
  if negb (truthy designations)
  then Raise (ValueError "No colours designated")
  else if negb vim || shell
  then Raise (ValueError "Must select at least one or 'shell' or 'vim'")
  else
    let vim :=
      if vim then Some (replace "__theme_name__" theme_name vim_txt)
      else None in
    let shell :=
      if shell then Some (replace "__theme__name__" theme_name shell_txt)
      else None in
    '(vim, shell) ← save_loop designations vim shell;
    let written (text : option string) :=
      match text with
      | Some text => if str_truthy text then Some text else None
      | None => None
      end in
    Ok (written vim, written shell).

End sweet16.

(* ================================================================== *)
(** ** Building a theme in base16_imagen.py                            *)
(* ================================================================== *)

(** What stops the construction of a [Theme]: an exception of the
    prelude, or the attribute that is not there yet. *)
Inductive failure : Type :=
| Raised (e : exception)
| AttributeError (msg : string).

Inductive outcome (A : Type) : Type :=
| Returned (a : A)
| Failed (f : failure).
Arguments Returned {A} a.
Arguments Failed {A} f.

(** [self.filter_palette(colours)] on an object that may not have its
    [logger] yet: [Theme.__init__] sets [self.logger] only after
    [generate_designations] has run, so the warning of a short palette
    is then an attribute lookup that fails. *)
Definition filter_palette_on (has_logger dark : bool) (colours : list colour)
  : outcome (list colour * list string) :=
  match base16_imagen.filter_palette dark colours 50 with
  | Ok (candidates, []) => Returned (candidates, [])
  | Ok (candidates, warnings) =>
      if has_logger then Returned (candidates, warnings)
      else Failed (AttributeError "'Theme' object has no attribute 'logger'")
  | Raise e => Failed (Raised e)
  end.

(** [not variant]: [None] and the empty string are false. *)
Definition variant_falsy (variant : option string) : bool :=
  match variant with
  | None | Some EmptyString => true
  | Some _ => false
  end.

(** The local [dark] of [generate_palette]:
    [sum(dominant_colour) / 3 < 255 / 2]. *)
Definition dominant_dark (dominant_colour : colour) : bool :=
  Qgtb (255 / 2)%Q (inject_Z (sum dominant_colour) / 3)%Q.

(** [darkness_boundaries], as [generate_palette] chooses them.  The
    float arithmetic on [intensity] is read over the rationals. *)
Definition darkness_boundaries (variant : option string) (intensity : Z)
    (dominant_colour : colour) : Q * Q :=
  if variant_falsy variant
  then
    let background := (inject_Z (sum dominant_colour) / 3)%Q in
    if dominant_dark dominant_colour
    then (background, 255 * (inject_Z intensity / 100))%Q
    else (255 * (1 - inject_Z intensity / 100), background)%Q
  else if bool_decide (variant = Some "dark")
  then (255 * (1 - inject_Z intensity / 100), 255)%Q
  else (0, 255 * (inject_Z intensity / 100))%Q.

(** [self.dark = variant == "dark" or (variant is None and dark)] *)
Definition theme_dark (variant : option string) (dominant_colour : colour)
  : bool :=
  bool_decide (variant = Some "dark")
  || (bool_decide (variant = None) && dominant_dark dominant_colour).

(** The test of the list comprehension in [generate_palette]. *)
Definition between_boundaries (boundaries : Q * Q) (colour : colour) : bool :=
  Qle_bool boundaries.1 (inject_Z (sum colour) / 3)%Q
  && Qle_bool (inject_Z (sum colour) / 3)%Q boundaries.2.

(** [Theme.generate_palette].  [colours] is the caller's list object:
    [colours.pop(0)] takes its first element out in place.  The result
    is the value given to [self.dark], the palette and the warnings. *)
Definition generate_palette (has_logger : bool) (colours : loc)
    (variant : option string) (intensity : Z) (h : heap)
  : outcome (bool * list colour * list string) * heap :=
  match h !!! colours with
  | [] => (Failed (Raised (IndexError "pop from empty list")), h)
  | dominant_colour :: rest =>
      let h := <[colours := rest]> h in
      let boundaries := darkness_boundaries variant intensity dominant_colour in
      let dark := theme_dark variant dominant_colour in
      let colours :=
        List.filter (between_boundaries boundaries) (dominant_colour :: rest) in
      match filter_palette_on has_logger dark colours with
      | Returned (palette, warnings) => (Returned (dark, palette, warnings), h)
      | Failed f => (Failed f, h)
      end
  end.

(** [Theme.generate_designations]: the palette becomes a new list object
    held by [self], and the slots are assigned from it. *)
Definition generate_designations (has_logger : bool) (colours : loc)
    (variant : option string) (intensity : Z) (h : heap)
  : outcome (Theme * gmap string colour * list string) * heap :=
  match generate_palette has_logger colours variant intensity h with
  | (Returned (dark, palette, warnings), h) =>
      let l := fresh (dom h) in
      let self := {| dark := dark; palette := l |} in
      match assign_palette self (<[l := palette]> h) with
      | (Ok designations, h) => (Returned (self, designations, warnings), h)
      | (Raise e, h) => (Failed (Raised e), h)
      end
  | (Failed f, h) => (Failed f, h)
  end.

(** [ThemeMaker.create_theme], up to the rendering: [Theme.__init__]
    runs [generate_designations] on the maker's own list [self.colours]
    before the theme has a logger. *)
Definition create_theme (colours : loc) (variant : option string)
    (intensity : Z) (h : heap)
  : outcome (Theme * gmap string colour * list string) * heap :=
  generate_designations false colours variant intensity h.

(* ================================================================== *)
(** ** Further definitions used to state the properties               *)
(* ================================================================== *)

(** No two labels map to one colour. *)
Definition distinct_colours (d : gmap string colour) : Prop :=
  forall l1 l2 c, d !! l1 = Some c -> d !! l2 = Some c -> l1 = l2.

Definition accents : list string :=
  ["color01"; "color02"; "color03"; "color04"; "color05"; "color06"].

(** The labels of either table, in assignment order. *)
Definition slot_labels : list string :=
  ["color00"; "color07"; "color01"; "color02"; "color04"; "color03";
   "color05"; "color06"; "color18"; "color19"; "color20"; "color21";
   "color15"; "color16"; "color17"; "color08"].

(** Room for rounding.  The code compares binary64 values.  For
    colours with channels in [0, 256) and a threshold in [0, 1] the
    rounded similarity is within [2 ^ -51] of the exact one, the rounded
    brightness similarity within [2 ^ -52], and the rounded derived
    threshold of themerator.py within [5 * 2 ^ -53], so a comparison can
    fall the other way only when the exact value is that close to the
    threshold.  The properties of the pass are stated with this much
    room, and hold for the pass with exact comparisons and for the pass
    on floats. *)
Definition rounding_slack : Q := 1 # 2 ^ 50.

(** No two colours of [res] are more similar than [t], up to rounding. *)
Definition separated (t : Q) (res : list colour) : Prop :=
  forall (i j : nat) (a b : colour),
    i <> j -> res !! i = Some a -> res !! j = Some b ->
    (get_similarity_real a b <= Q2R (t + rounding_slack))%R.

(** Every colour after the anchor is at most [bt] close to it in
    brightness, up to rounding. *)
Definition brightness_gap (bt : Q) (res : list colour) : Prop :=
  forall (bg : colour) (kept : list colour),
    res = bg :: kept ->
    Forall (fun c => (background_similarity c bg <= bt + rounding_slack)%Q)
      kept.

(** Nothing more of [colours] could have been kept: a colour that is
    not in [res] is as similar as [t], up to rounding, to a colour of
    [res], or as close as [bt], up to rounding, to the anchor in
    brightness. *)
Definition saturated (t bt : Q) (colours res : list colour) : Prop :=
  forall c : colour,
    c ∈ colours ->
    c ∈ res
    \/ (exists k, k ∈ res
                  /\ (get_similarity_real c k > Q2R (t - rounding_slack))%R)
    \/ (exists bg, head colours = Some bg
                   /\ (bt - rounding_slack < background_similarity c bg)%Q).

(** Loop invariant of the pass on floats: the rounded similarity of a
    colour to any colour chosen before it is at most [t]. *)
Definition apart_binary64 (t : Q) (chosen : list colour) : Prop :=
  forall (i j : nat) (a b : colour),
    (i < j)%nat -> chosen !! i = Some a -> chosen !! j = Some b ->
    (get_similarity_binary64 b a <= t)%Q.

(** Loop invariant of the similarity pass: a colour is not more similar
    than [t] to any colour chosen before it. *)
Definition apart (t : Q) (chosen : list colour) : Prop :=
  forall (i j : nat) (a b : colour),
    (i < j)%nat -> chosen !! i = Some a -> chosen !! j = Some b ->
    get_similarity_gt b a t = false.

(** No comparison of the pass over [colours] at threshold [t], with
    derived threshold [bt], is within the rounding slack of its
    threshold: each exact test gives the same answer at both ends of the
    band. *)
Definition clear_of_rounding (colours : list colour) (t bt : Q) : bool :=
  match colours with
  | [] => true
  | bg :: rest =>
      forallb
        (fun c =>
           forallb
             (fun k =>
                eqb (get_similarity_gt c k (t - rounding_slack))
                    (get_similarity_gt c k (t + rounding_slack)))
             colours
           && eqb (Qgtb (background_similarity c bg) (bt - rounding_slack))
                  (Qgtb (background_similarity c bg) (bt + rounding_slack)))
        rest
  end.

(** The designations of [eight_spread] under the dark order. *)
Definition eight_designations : gmap string colour :=
  list_to_map
    [ ("color00", (10, 10, 10)); ("color07", (250, 250, 250));
      ("color01", (200, 30, 30)); ("color02", (30, 200, 30));
      ("color04", (30, 30, 200)); ("color03", (200, 200, 30));
      ("color05", (200, 30, 200)); ("color06", (30, 200, 200));
      ("color18", (200, 30, 30)); ("color19", (30, 30, 200));
      ("color20", (250, 250, 250)); ("color21", (10, 10, 10));
      ("color15", (200, 30, 30)); ("color16", (30, 200, 200));
      ("color17", (30, 200, 30)); ("color08", (200, 200, 30)) ].

(** The designations of [twin_darkest] under the dark order. *)
Definition twin_designations : gmap string colour :=
  list_to_map
    [ ("color00", (0, 1, 0)); ("color07", (238, 238, 238));
      ("color01", (1, 0, 0)); ("color02", (221, 221, 221));
      ("color04", (204, 204, 204)); ("color03", (187, 187, 187));
      ("color05", (170, 170, 170)); ("color06", (153, 153, 153));
      ("color18", (17, 17, 17)); ("color19", (34, 34, 34));
      ("color20", (51, 51, 51)); ("color21", (68, 68, 68));
      ("color15", (85, 85, 85)); ("color16", (102, 102, 102));
      ("color17", (119, 119, 119)); ("color08", (136, 136, 136)) ].

(** Stores that hold one palette as list object 0. *)
Definition eight_store : heap := {[ 0%nat := eight_spread ]}.
Definition twin_store : heap := {[ 0%nat := twin_darkest ]}.
Definition spread_store : heap := {[ 0%nat := ten_spread ]}.
Definition one_store : heap := {[ 0%nat := [(1, 2, 3)] ]}.

(** [ten_spread] without its colour of brightness sum 30, sorted for a
    dark theme. *)
Definition bright_nine : list colour :=
  [ (60, 60, 61); (200, 30, 30); (30, 200, 30); (30, 30, 200);
    (120, 120, 120); (200, 200, 31); (200, 30, 201); (30, 200, 202);
    (250, 250, 250) ].

Definition nine_store : heap := {[ 0%nat := bright_nine ]}.

(** [ten_spread] sorted for a dark theme. *)
Definition ten_sorted : list colour :=
  [ (10, 10, 10); (60, 60, 61); (200, 30, 30); (30, 200, 30); (30, 30, 200);
    (120, 120, 120); (200, 200, 31); (200, 30, 201); (30, 200, 202);
    (250, 250, 250) ].

(** Ten greys of ten different brightness sums. *)
Definition grey_ramp : list colour :=
  [ (0, 1, 0); (17, 17, 17); (34, 34, 34); (51, 51, 51); (68, 68, 68);
    (85, 85, 85); (102, 102, 102); (119, 119, 119); (136, 136, 136);
    (153, 153, 153) ].

Definition ramp_store : heap := {[ 0%nat := grey_ramp ]}.

(** The theme and the designations built from [spread_store] with the
    empty variant. *)
Definition light_theme : Theme := {| dark := false; palette := 1%nat |}.

Definition light_designations : gmap string colour :=
  list_to_map
    [ ("color00", (250, 250, 250)); ("color07", (10, 10, 10));
      ("color01", (200, 30, 30)); ("color02", (30, 200, 30));
      ("color04", (30, 30, 200)); ("color03", (200, 200, 31));
      ("color05", (200, 30, 201)); ("color06", (30, 200, 202));
      ("color18", (120, 120, 120)); ("color19", (60, 60, 61));
      ("color20", (10, 10, 10)); ("color21", (250, 250, 250));
      ("color15", (200, 30, 30)); ("color16", (30, 200, 202));
      ("color17", (30, 200, 30)); ("color08", (30, 200, 202)) ].

(** Two designations, as [items()] lists them. *)
Definition two_items : list (string * colour) :=
  [ ("color00", (10, 10, 10)); ("color07", (250, 250, 250)) ].

(* ================================================================== *)
(** ** Properties                                                      *)
(* ================================================================== *)

(** *** RGB to hex *)

Lemma channel_code (c : Z) :
  0 <= c < 256 ->
  _pad (str_from 2 (hex c))
  = String (hex_digit (c / 16)) (String (hex_digit (c mod 16)) EmptyString).
Proof.
  intros Hc.
  assert (Hall : forallb
            (fun c => bool_decide
               (_pad (str_from 2 (hex c))
                = String (hex_digit (c / 16))
                    (String (hex_digit (c mod 16)) EmptyString)))
            (seqZ 0 256) = true) by (vm_compute; reflexivity).
  rewrite forallb_forall in Hall.
  eapply bool_decide_eq_true, Hall, list_elem_of_In, elem_of_seqZ. lia.
Qed.

Lemma hex_value_digit (d : Z) :
  0 <= d < 16 ->
  hex_value (hex_digit d) = Some d
  /\ hex_value (ascii_upper (hex_digit d)) = Some d.
Proof.
  intros Hd.
  assert (Hall : forallb
            (fun d => bool_decide
               (hex_value (hex_digit d) = Some d
                /\ hex_value (ascii_upper (hex_digit d)) = Some d))
            (seqZ 0 16) = true) by (vm_compute; reflexivity).
  rewrite forallb_forall in Hall.
  eapply bool_decide_eq_true, Hall, list_elem_of_In, elem_of_seqZ. lia.
Qed.

Lemma int16_digits_cons (a : ascii) (d : Z) (s : string) (acc : Z) :
  hex_value a = Some d ->
  int16_digits (String a s) acc = int16_digits s (acc * 16 + d).
Proof. intros E. cbn [int16_digits]. by rewrite E. Qed.

Lemma nibbles (c : Z) :
  0 <= c < 256 -> 0 <= c / 16 < 16 /\ 0 <= c mod 16 < 16.
Proof. intros Hc. split; [split|]; try apply Z.mod_pos_bound; try lia.
  apply Z.div_pos; lia. apply Z.div_lt_upper_bound; lia. Qed.

Lemma unpack_channels (r g b : Z) :
  0 <= r < 256 -> 0 <= g < 256 -> 0 <= b < 256 ->
  forall h,
  h = (((((0 * 16 + r / 16) * 16 + r mod 16) * 16 + g / 16) * 16
         + g mod 16) * 16 + b / 16) * 16 + b mod 16 ->
  (Z.shiftr h 16, Z.land (Z.shiftr h 8) 255, Z.land h 255) = (r, g, b).
Proof.
  intros Hr Hg Hb h Hdef.
  assert (Hh : h = r * 65536 + g * 256 + b).
  { rewrite Hdef. pose proof (Z.div_mod r 16). pose proof (Z.div_mod g 16).
    pose proof (Z.div_mod b 16). lia. }
  rewrite Hh. clear Hh Hdef h.
  rewrite !Z.shiftr_div_pow2 by lia.
  change 255 with (Z.ones 8). rewrite !Z.land_ones by lia.
  change (2 ^ 16) with 65536. change (2 ^ 8) with 256.
  f_equal; [f_equal|]; Z.div_mod_to_equations; lia.
Qed.

(** C10.  For integer channels r, g, b in [0, 256), [_rgb_to_hex] with the
    empty separator returns a string of six hexadecimal digits; read back
    in base 16 as h, the channels are h >> 16, (h >> 8) & 0xFF and
    h & 0xFF; [_render] recovers the same three numbers through the
    upper-cased code. *)
Theorem rgb_hex_roundtrip (r g b : Z) :
  0 <= r < 256 -> 0 <= g < 256 -> 0 <= b < 256 ->
  exists code h,
    _rgb_to_hex r g b "" = Ok code
    /\ String.length code = 6%nat
    /\ string_forallb is_hex_digit code = true
    /\ int16 code = Ok h
    /\ (Z.shiftr h 16, Z.land (Z.shiftr h 8) 255, Z.land h 255) = (r, g, b)
    /\ _render_channels (r, g, b) = Ok (r, g, b).
Proof.
  intros Hr Hg Hb.
  destruct (nibbles r Hr) as [Hr1 Hr2], (nibbles g Hg) as [Hg1 Hg2],
    (nibbles b Hb) as [Hb1 Hb2].
  destruct (hex_value_digit _ Hr1) as [Er1 Ur1], (hex_value_digit _ Hr2) as [Er2 Ur2],
    (hex_value_digit _ Hg1) as [Eg1 Ug1], (hex_value_digit _ Hg2) as [Eg2 Ug2],
    (hex_value_digit _ Hb1) as [Eb1 Ub1], (hex_value_digit _ Hb2) as [Eb2 Ub2].
  assert (Hcode : _rgb_to_hex r g b ""
    = Ok (String (hex_digit (r / 16)) (String (hex_digit (r mod 16))
         (String (hex_digit (g / 16)) (String (hex_digit (g mod 16))
         (String (hex_digit (b / 16)) (String (hex_digit (b mod 16))
            EmptyString))))))).
  { unfold _rgb_to_hex.
    replace (forallb _ [r; g; b]) with true
      by (symmetry; simpl; rewrite !andb_true_iff, !Z.leb_le, !Z.ltb_lt; lia).
    cbn [fmap list_fmap String.concat].
    rewrite !channel_code by done. reflexivity. }
  eexists _, _. split; [exact Hcode|].
  split; [reflexivity|].
  split.
  { cbn [string_forallb]. unfold is_hex_digit.
    rewrite Er1, Er2, Eg1, Eg2, Eb1, Eb2. reflexivity. }
  split.
  { unfold int16.
    by rewrite (int16_digits_cons _ _ _ _ Er1), (int16_digits_cons _ _ _ _ Er2),
      (int16_digits_cons _ _ _ _ Eg1), (int16_digits_cons _ _ _ _ Eg2),
      (int16_digits_cons _ _ _ _ Eb1), (int16_digits_cons _ _ _ _ Eb2). }
  split; [by apply (unpack_channels r g b)|].
  unfold _render_channels. rewrite Hcode. cbn [mbind result_bind upper].
  unfold int16.
  rewrite (int16_digits_cons _ _ _ _ Ur1), (int16_digits_cons _ _ _ _ Ur2),
    (int16_digits_cons _ _ _ _ Ug1), (int16_digits_cons _ _ _ _ Ug2),
    (int16_digits_cons _ _ _ _ Ub1), (int16_digits_cons _ _ _ _ Ub2).
  cbn [int16_digits mbind mret result_bind result_ret]. f_equal. by apply (unpack_channels r g b).
Qed.

Lemma rgb_hex_roundtrip_witness :
  0 <= 171 < 256 /\ 0 <= 10 < 256 /\ 0 <= 255 < 256
  /\ exists code h,
       _rgb_to_hex 171 10 255 "" = Ok code
       /\ String.length code = 6%nat
       /\ string_forallb is_hex_digit code = true
       /\ int16 code = Ok h
       /\ (Z.shiftr h 16, Z.land (Z.shiftr h 8) 255, Z.land h 255)
          = (171, 10, 255)
       /\ _render_channels (171, 10, 255) = Ok (171, 10, 255).
Proof.
  assert (Hr : 0 <= 171 < 256) by lia.
  assert (Hg : 0 <= 10 < 256) by lia.
  assert (Hb : 0 <= 255 < 256) by lia.
  split; [exact Hr|]. split; [exact Hg|]. split; [exact Hb|].
  exact (rgb_hex_roundtrip 171 10 255 Hr Hg Hb).
Defined.

(** *** Hue prominence *)

Lemma valid_hues_pass (hues : list string) :
  hues ⊆ channel_names ->
  existsb (fun highlight => negb (bool_decide (highlight ∈ channel_names))) hues
  = false.
Proof.
  intros Hsub. apply not_true_is_false. intros Hex.
  apply existsb_exists in Hex as (h & Hin & Hneg).
  apply negb_true_iff, bool_decide_eq_false in Hneg.
  apply Hneg, Hsub, list_elem_of_In, Hin.
Qed.

(** Which channels a hue list of one or two names selects: not none, not
    all three. *)
Lemma hue_selection (hues : list string) :
  hues ⊆ channel_names ->
  (1 <= size (list_to_set hues : gset string) <= 2)%nat ->
  let sel := (bool_decide ("red" ∈ hues), bool_decide ("green" ∈ hues),
              bool_decide ("blue" ∈ hues)) in
  sel <> (false, false, false) /\ sel <> (true, true, true).
Proof.
  intros Hsub Hsize sel. split; intros Hsel; injection Hsel as Hr Hg Hb.
  - apply bool_decide_eq_false in Hr, Hg, Hb.
    assert (hues = []) as ->.
    { destruct hues as [|h hues]; [done|]. exfalso.
      assert (Hh : h ∈ channel_names) by (apply Hsub; left).
      apply list_elem_of_In in Hh. simpl in Hh.
      destruct Hh as [E|[E|[E|[]]]]; subst h;
        [apply Hr|apply Hg|apply Hb]; left. }
    assert (size (list_to_set [] : gset string) = 0%nat) by done. lia.
  - apply bool_decide_eq_true in Hr, Hg, Hb.
    assert (Hin : ({["red"; "green"; "blue"]} : gset string)
                    ⊆ list_to_set hues) by set_solver.
    apply subseteq_size in Hin.
    assert (size ({["red"; "green"; "blue"]} : gset string) = 3%nat)
      by (vm_compute; reflexivity).
    lia.
Qed.

Local Ltac pair_here d nd u nu :=
  exists d, nd, u, nu;
  split_and!;
  [repeat constructor | assumption | repeat constructor | assumption | lia].

(** C6.  For a colour and a list of hue names drawn from red, green, blue
    that names one or two different hues, [prominence] returns the least
    of the differences desired channel - undesired channel; for
    (200,50,50) and red it is 150, for (50,50,200) and red it is -150. *)
Theorem prominence_is_min_pair_difference (rgb : colour) (hues : list string) :
  hues ⊆ channel_names ->
  (1 <= size (list_to_set hues : gset string) <= 2)%nat ->
  (exists m,
     prominence rgb (hl_list hues) = Ok m
     /\ minimum_of (pair_difference rgb hues) m)
  /\ prominence (200, 50, 50) (hl_list ["red"]) = Ok 150
  /\ prominence (50, 50, 200) (hl_list ["red"]) = Ok (-150).
Proof.
  intros Hsub Hsize. split; [|by split].
  destruct (hue_selection hues Hsub Hsize) as [Hnone Hall].
  destruct rgb as [[r g] b].
  unfold prominence. rewrite valid_hues_pass by done.
  cbn [channels channel_names zip zip_with fold_left fst snd].
  assert (Hpd : forall x, pair_difference (r, g, b) hues x <->
     exists d nd u nu, ((d, nd) ∈ [(r, "red"); (g, "green"); (b, "blue")])
       /\ (nd ∈ hues) /\ ((u, nu) ∈ [(r, "red"); (g, "green"); (b, "blue")])
       /\ (nu ∉ hues) /\ x = d - u) by done.
  unfold minimum_of. setoid_rewrite Hpd. clear Hpd.
  destruct (bool_decide ("red" ∈ hues)) eqn:Er,
    (bool_decide ("green" ∈ hues)) eqn:Eg,
    (bool_decide ("blue" ∈ hues)) eqn:Eb; try done;
    try apply bool_decide_eq_true in Er; try apply bool_decide_eq_false in Er;
    try apply bool_decide_eq_true in Eg; try apply bool_decide_eq_false in Eg;
    try apply bool_decide_eq_true in Eb; try apply bool_decide_eq_false in Eb;
    cbn; eexists; (split; [reflexivity|]); split.
  all: try (intros x (d & nd & u & nu & Hd & Hnd & Hu & Hnu & ->);
            rewrite !elem_of_cons in Hd, Hu;
            destruct Hd as [Hd|[Hd|[Hd|Hd]]]; try (by inversion Hd);
            destruct Hu as [Hu|[Hu|[Hu|Hu]]]; try (by inversion Hu);
            injection Hd as -> ->; injection Hu as -> ->; try done; lia).
  all: match goal with
       | |- context [Z.min ?x ?y] =>
           destruct (Z.min_spec x y) as [[_ ->]|[_ ->]]
       end.
  all: first [ pair_here r "red" g "green" | pair_here r "red" b "blue"
             | pair_here g "green" r "red" | pair_here g "green" b "blue"
             | pair_here b "blue" r "red" | pair_here b "blue" g "green" ].
Qed.

Lemma prominence_is_min_pair_difference_witness :
  ["red"; "green"] ⊆ channel_names
  /\ (1 <= size (list_to_set ["red"; "green"] : gset string) <= 2)%nat
  /\ exists m,
       prominence (200, 180, 50) (hl_list ["red"; "green"]) = Ok m
       /\ minimum_of (pair_difference (200, 180, 50) ["red"; "green"]) m.
Proof.
  assert (H1 : ["red"; "green"] ⊆ channel_names).
  { intros x Hx. apply list_elem_of_In. apply list_elem_of_In in Hx.
    simpl in *. tauto. }
  assert (H2 : (1 <= size (list_to_set ["red"; "green"] : gset string)
                <= 2)%nat) by (vm_compute; lia).
  split; [exact H1|]. split; [exact H2|].
  exact (proj1 (prominence_is_min_pair_difference (200, 180, 50)
                  ["red"; "green"] H1 H2)).
Defined.

(** *** The stable sort *)

Section sorting.
Context {A : Type}.
Implicit Types (l : list (Z * A)) (k : Z) (x : A).

Lemma insert_keyed_perm k x l : insert_keyed k x l ≡ₚ (k, x) :: l.
Proof.
  induction l as [|[k' y] l IH]; cbn; [done|].
  destruct (k <=? k'); [done|]. rewrite IH. apply Permutation_swap.
Qed.

Lemma sort_keyed_perm l : sort_keyed l ≡ₚ l.
Proof.
  induction l as [|[k x] l IH]; cbn; [done|].
  fold (sort_keyed l). by rewrite insert_keyed_perm, IH.
Qed.

Lemma insert_keyed_sorted k x l :
  StronglySorted (fun a b => a.1 <= b.1) l ->
  StronglySorted (fun a b => a.1 <= b.1) (insert_keyed k x l).
Proof.
  induction 1 as [|[k' y] l Hl IH Hall]; cbn.
  - repeat constructor.
  - destruct (k <=? k') eqn:E.
    + apply Z.leb_le in E. constructor; [by constructor|].
      constructor; [done|].
      eapply Forall_impl; [exact Hall|]. cbn. intros; lia.
    + apply Z.leb_gt in E. constructor; [done|].
      rewrite insert_keyed_perm. constructor; [cbn; lia|done].
Qed.

Lemma sort_keyed_sorted l :
  StronglySorted (fun a b => a.1 <= b.1) (sort_keyed l).
Proof.
  induction l as [|[k x] l IH]; cbn; [constructor|].
  by apply insert_keyed_sorted.
Qed.

Lemma insert_keyed_stable k x l k0 :
  filter (fun a => a.1 = k0) (insert_keyed k x l)
  = filter (fun a => a.1 = k0) ((k, x) :: l).
Proof.
  induction l as [|[k' y] l IH]; cbn; [done|].
  destruct (k <=? k') eqn:E; [done|]. apply Z.leb_gt in E.
  rewrite !filter_cons in *. cbn in *. rewrite IH.
  repeat case_decide; done || lia.
Qed.

Lemma sort_keyed_stable l k0 :
  filter (fun a => a.1 = k0) (sort_keyed l) = filter (fun a => a.1 = k0) l.
Proof.
  induction l as [|[k x] l IH]; cbn; [done|]. fold (sort_keyed l).
  rewrite insert_keyed_stable, !filter_cons, IH. done.
Qed.

Context (key : A -> Z).

Lemma undecorate (l : list A) : ((fun x => (key x, x)) <$> l).*2 = l.
Proof. induction l as [|x l IH]; cbn; [done|]. by rewrite IH. Qed.

Lemma filter_decorated (l : list A) k0 :
  filter (fun a => a.1 = k0) ((fun x => (key x, x)) <$> l)
  = (fun x => (key x, x)) <$> filter (fun x => key x = k0) l.
Proof.
  induction l as [|x l IH]; [done|].
  rewrite fmap_cons, !filter_cons, IH. cbn. by case_decide.
Qed.

Lemma sorted_perm (l : list A) : sorted key l ≡ₚ l.
Proof. unfold sorted. by rewrite sort_keyed_perm, undecorate. Qed.

Lemma sort_keyed_decorated (l : list A) :
  sort_keyed ((fun x => (key x, x)) <$> l)
  = (fun x => (key x, x)) <$> sorted key l.
Proof.
  unfold sorted.
  assert (Hall : Forall (fun a => a.1 = key a.2)
                   (sort_keyed ((fun x => (key x, x)) <$> l))).
  { rewrite sort_keyed_perm. apply Forall_fmap, Forall_true. done. }
  induction Hall as [|[k x] L Hk _ IH]; cbn in *; [done|].
  by rewrite Hk, <- IH.
Qed.

Lemma sorted_stable_sort (l : list A) : stable_sort_of key l (sorted key l).
Proof.
  split.
  - pose proof (sort_keyed_sorted ((fun x => (key x, x)) <$> l)) as Hs.
    rewrite sort_keyed_decorated in Hs. revert Hs.
    generalize (sorted key l). intros l'.
    induction l' as [|x l' IH]; intros Hs; [constructor|].
    cbn in Hs. apply StronglySorted_inv in Hs as [Hs Hall].
    constructor; [by apply IH|].
    rewrite Forall_fmap in Hall.
    eapply Forall_impl; [exact Hall|]. by cbn.
  - intros k0.
    pose proof (sort_keyed_stable ((fun x => (key x, x)) <$> l) k0) as Hs.
    rewrite sort_keyed_decorated, !filter_decorated in Hs.
    apply (f_equal (fmap snd)) in Hs.
    by rewrite !undecorate in Hs.
Qed.

Lemma sorted_raising_total (keyr : A -> result Z) (l : list A) :
  (forall x, keyr x = Ok (key x)) ->
  sorted_raising keyr l = Ok (sorted key l).
Proof.
  intros Hk. unfold sorted_raising, sorted.
  assert (mapM (fun x => k ← keyr x; mret (k, x)) l
          = Ok ((fun x => (key x, x)) <$> l)) as ->; [|done].
  induction l as [|x l IH]; cbn; [done|].
  rewrite Hk. cbn. by rewrite IH.
Qed.
End sorting.

Lemma sorted_elem_of {A} (key : A -> Z) (l : list A) (x : A) :
  x ∈ sorted key l <-> x ∈ l.
Proof. by rewrite sorted_perm. Qed.

Lemma sorted_length {A} (key : A -> Z) (l : list A) :
  length (sorted key l) = length l.
Proof. by rewrite sorted_perm. Qed.

(** *** The similarity pass *)

Lemma Qgtb_true (a b : Q) : Qgtb a b = true <-> (b < a)%Q.
Proof.
  unfold Qgtb. rewrite negb_true_iff, <- not_true_iff_false, Qle_bool_iff.
  split; [apply Qnot_le_lt | apply Qlt_not_le].
Qed.

Lemma Qgtb_false (a b : Q) : Qgtb a b = false <-> (a <= b)%Q.
Proof.
  unfold Qgtb. rewrite negb_false_iff, Qle_bool_iff. done.
Qed.

Lemma sq_distance_refl (c : colour) : sq_distance c c = 0.
Proof. destruct c as [[r g] b]. unfold sq_distance. rewrite !Z.sub_diag. done. Qed.

Lemma sq_distance_pos (c1 c2 : colour) : c1 <> c2 -> 1 <= sq_distance c1 c2.
Proof.
  destruct c1 as [[r1 g1] b1], c2 as [[r2 g2] b2]. intros Hne.
  unfold sq_distance.
  assert (r1 <> r2 \/ g1 <> g2 \/ b1 <> b2) as Hd.
  { destruct (decide (r1 = r2)), (decide (g1 = g2)), (decide (b1 = b2));
      subst; auto. }
  nia.
Qed.

(** An identical colour is always "too similar" below threshold 1. *)
Lemma get_similarity_gt_refl (c : colour) (t : Q) :
  (t < 1)%Q -> get_similarity_gt c c t = true.
Proof.
  intros Ht. unfold get_similarity_gt.
  rewrite sq_distance_refl, andb_true_iff, !Qgtb_true. split; [lra|].
  change (inject_Z max_sq_distance) with (195075 # 1)%Q.
  change (inject_Z 0) with 0%Q.
  assert (0 < (1 - t) * (1 - t))%Q by nra.
  assert ((1 - t) ^ 2 == (1 - t) * (1 - t))%Q as -> by (simpl; ring).
  nra.
Qed.

(** Distinct colours are never "too similar" at a threshold this close to 1. *)
Lemma get_similarity_gt_distinct (c1 c2 : colour) (t : Q) :
  c1 <> c2 -> ((1 - t) ^ 2 * inject_Z max_sq_distance <= 1)%Q ->
  get_similarity_gt c1 c2 t = false.
Proof.
  intros Hne Ht. unfold get_similarity_gt.
  apply andb_false_iff. right. apply Qgtb_false.
  apply sq_distance_pos in Hne.
  assert (1 <= inject_Z (sq_distance c1 c2))%Q.
  { change 1%Q with (inject_Z 1). by rewrite <- Zle_Qle. }
  lra.
Qed.

Lemma background_similarity_far (c bg : colour) (bt : Q) :
  sum c <> sum bg -> (764 # 765 <= bt)%Q ->
  Qgtb (background_similarity c bg) bt = false.
Proof.
  intros Hne Hbt. apply Qgtb_false. unfold background_similarity.
  assert (1 <= inject_Z (Z.abs (sum c - sum bg)))%Q.
  { change 1%Q with (inject_Z 1). rewrite <- Zle_Qle.
    revert Hne. generalize (sum c) (sum bg). intros; lia. }
  eapply Qle_trans; [|exact Hbt].
  apply Qle_shift_div_r; [reflexivity|].
  set (x := inject_Z _) in *.
  assert ((764 # 765) * 255 == 255 - 1 / 3)%Q as -> by reflexivity.
  unfold Qdiv. change (/ 3)%Q with (1 # 3)%Q.
  assert (x * (1 # 3) >= 1 * (1 # 3))%Q; [|lra].
  apply Qmult_le_compat_r; [done|discriminate].
Qed.

Section similarity_loop.
Context (t bt : Q) (bg : colour).

Lemma similarity_loop_app (colours chosen : list colour) :
  exists kept,
    similarity_loop t bt bg colours chosen = chosen ++ kept
    /\ kept `sublist_of` colours.
Proof.
  revert chosen. induction colours as [|c colours IH]; intros chosen; cbn.
  - exists []. by rewrite app_nil_r.
  - destruct (_ || _).
    + destruct (IH chosen) as (kept & -> & Hsub).
      exists kept. split; [done|]. by apply sublist_cons.
    + destruct (IH (chosen ++ [c])) as (kept & -> & Hsub).
      exists (c :: kept). rewrite <- app_assoc. split; [done|].
      by apply sublist_skip.
Qed.

Lemma similarity_loop_NoDup (colours chosen : list colour) :
  (t < 1)%Q -> NoDup chosen ->
  NoDup (similarity_loop t bt bg colours chosen).
Proof.
  intros Ht. revert chosen.
  induction colours as [|c colours IH]; intros chosen Hnd; cbn; [done|].
  destruct (_ || _) eqn:E; [by apply IH|].
  apply IH, NoDup_app. split_and!; [done| |apply NoDup_singleton].
  intros x Hx ->%list_elem_of_singleton.
  apply orb_false_iff in E as [E _].
  apply not_true_iff_false in E. apply E, andb_true_iff. split.
  - by destruct Hx.
  - apply existsb_exists. exists c. split; [by apply list_elem_of_In|].
    by apply get_similarity_gt_refl.
Qed.

(** At a threshold close enough to 1, distinct colours whose brightness
    differs from the background's are all kept. *)
Lemma similarity_loop_keeps_all (colours chosen : list colour) :
  ((1 - t) ^ 2 * inject_Z max_sq_distance <= 1)%Q ->
  (764 # 765 <= bt)%Q ->
  NoDup (chosen ++ colours) ->
  Forall (fun c => sum c <> sum bg) colours ->
  similarity_loop t bt bg colours chosen = chosen ++ colours.
Proof.
  intros Ht Hbt. revert chosen.
  induction colours as [|c colours IH]; intros chosen Hnd Hsum; cbn.
  - by rewrite app_nil_r.
  - apply Forall_cons in Hsum as [Hc Hsum].
    assert (E : existsb (fun choice => get_similarity_gt c choice t) chosen
                = false).
    { apply not_true_iff_false. intros (x & Hx & Hsim)%existsb_exists.
      rewrite get_similarity_gt_distinct in Hsim; [done| |done].
      intros <-. apply NoDup_app in Hnd as (_ & Hdis & _).
      apply (Hdis c); [by apply list_elem_of_In|left]. }
    rewrite E, andb_false_r, background_similarity_far by done. cbn.
    rewrite IH, <- app_assoc; [done| |done]. by rewrite <- app_assoc.
Qed.
End similarity_loop.

Lemma filter_by_similarity_sublist (colours : list colour) (t : Q) :
  filter_by_similarity colours t `sublist_of` colours.
Proof.
  destruct colours as [|bg colours]; cbn; [done|].
  destruct (similarity_loop_app t (Qmax (1 - (1 - t) * 2) t) bg colours [bg])
    as (kept & -> & Hsub).
  by apply sublist_skip.
Qed.

Lemma filter_by_similarity_head (colours : list colour) (t : Q) :
  head (filter_by_similarity colours t) = head colours.
Proof.
  destruct colours as [|bg colours]; cbn; [done|].
  by destruct (similarity_loop_app t (Qmax (1 - (1 - t) * 2) t) bg colours [bg])
    as (kept & -> & Hsub).
Qed.

Lemma filter_by_similarity_distinct (colours : list colour) (t : Q) :
  (t < 1)%Q -> NoDup (filter_by_similarity colours t).
Proof.
  intros Ht. destruct colours as [|bg colours]; cbn; [constructor|].
  apply similarity_loop_NoDup; [done|apply NoDup_singleton].
Qed.

Lemma filter_by_similarity_keeps_all (colours : list colour) (t : Q) :
  ((1 - t) ^ 2 * inject_Z max_sq_distance <= 1)%Q ->
  (764 # 765 <= t)%Q ->
  NoDup colours -> NoDup (sum <$> colours) ->
  filter_by_similarity colours t = colours.
Proof.
  intros Ht Hbt Hnd Hsum. destruct colours as [|bg colours]; cbn; [done|].
  rewrite similarity_loop_keeps_all; try done.
  - eapply Qle_trans; [exact Hbt|]. apply Q.le_max_r.
  - cbn in Hsum. apply NoDup_cons in Hsum as [Hbg _].
    apply Forall_forall. intros c Hc Heq. apply Hbg. rewrite <- Heq.
    by apply list_elem_of_fmap_2.
Qed.

Lemma imagen_filter_sublist (colours : list colour) (t : Q) :
  base16_imagen.filter_by_similarity colours t `sublist_of` colours.
Proof.
  destruct colours as [|bg colours]; [done|].
  unfold base16_imagen.filter_by_similarity.
  destruct (similarity_loop_app t (t ^ 4)%Q bg colours [bg])
    as (kept & -> & Hsub).
  by apply sublist_skip.
Qed.

Lemma imagen_filter_keeps_all (colours : list colour) (t : Q) :
  ((1 - t) ^ 2 * inject_Z max_sq_distance <= 1)%Q ->
  (764 # 765 <= t ^ 4)%Q ->
  NoDup colours -> NoDup (sum <$> colours) ->
  base16_imagen.filter_by_similarity colours t = colours.
Proof.
  intros Ht Hbt Hnd Hsum. destruct colours as [|bg colours]; [done|].
  unfold base16_imagen.filter_by_similarity.
  rewrite similarity_loop_keeps_all; try done.
  cbn in Hsum. apply NoDup_cons in Hsum as [Hbg _].
  apply Forall_forall. intros c Hc Heq. apply Hbg. rewrite <- Heq.
  by apply list_elem_of_fmap_2.
Qed.

(** *** The similarity test over the reals *)

Lemma sq_distance_nonneg (c1 c2 : colour) : 0 <= sq_distance c1 c2.
Proof.
  destruct c1 as [[r1 g1] b1], c2 as [[r2 g2] b2]. unfold sq_distance. nia.
Qed.

Lemma Q2R_inject_Z (z : Z) : Q2R (inject_Z z) = IZR z.
Proof. unfold Q2R, inject_Z. cbn. rewrite Rinv_1. ring. Qed.

(** The decided test is the source's comparison, read over the reals. *)
Lemma get_similarity_gt_real (c1 c2 : colour) (t : Q) :
  get_similarity_gt c1 c2 t = true
  <-> (get_similarity_real c1 c2 > Q2R t)%R.
Proof.
  unfold get_similarity_gt, get_similarity_real.
  rewrite andb_true_iff, !Qgtb_true.
  pose proof (sq_distance_nonneg c1 c2) as Hd%IZR_le.
  set (d := IZR (sq_distance c1 c2)) in *.
  assert (HD : (0 < IZR max_sq_distance)%R) by (apply IZR_lt; reflexivity).
  set (D := IZR max_sq_distance) in *.
  assert (HsD : (0 < sqrt D)%R) by (by apply sqrt_lt_R0).
  assert (Hsd : (0 <= sqrt d)%R) by apply sqrt_pos.
  assert (Hq1 : (0 < 1 - t)%Q <-> (0 < 1 - Q2R t)%R).
  { split; intros H.
    - apply Qlt_Rlt in H. rewrite Q2R_minus in H.
      change (Q2R 0) with (0 * / 1)%R in H. change (Q2R 1) with (1 * / 1)%R in H.
      lra.
    - apply Rlt_Qlt. rewrite Q2R_minus.
      change (Q2R 0) with (0 * / 1)%R. change (Q2R 1) with (1 * / 1)%R. lra. }
  assert (Hq2 : (inject_Z (sq_distance c1 c2)
                 < (1 - t) ^ 2 * inject_Z max_sq_distance)%Q
                <-> (d < (1 - Q2R t) * (1 - Q2R t) * D)%R).
  { assert (E : Q2R ((1 - t) ^ 2 * inject_Z max_sq_distance)
                = ((1 - Q2R t) * (1 - Q2R t) * D)%R).
    { assert ((1 - t) ^ 2 == (1 - t) * (1 - t))%Q as -> by (simpl; ring).
      rewrite !Q2R_mult, !Q2R_minus, Q2R_inject_Z.
      change (Q2R 1) with (1 * / 1)%R. unfold D. field. }
    split; intros H.
    - apply Qlt_Rlt in H. by rewrite E, Q2R_inject_Z in H.
    - apply Rlt_Qlt. by rewrite E, Q2R_inject_Z. }
  rewrite Hq1, Hq2. clear Hq1 Hq2.
  set (u := (1 - Q2R t)%R).
  split.
  - intros [Hu Hlt].
    assert (sqrt d < u * sqrt D)%R.
    { rewrite <- (sqrt_square u) by lra. rewrite <- sqrt_mult by nra.
      apply sqrt_lt_1; nra. }
    assert (sqrt d / sqrt D < u)%R.
    { apply Rmult_lt_reg_r with (sqrt D); [done|].
      unfold Rdiv. rewrite Rmult_assoc, Rinv_l by lra. lra. }
    unfold u in *. lra.
  - intros Hgt.
    assert (Hdiv : (sqrt d / sqrt D < u)%R) by (unfold u; lra).
    assert (0 <= sqrt d / sqrt D)%R.
    { apply Rmult_le_pos; [done|]. left. by apply Rinv_0_lt_compat. }
    assert (Hu : (0 < u)%R) by lra. split; [done|].
    assert (Hlt : (sqrt d < u * sqrt D)%R).
    { apply Rmult_lt_compat_r with (r := sqrt D) in Hdiv; [|done].
      unfold Rdiv in Hdiv. rewrite Rmult_assoc, Rinv_l in Hdiv by lra. lra. }
    rewrite <- (sqrt_sqrt d) by done.
    rewrite <- (sqrt_sqrt D) by lra.
    assert (0 < u * sqrt D)%R by nra. nra.
Qed.

(** *** Binary64 rounding *)

Lemma Qpower_2_Z (n : Z) : 0 <= n -> (2 ^ n == inject_Z (2 ^ n))%Q.
Proof.
  intros Hn. change 2%Q with (inject_Z 2). by rewrite Zpower_Qpower.
Qed.

(** A power of two with an exponent of either sign, as a fraction. *)
Lemma Qpower_2_fraction (a b : Z) :
  0 <= a -> 0 <= b -> (2 ^ (a - b) == 2 ^ a # Z.to_pos (2 ^ b))%Q.
Proof.
  intros Ha Hb. rewrite Qpower_minus by done. rewrite !Qpower_2_Z by done.
  rewrite (Qmake_Qdiv (2 ^ a)). rewrite Z2Pos.id; [reflexivity|].
  by apply Z.pow_pos_nonneg.
Qed.

Lemma exponent_spec (q : Q) :
  (0 < q)%Q -> (2 ^ exponent q <= q)%Q /\ (q < 2 ^ (exponent q + 1))%Q.
Proof.
  intros Hq. unfold exponent.
  destruct q as [n d]. cbn [Qnum Qden].
  assert (Hn : 0 < n) by (unfold Qlt in Hq; cbn in Hq; lia).
  destruct (Z.log2_spec n Hn) as [Hn1 Hn2].
  destruct (Z.log2_spec (Z.pos d) ltac:(lia)) as [Hd1 Hd2].
  pose proof (Z.log2_nonneg n) as Hln.
  pose proof (Z.log2_nonneg (Z.pos d)) as Hld.
  set (ln := Z.log2 n) in *. set (ld := Z.log2 (Z.pos d)) in *.
  assert (Hp : forall z, 0 <= z -> Z.pos (Z.to_pos (2 ^ z)) = 2 ^ z).
  { intros z Hz. apply Z2Pos.id. by apply Z.pow_pos_nonneg. }
  destruct (Qle_bool (2 ^ (ln - ld)) (n # d)) eqn:E.
  - apply Qle_bool_iff in E. split; [done|].
    replace (ln - ld + 1) with (ln + 1 - ld) by lia.
    rewrite Qpower_2_fraction by lia. unfold Qlt. cbn [Qnum Qden].
    rewrite Hp by lia. nia.
  - assert (Hlt : (n # d < 2 ^ (ln - ld))%Q).
    { apply Qnot_le_lt. intros H. apply Qle_bool_iff in H. congruence. }
    split; [|by replace (ln - ld - 1 + 1) with (ln - ld) by lia].
    replace (ln - ld - 1) with (ln - (ld + 1)) by lia.
    rewrite Qpower_2_fraction by lia. unfold Qle. cbn [Qnum Qden].
    rewrite Hp by lia. nia.
Qed.

Lemma round_half_even_Z (q : Q) (n : Z) :
  (q == inject_Z n)%Q -> round_half_even q = n.
Proof.
  intros E. unfold round_half_even.
  assert (Hf : Qfloor q = n) by (rewrite E; apply Qfloor_Z).
  rewrite Hf. assert (Hc : (q - inject_Z n ?= 1 # 2)%Q = Lt).
  { rewrite E. apply (proj1 (Qlt_alt _ _)).
    unfold Qlt, Qminus, Qplus, Qopp, inject_Z. cbn [Qnum Qden]. lia. }
  by rewrite Hc.
Qed.

(** A dyadic number with at most 53 significant bits, not below the
    normal range, is a binary64 number. *)
Lemma binary64_dyadic (j k : Z) :
  0 < j < 2 ^ 53 -> 0 <= k <= 1022 ->
  (binary64 (j # Z.to_pos (2 ^ k)) == j # Z.to_pos (2 ^ k))%Q.
Proof.
  intros Hj Hk. set (q := (j # Z.to_pos (2 ^ k))%Q).
  assert (HP : Z.pos (Z.to_pos (2 ^ k)) = 2 ^ k).
  { apply Z2Pos.id. apply Z.pow_pos_nonneg; lia. }
  assert (Hq : (0 < q)%Q) by (unfold Qlt; cbn; lia).
  unfold binary64.
  assert (Qeq_bool q 0 = false) as ->.
  { apply not_true_iff_false. intros H%Qeq_bool_iff. rewrite H in Hq.
    by apply Qlt_irrefl in Hq. }
  assert (Qabs q = q) as -> by (unfold q, Qabs; by rewrite Z.abs_eq by lia).
  destruct (exponent_spec q Hq) as [Hlo Hhi].
  set (e := exponent q) in *.
  assert (He1 : e <= 52 - k).
  { assert (Hlt : (2 ^ e < 2 ^ (53 - k))%Q).
    { eapply Qle_lt_trans; [exact Hlo|].
      rewrite Qpower_2_fraction by lia. unfold q, Qlt. cbn [Qnum Qden].
      rewrite !HP. nia. }
    apply Qpower_lt_compat_l_inv in Hlt; [lia|reflexivity]. }
  assert (He2 : - k <= e).
  { assert (Hlt : (2 ^ (0 - k) < 2 ^ (e + 1))%Q).
    { eapply Qle_lt_trans; [|exact Hhi].
      rewrite Qpower_2_fraction by lia. unfold q, Qle. cbn [Qnum Qden].
      rewrite !HP. nia. }
    apply Qpower_lt_compat_l_inv in Hlt; [lia|reflexivity]. }
  rewrite Z.max_l by lia.
  assert (Hulp : (2 ^ (e - 52) == 1 # Z.to_pos (2 ^ (52 - e)))%Q).
  { replace (e - 52) with (0 - (52 - e)) by lia.
    by rewrite Qpower_2_fraction by lia. }
  assert (HP' : Z.pos (Z.to_pos (2 ^ (52 - e))) = 2 ^ (52 - e)).
  { apply Z2Pos.id. apply Z.pow_pos_nonneg; lia. }
  assert (Hsplit : 2 ^ (52 - e) = 2 ^ (52 - e - k) * 2 ^ k).
  { rewrite <- Z.pow_add_r by lia. f_equal. lia. }
  rewrite (round_half_even_Z _ (j * 2 ^ (52 - e - k))).
  - rewrite Hulp. unfold q, Qeq. cbn [Qnum Qden Qmult inject_Z].
    rewrite Pos2Z.inj_mul, HP, HP', Hsplit. ring.
  - rewrite Hulp. unfold q, Qeq, Qdiv. cbn [Qnum Qden Qmult Qinv inject_Z].
    rewrite HP'. cbn [Qnum Qden]. rewrite Pos2Z.inj_mul, HP, Hsplit.
    cbn. ring.
Qed.

Lemma gcd_odd_pow2 (j : Z) (k : nat) :
  Z.odd j = true -> Z.gcd j (2 ^ Z.of_nat k) = 1.
Proof.
  intros Hj. induction k as [|k IH]; [apply Z.gcd_1_r|].
  rewrite Nat2Z.inj_succ, Z.pow_succ_r by lia.
  apply Z.bezout_1_gcd.
  apply Z.gcd_bezout in IH as (u & v & E).
  apply Zodd_bool_iff, Zodd_ex_iff in Hj as [q ->].
  set (m := 2 ^ Z.of_nat k) in *. clearbody m.
  exists (u * (2 * q + 1) - 2 * q * u + v * m), (- (q * v)).
  transitivity ((u * (2 * q + 1) + v * m) * 1); [ring|].
  rewrite E. reflexivity.
Qed.

Lemma exponent_unique (q : Q) (e : Z) :
  (2 ^ e <= q)%Q -> (q < 2 ^ (e + 1))%Q -> exponent q = e.
Proof.
  intros Hlo Hhi.
  assert (Hq : (0 < q)%Q).
  { eapply Qlt_le_trans; [|exact Hlo]. by apply Qpower_0_lt. }
  destruct (exponent_spec q Hq) as [Hlo' Hhi'].
  assert (H1 : (2 ^ e < 2 ^ (exponent q + 1))%Q)
    by (eapply Qle_lt_trans; done).
  assert (H2 : (2 ^ exponent q < 2 ^ (e + 1))%Q)
    by (eapply Qle_lt_trans; done).
  apply Qpower_lt_compat_l_inv in H1; [|reflexivity].
  apply Qpower_lt_compat_l_inv in H2; [|reflexivity]. lia.
Qed.

Lemma exponent_comp (q q' : Q) :
  (q == q')%Q -> (0 < q)%Q -> exponent q = exponent q'.
Proof.
  intros E Hq. symmetry. apply exponent_unique; rewrite <- E.
  all: by apply exponent_spec.
Qed.

Lemma round_half_even_comp (q q' : Q) :
  (q == q')%Q -> round_half_even q = round_half_even q'.
Proof.
  intros E. unfold round_half_even.
  assert (Qfloor q = Qfloor q') as -> by (by rewrite E).
  assert ((q - inject_Z (Qfloor q') ?= 1 # 2)%Q
          = (q' - inject_Z (Qfloor q') ?= 1 # 2)%Q) as ->; [|done].
  by rewrite E.
Qed.

#[global] Instance binary64_comp : Proper (Qeq ==> Qeq) binary64.
Proof.
  intros q q' E. unfold binary64.
  destruct (Qeq_bool q 0) eqn:E0.
  - apply Qeq_bool_iff in E0. rewrite E in E0. apply Qeq_bool_iff in E0.
    by rewrite E0.
  - assert (Qeq_bool q' 0 = false) as ->.
    { apply not_true_iff_false. intros H%Qeq_bool_iff.
      rewrite <- E in H. apply Qeq_bool_iff in H. congruence. }
    assert (Hq : ~ (q == 0)%Q).
    { intros H%Qeq_bool_iff. congruence. }
    assert (Ha : (0 < Qabs q)%Q).
    { destruct q as [n d]. unfold Qeq in Hq. unfold Qabs, Qlt.
      cbn [Qnum Qden] in *. lia. }
    rewrite (exponent_comp (Qabs q) (Qabs q'))
      by first [exact Ha|by rewrite E].
    set (ulp := (2 ^ _)%Q).
    rewrite (round_half_even_comp (q / ulp) (q' / ulp)) by (by rewrite E).
    reflexivity.
Qed.

(** Rounding to the nearest integer moves a number by at most a half. *)
Lemma round_half_even_err (x : Q) :
  (Qabs (inject_Z (round_half_even x) - x) <= 1 # 2)%Q.
Proof.
  unfold round_half_even.
  pose proof (Qfloor_le x) as Hlo. pose proof (Qlt_floor x) as Hhi.
  set (f := Qfloor x) in *.
  rewrite inject_Z_plus in Hhi. change (inject_Z 1) with 1%Q in Hhi.
  apply Qabs_Qle_condition.
  destruct (Qcompare_spec (x - inject_Z f) (1 # 2)) as [E|E|E].
  - destruct (Z.even f); [|rewrite inject_Z_plus; change (inject_Z 1) with 1%Q];
      split; lra.
  - split; lra.
  - rewrite inject_Z_plus; change (inject_Z 1) with 1%Q. split; lra.
Qed.

(** A number below [2 ^ (k + 1)] in absolute value is rounded with an
    error of at most [2 ^ (k - 53)], half a unit in the last place. *)
Lemma binary64_err (q : Q) (k : Z) :
  -1022 <= k -> (Qabs q < 2 ^ (k + 1))%Q ->
  (Qabs (binary64 q - q) <= 2 ^ (k - 53))%Q.
Proof.
  intros Hk Hq. unfold binary64.
  destruct (Qeq_bool q 0) eqn:E0.
  { apply Qeq_bool_eq in E0.
    assert (E : (0 - q == 0)%Q) by (rewrite E0; reflexivity).
    rewrite E. apply Qpower_0_le. discriminate. }
  apply Qeq_bool_neq in E0.
  assert (Hpos : (0 < Qabs q)%Q).
  { destruct (Qlt_le_dec 0 (Qabs q)) as [|Hle]; [done|].
    exfalso. apply E0. apply Qabs_Qle_condition in Hle. lra. }
  destruct (exponent_spec _ Hpos) as [He _].
  set (e := exponent (Qabs q)) in *.
  assert (Hek : e <= k).
  { assert (H : (2 ^ e < 2 ^ (k + 1))%Q) by (eapply Qle_lt_trans; eauto).
    apply Qpower_lt_compat_l_inv in H; [lia|reflexivity]. }
  set (M := Z.max e (-1022)).
  assert (HM : M <= k) by lia.
  set (ulp := (2 ^ (M - 52))%Q).
  assert (Hulp : (0 < ulp)%Q) by (apply Qpower_0_lt; reflexivity).
  assert (Hulpk : (ulp <= 2 ^ (k - 52))%Q).
  { apply Qpower_le_compat_l; [lia|discriminate]. }
  assert (Hhalf : (2 ^ (k - 53) == 2 ^ (k - 52) * (1 # 2))%Q).
  { replace (k - 53) with ((k - 52) + (-1)) by lia.
    rewrite Qpower_plus by discriminate. reflexivity. }
  pose proof (round_half_even_err (q / ulp)) as Hr.
  set (m := inject_Z (round_half_even (q / ulp))) in *.
  assert (E : (m * ulp - q == (m - q / ulp) * ulp)%Q).
  { field. lra. }
  rewrite E, Qabs_Qmult, (Qabs_pos ulp) by lra. rewrite Hhalf.
  set (a := Qabs (m - q / ulp)) in *.
  assert (0 <= a)%Q by apply Qabs_nonneg.
  nra.
Qed.

(** The midpoint of a dyadic interval of width [2 ^ -k], for [k] up to
    52, is exact, and in lowest terms. *)
Lemma midpoint_dyadic (left right : Q) (a : Z) (k : nat) (P : positive) :
  Z.pos P = 2 ^ Z.of_nat k -> (k <= 52)%nat -> 0 <= a < 2 ^ Z.of_nat k ->
  (left == a # P)%Q -> (right == (a + 1) # P)%Q ->
  midpoint left right = (2 * a + 1 # P~0)%Q.
Proof.
  intros HP Hk Ha Hl Hr. unfold midpoint.
  assert (P = Z.to_pos (2 ^ Z.of_nat k)) as EP
    by (rewrite <- HP; symmetry; apply Pos2Z.id).
  assert (Hpow : 2 ^ Z.of_nat k <= 2 ^ 52)
    by (apply Z.pow_le_mono_r; lia).
  assert (Hpow' : 2 ^ 53 = 2 * 2 ^ 52) by reflexivity.
  assert (E1 : (binary64 (left + right) == 2 * a + 1 # P)%Q).
  { assert ((left + right == 2 * a + 1 # P)%Q) as ->.
    { rewrite Hl, Hr. unfold Qeq. cbn. nia. }
    rewrite EP. apply binary64_dyadic; lia. }
  assert (E2 : (binary64 (binary64 (left + right) / 2)
                == 2 * a + 1 # P~0)%Q).
  { assert ((binary64 (left + right) / 2 == 2 * a + 1 # P~0)%Q) as ->.
    { rewrite E1. unfold Qeq. cbn. nia. }
    assert ((P~0)%positive = Z.to_pos (2 ^ (Z.of_nat k + 1))) as ->.
    { rewrite Z.pow_add_r, Z.pow_1_r, <- HP by lia.
      apply Pos2Z.inj. rewrite Z2Pos.id by lia. lia. }
    apply binary64_dyadic; lia. }
  apply Qred_complete in E2. rewrite E2. apply Qcanon.Qred_identity.
  cbn [Qnum Qden]. change (Z.pos P~0) with (2 * Z.pos P).
  rewrite HP, <- Z.pow_succ_r by lia.
  rewrite <- Nat2Z.inj_succ. apply gcd_odd_pow2.
  rewrite Z.add_comm, Z.odd_add_mul_2. done.
Qed.

(** *** The similarity pass on floats *)

(** An identical colour has similarity exactly 1 on floats as well. *)
Lemma get_similarity_binary64_refl (c : colour) :
  (get_similarity_binary64 c c == 1)%Q.
Proof.
  unfold get_similarity_binary64. rewrite sq_distance_refl.
  vm_compute. reflexivity.
Qed.

Section similarity_loop_binary64.
Context (t bt : Q) (bg : colour).

Lemma similarity_loop_binary64_app (colours chosen : list colour) :
  exists kept,
    similarity_loop_binary64 t bt bg colours chosen = chosen ++ kept
    /\ kept `sublist_of` colours.
Proof.
  revert chosen. induction colours as [|c colours IH]; intros chosen; cbn.
  - exists []. by rewrite app_nil_r.
  - destruct (_ || _).
    + destruct (IH chosen) as (kept & -> & Hsub).
      exists kept. split; [done|]. by apply sublist_cons.
    + destruct (IH (chosen ++ [c])) as (kept & -> & Hsub).
      exists (c :: kept). rewrite <- app_assoc. split; [done|].
      by apply sublist_skip.
Qed.

Lemma similarity_loop_binary64_NoDup (colours chosen : list colour) :
  (t < 1)%Q -> NoDup chosen ->
  NoDup (similarity_loop_binary64 t bt bg colours chosen).
Proof.
  intros Ht. revert chosen.
  induction colours as [|c colours IH]; intros chosen Hnd; cbn; [done|].
  destruct (_ || _) eqn:E; [by apply IH|].
  apply IH, NoDup_app. split_and!; [done| |apply NoDup_singleton].
  intros x Hx ->%list_elem_of_singleton.
  apply orb_false_iff in E as [E _].
  apply not_true_iff_false in E. apply E, andb_true_iff. split.
  - by destruct Hx.
  - apply existsb_exists. exists c. split; [by apply list_elem_of_In|].
    apply Qgtb_true. by rewrite get_similarity_binary64_refl.
Qed.
End similarity_loop_binary64.

Lemma filter_by_similarity_binary64_distinct (colours : list colour)
    (t bt : Q) :
  (t < 1)%Q -> NoDup (filter_by_similarity_binary64_with colours t bt).
Proof.
  intros Ht. destruct colours as [|bg colours]; cbn; [constructor|].
  apply similarity_loop_binary64_NoDup; [done|apply NoDup_singleton].
Qed.

(** *** The threshold search *)

Section search.
Context (pass : Q -> list colour).

Lemma rounds_nonempty retries left right :
  rounds pass (S retries) left right <> [].
Proof. done. Qed.

Lemma rounds_length retries left right :
  (length (rounds pass retries left right) <= retries)%nat.
Proof.
  revert left right. induction retries as [|k IH]; intros left right;
    [done|].
  cbn [rounds length]. apply le_n_S.
  repeat case_match; try apply IH. cbn. lia.
Qed.

(** The search returns what the last round of the trace decides. *)
Lemma search_last retries left right cand :
  threshold_search pass retries left right cand
  = match last (rounds pass retries left right) with
    | None => Exhausted cand
    | Some (m, c) =>
        if (length c =? 16)%nat then Found c else Exhausted (Some c)
    end.
Proof.
  revert left right cand.
  induction retries as [|k IH]; intros left right cand; [done|].
  cbn [threshold_search rounds].
  set (m := midpoint left right).
  destruct (length (pass m) <? 16)%nat eqn:E1;
    [|destruct (16 <? length (pass m))%nat eqn:E2].
  - rewrite IH, last_cons. destruct (last _) as [[m' c']|]; [done|].
    apply Nat.ltb_lt in E1.
    by replace (length (pass m) =? 16)%nat with false
      by (symmetry; apply Nat.eqb_neq; lia).
  - rewrite IH, last_cons. destruct (last _) as [[m' c']|]; [done|].
    apply Nat.ltb_lt in E2.
    by replace (length (pass m) =? 16)%nat with false
      by (symmetry; apply Nat.eqb_neq; lia).
  - apply Nat.ltb_ge in E1, E2. cbn.
    by replace (length (pass m) =? 16)%nat with true
      by (symmetry; apply Nat.eqb_eq; lia).
Qed.

(** The recorded candidates are the pass at the recorded threshold. *)
Lemma rounds_pass retries left right :
  Forall (fun r => r.2 = pass r.1) (rounds pass retries left right).
Proof.
  revert left right. induction retries as [|k IH]; intros left right;
    [constructor|].
  cbn [rounds]. constructor; [done|].
  repeat case_match; [apply IH|apply IH|constructor].
Qed.

(** As long as the interval is not narrower than [2 ^ -52] when it is
    halved, the thresholds are the exact midpoints: the threshold of
    round [i] (counted from 0) of a search that starts on a dyadic
    interval of width [2 ^ -k] is an odd numerator over
    [2 ^ (k + i + 1)]. *)
Lemma rounds_dyadic (retries : nat) :
  forall (left right : Q) (a : Z) (k : nat) (P : positive),
  Z.pos P = 2 ^ Z.of_nat k -> (k + retries <= 53)%nat ->
  0 <= a < 2 ^ Z.of_nat k ->
  (left == a # P)%Q -> (right == (a + 1) # P)%Q ->
  forall (i : nat) (m : Q) (c : list colour),
  rounds pass retries left right !! i = Some (m, c) ->
  Z.odd (Qnum m) = true
  /\ Z.pos (Qden m) = 2 ^ Z.of_nat (k + i + 1)
  /\ 0 < Qnum m < 2 ^ Z.of_nat (k + i + 1).
Proof.
  induction retries as [|retries IH];
    intros left right a k P HP Hk Ha Hl Hr i m c; [done|].
  cbn [rounds].
  rewrite (midpoint_dyadic left right a k P HP ltac:(lia) Ha Hl Hr).
  assert (HP' : Z.pos P~0 = 2 ^ Z.of_nat (S k)).
  { change (Z.pos P~0) with (2 * Z.pos P).
    by rewrite HP, Nat2Z.inj_succ, Z.pow_succ_r by lia. }
  assert (Hpow : 2 ^ Z.of_nat (S k) = 2 * 2 ^ Z.of_nat k).
  { by rewrite Nat2Z.inj_succ, Z.pow_succ_r by lia. }
  destruct i as [|i].
  - intros [= <- <-]. cbn [Qnum Qden].
    replace (k + 0 + 1)%nat with (S k) by lia. rewrite HP'.
    split_and!; [|done|lia|lia].
    rewrite Z.add_comm, Z.odd_add_mul_2. done.
  - cbn [lookup list_lookup].
    replace (k + S i + 1)%nat with (S k + i + 1)%nat by lia.
    destruct (_ <? 16)%nat; [|destruct (16 <? _)%nat; [|done]].
    + apply (IH _ _ (2 * a + 1) (S k) (P~0)%positive);
        [exact HP'|lia|lia|reflexivity|].
      rewrite Hr. unfold Qeq. cbn. lia.
    + apply (IH _ _ (2 * a) (S k) (P~0)%positive);
        [exact HP'|lia|lia| |reflexivity].
      rewrite Hl. unfold Qeq. cbn. lia.
Qed.

Lemma rounds_probe_dyadic (retries i : nat) (m : Q) (c : list colour) :
  (retries <= 53)%nat ->
  rounds pass retries 0 1 !! i = Some (m, c) ->
  Z.odd (Qnum m) = true
  /\ Z.pos (Qden m) = 2 ^ (Z.of_nat i + 1)
  /\ 0 < Qnum m < 2 ^ (Z.of_nat i + 1).
Proof.
  intros Hr Hm.
  replace (Z.of_nat i + 1) with (Z.of_nat (0 + i + 1)) by lia.
  by apply (rounds_dyadic retries 0 1 0 0%nat 1%positive
              eq_refl ltac:(lia) ltac:(lia) ltac:(reflexivity)
              ltac:(reflexivity) i m c).
Qed.

(** Through round 53 every probed threshold lies strictly between 0
    and 1. *)
Lemma rounds_probed (retries : nat) :
  (retries <= 53)%nat ->
  Forall (fun r => (0 < r.1 < 1)%Q /\ r.2 = pass r.1)
    (rounds pass retries 0 1).
Proof.
  intros Hr. apply Forall_lookup. intros i [m c] Hi. cbn [fst snd].
  split.
  - apply (rounds_probe_dyadic retries i m c Hr) in Hi as (_ & Hden & Hnum).
    destruct m as [n d]. cbn [Qnum Qden] in *. unfold Qlt.
    cbn [Qnum Qden]. lia.
  - pose proof (rounds_pass retries 0 1) as Hall.
    rewrite Forall_lookup in Hall. apply (Hall i (m, c) Hi).
Qed.

(** While every pass stays below 16 colours the search only moves its
    left bound, and the last round probes [probe]. *)
Lemma rounds_short retries left right :
  (forall t, (length (pass t) < 16)%nat) ->
  last (rounds pass (S retries) left right)
  = Some (probe (S retries) left right,
          pass (probe (S retries) left right)).
Proof.
  intros Hshort. revert left.
  induction retries as [|k IH]; intros left.
  - cbn [rounds]. unfold probe. cbn [Nat.iter].
    pose proof (Hshort (midpoint left right)) as H%Nat.ltb_lt.
    by rewrite H.
  - change (rounds pass (S (S k)) left right) with
      ((midpoint left right, pass (midpoint left right)) ::
         (if (length (pass (midpoint left right)) <? 16)%nat
          then rounds pass (S k) (midpoint left right) right
          else if (16 <? length (pass (midpoint left right)))%nat
          then rounds pass (S k) left (midpoint left right)
          else [])).
    pose proof (Hshort (midpoint left right)) as H%Nat.ltb_lt.
    rewrite H, last_cons, IH. unfold probe.
    by rewrite (Nat.iter_succ_r (S k)).
Qed.
End search.

(** [filter_palette] in terms of the last round of its search. *)
Lemma filter_palette_last (dark : bool) (colours : list colour)
    (retries : nat) :
  filter_palette dark colours retries
  = match last (rounds (filter_by_similarity (sorted (tone_key dark) colours))
                  retries 0 1) with
    | None => Raise (UnboundLocalError "n")
    | Some (m, c) =>
        if (length c =? 16)%nat then Ok (c, [])
        else if (length c <? 8)%nat
        then Raise (ValueError
                      ("can only find " +:+ pretty (length c)
                         +:+ " (< 8) distinct colours"))
        else Ok (c, ["only found distinct " +:+ pretty (length c)
                       +:+ " colours"])
    end.
Proof.
  unfold filter_palette. rewrite search_last.
  destruct (last _) as [[m c]|]; [|done]. by destruct (length c =? 16)%nat.
Qed.

Lemma imagen_filter_palette_last (dark : bool) (colours : list colour)
    (retries : nat) :
  base16_imagen.filter_palette dark colours retries
  = match last (rounds (base16_imagen.filter_by_similarity
                          (sorted (tone_key dark) colours)) retries 0 1) with
    | None => Raise (UnboundLocalError "n")
    | Some (m, c) =>
        if (length c =? 16)%nat then Ok (c, [])
        else if (length c <? 8)%nat
        then Raise (ValueError
                      ("can only find " +:+ pretty (length c)
                         +:+ " (< 8) distinct colours"))
        else Ok (c, if (length c <? 16)%nat
                    then ["only found distinct " +:+ pretty (length c)
                            +:+ " colours"]
                    else [])
    end.
Proof.
  unfold base16_imagen.filter_palette. rewrite search_last.
  destruct (last _) as [[m c]|]; [|done]. by destruct (length c =? 16)%nat.
Qed.

(** What holds of the last round of [filter_palette]'s search, however
    many rounds there are. *)
Lemma last_round_pass (dark : bool) (colours : list colour) (retries : nat)
    (m : Q) (c : list colour) :
  last (rounds (filter_by_similarity (sorted (tone_key dark) colours))
          retries 0 1) = Some (m, c) ->
  c = filter_by_similarity (sorted (tone_key dark) colours) m
  /\ c `sublist_of` sorted (tone_key dark) colours
  /\ head c = head (sorted (tone_key dark) colours).
Proof.
  intros Hlast.
  pose proof (rounds_pass (filter_by_similarity (sorted (tone_key dark) colours))
                retries 0 1) as Hall.
  rewrite Forall_forall in Hall.
  apply last_Some_elem_of, Hall in Hlast. cbn in Hlast. subst c.
  split_and!; [done| |].
  - apply filter_by_similarity_sublist.
  - apply filter_by_similarity_head.
Qed.

(** Through round 53 the last threshold is below 1 and the candidates
    are duplicate-free. *)
Lemma last_round_distinct (dark : bool) (colours : list colour)
    (retries : nat) (m : Q) (c : list colour) :
  (retries <= 53)%nat ->
  last (rounds (filter_by_similarity (sorted (tone_key dark) colours))
          retries 0 1) = Some (m, c) ->
  (0 < m < 1)%Q /\ NoDup c.
Proof.
  intros Hr Hlast.
  pose proof (rounds_probed (filter_by_similarity (sorted (tone_key dark) colours))
                retries Hr) as Hall.
  rewrite Forall_forall in Hall.
  apply last_Some_elem_of, Hall in Hlast as [Hm Hc].
  cbn in Hm, Hc. subst c. split; [done|].
  apply filter_by_similarity_distinct; tauto.
Qed.

(** *** Inputs on which the filter departs from a fixed count *)

(** Sixteen pairwise-distinct candidates, fifteen colours returned. *)
Lemma filter_palette_fifteen_of_sixteen :
  NoDup twin_darkest /\ length twin_darkest = 16%nat
  /\ exists res log,
       filter_palette true twin_darkest 50 = Ok (res, log)
       /\ length res = 15%nat.
Proof.
  split; [by apply (bool_decide_unpack _); vm_compute|].
  split; [reflexivity|].
  eexists _, _. split; [vm_compute; reflexivity|reflexivity].
Qed.

(** The search runs out on round 50 with all 18 colours and returns them,
    although earlier rounds produced 15 colours, closer to 16. *)
Lemma filter_palette_returns_last_not_best :
  filter_palette true equidistant_cluster 50
  = Ok (sorted (tone_key true) equidistant_cluster,
        ["only found distinct 18 colours"])
  /\ exists m c,
       (m, c) ∈ rounds (filter_by_similarity
                          (sorted (tone_key true) equidistant_cluster)) 50 0 1
       /\ length c = 15%nat
       /\ miss c < miss (sorted (tone_key true) equidistant_cluster).
Proof.
  split; [vm_compute; reflexivity|].
  assert (H : existsb (fun r => (length r.2 =? 15)%nat)
                (rounds (filter_by_similarity
                           (sorted (tone_key true) equidistant_cluster))
                   50 0 1) = true) by (vm_compute; reflexivity).
  apply existsb_exists in H as ([m c] & Hin & Hlen).
  exists m, c. apply Nat.eqb_eq in Hlen. cbn in Hlen.
  split; [by apply list_elem_of_In|]. split; [done|].
  unfold miss. rewrite Hlen, sorted_length. cbn. lia.
Qed.

(** Eighteen pairwise-distinct candidates: a round keeps all 18, the last
    round keeps 6, and the error is raised. *)
Lemma filter_palette_raises_after_full_round :
  NoDup iso_bright_cluster /\ length iso_bright_cluster = 18%nat
  /\ filter_palette true iso_bright_cluster 50
     = Raise (ValueError "can only find 6 (< 8) distinct colours")
  /\ exists m c,
       (m, c) ∈ rounds (filter_by_similarity
                          (sorted (tone_key true) iso_bright_cluster)) 50 0 1
       /\ length c = 18%nat.
Proof.
  split; [by apply (bool_decide_unpack _); vm_compute|].
  split; [reflexivity|].
  split; [vm_compute; reflexivity|].
  assert (H : existsb (fun r => (length r.2 =? 18)%nat)
                (rounds (filter_by_similarity
                           (sorted (tone_key true) iso_bright_cluster))
                   50 0 1) = true) by (vm_compute; reflexivity).
  apply existsb_exists in H as ([m c] & Hin & Hlen).
  exists m, c. apply Nat.eqb_eq in Hlen. by split; [apply list_elem_of_In|].
Qed.

(** The empty candidate list makes [filter_palette] raise. *)
Lemma filter_palette_empty_raises :
  filter_palette true [] 50
  = Raise (ValueError "can only find 0 (< 8) distinct colours").
Proof. vm_compute. reflexivity. Qed.

(** With 54 rounds the search reaches the threshold 1: the midpoint of
    [1 - 2 ^ -53] and 1 rounds to 1.  At that threshold nothing is
    discarded, with exact comparisons or on floats, and eight identical
    blacks come back from the round and from [filter_palette]. *)
Lemma filter_palette_round_54_keeps_duplicates :
  last (rounds (filter_by_similarity (sorted (tone_key true) eight_black))
          54 0 1) = Some (1%Q, eight_black)
  /\ filter_by_similarity eight_black 1 = eight_black
  /\ filter_by_similarity_binary64 eight_black 1 = eight_black
  /\ filter_palette true eight_black 54
     = Ok (eight_black, ["only found distinct 8 colours"])
  /\ ~ NoDup eight_black.
Proof.
  split; [vm_compute; reflexivity|]. split; [reflexivity|].
  split; [vm_compute; reflexivity|]. split; [vm_compute; reflexivity|].
  intros Hnd. apply NoDup_cons in Hnd as [Hin _]. apply Hin. left.
Qed.

(** *** The palette filter *)

(** C8, amended.  Below threshold 1 the similarity pass returns no
    colour twice, with the exact comparisons and with the rounded ones
    of the code alike.  Through round 53 every threshold [filter_palette]
    probes is below 1, so the candidates of every round are
    duplicate-free when [max_retries] is at most 53 (the default is 50);
    round 54 probes 1. *)
Theorem filter_by_similarity_duplicate_free (colours : list colour) (t : Q)
    (dark : bool) (retries : nat) :
  (t < 1)%Q ->
  NoDup (filter_by_similarity colours t)
  /\ NoDup (filter_by_similarity_binary64 colours t)
  /\ ((retries <= 53)%nat ->
      Forall (fun r => (r.1 < 1)%Q
                       /\ r.2 = filter_by_similarity
                                  (sorted (tone_key dark) colours) r.1
                       /\ NoDup r.2)
        (rounds (filter_by_similarity (sorted (tone_key dark) colours))
           retries 0 1)).
Proof.
  intros Ht. split; [by apply filter_by_similarity_distinct|].
  split; [by apply filter_by_similarity_binary64_distinct|]. intros Hr.
  eapply Forall_impl; [by apply rounds_probed|].
  intros [m c] [[_ Hm] Hc]. cbn in *. subst c.
  split_and!; [done..|]. by apply filter_by_similarity_distinct.
Qed.

Lemma filter_by_similarity_duplicate_free_witness :
  (1 # 2 < 1)%Q
  /\ NoDup (filter_by_similarity [(0, 0, 0); (0, 0, 0); (200, 9, 9)] (1 # 2)).
Proof.
  split; [reflexivity|].
  apply (filter_by_similarity_duplicate_free
           [(0, 0, 0); (0, 0, 0); (200, 9, 9)] (1 # 2) true 50).
  reflexivity.
Defined.

(** C2, amended.  Whenever [filter_palette] returns a palette, its colours
    are elements of the input, the anchor (the first colour of the tone
    sort) is its first element, it has at least 8 colours, and it has
    exactly 16 exactly when no warning is logged.  The returned colours
    are pairwise distinct when the input colours are, and for any input
    when [max_retries] is at most 53 (the default is 50). *)
Theorem filter_palette_result (dark : bool) (colours : list colour)
    (retries : nat) (res : list colour) (log : list string) :
  filter_palette dark colours retries = Ok (res, log) ->
  (forall c, c ∈ res -> c ∈ colours)
  /\ head res = head (sorted (tone_key dark) colours)
  /\ (8 <= length res)%nat
  /\ (log = [] <-> length res = 16%nat)
  /\ (NoDup colours -> NoDup res)
  /\ ((retries <= 53)%nat -> NoDup res).
Proof.
  rewrite filter_palette_last. intros Hres.
  destruct (last _) as [[m c]|] eqn:Hlast; [|done].
  pose proof (last_round_pass _ _ _ _ _ Hlast) as (_ & Hsub & Hhead).
  assert (Hin : forall x, x ∈ c -> x ∈ colours).
  { intros x Hx. eapply sorted_elem_of, elem_of_sublist; done. }
  assert (Hnd : NoDup colours -> NoDup c).
  { intros Hnd. eapply sublist_NoDup; [|exact Hsub]. by rewrite sorted_perm. }
  assert (Hnd' : (retries <= 53)%nat -> NoDup c).
  { intros Hr. by destruct (last_round_distinct _ _ _ _ _ Hr Hlast). }
  destruct (length c =? 16)%nat eqn:E16.
  - apply Nat.eqb_eq in E16. injection Hres as <- <-.
    split_and!; try done. lia.
  - apply Nat.eqb_neq in E16.
    destruct (length c <? 8)%nat eqn:E8; [done|]. apply Nat.ltb_ge in E8.
    injection Hres as <- <-. split_and!; try done.
Qed.

Lemma filter_palette_result_witness :
  filter_palette true eighteen_greys 50 = Ok (sixteen_greys, [])
  /\ (forall c, c ∈ sixteen_greys -> c ∈ eighteen_greys)
  /\ head sixteen_greys = head (sorted (tone_key true) eighteen_greys)
  /\ (8 <= length sixteen_greys)%nat
  /\ (([] : list string) = [] <-> length sixteen_greys = 16%nat)
  /\ (NoDup eighteen_greys -> NoDup sixteen_greys)
  /\ ((50 <= 53)%nat -> NoDup sixteen_greys).
Proof.
  assert (H : filter_palette true eighteen_greys 50 = Ok (sixteen_greys, []))
    by (vm_compute; reflexivity).
  split; [exact H|].
  exact (filter_palette_result true eighteen_greys 50 sixteen_greys [] H).
Defined.

(** Fewer than 8 distinct colours: every round is short. *)
Lemma few_distinct_short (colours kept : list colour) :
  NoDup kept -> (forall c, c ∈ kept -> c ∈ colours) ->
  (length kept <= length (remove_dups colours))%nat.
Proof.
  intros Hnd Hin. apply submseteq_length, NoDup_submseteq; [done|].
  intros x Hx. by apply elem_of_remove_dups, Hin.
Qed.

(** C4, amended.  With fewer than 8 distinct candidates and between 1
    and 53 rounds (the default is 50), [filter_palette] raises the
    too-few-colours error; in general it raises that error exactly when
    the last round of the search kept fewer than 8 colours.  With 54
    rounds the last threshold is 1, and eight identical blacks are
    returned with a warning. *)
Theorem filter_palette_too_few (dark : bool) (colours : list colour)
    (retries : nat) :
  (length (remove_dups colours) < 8)%nat -> (retries < 53)%nat ->
  (exists n, (n < 8)%nat
     /\ filter_palette dark colours (S retries)
        = Raise (ValueError ("can only find " +:+ pretty n
                               +:+ " (< 8) distinct colours")))
  /\ (forall dark' colours' retries' msg,
        filter_palette dark' colours' retries' = Raise (ValueError msg)
        <-> exists m c,
              last (rounds (filter_by_similarity
                              (sorted (tone_key dark') colours'))
                      retries' 0 1) = Some (m, c)
              /\ (length c < 8)%nat
              /\ msg = "can only find " +:+ pretty (length c)
                         +:+ " (< 8) distinct colours")
  /\ filter_palette true eight_black 54
     = Ok (eight_black, ["only found distinct 8 colours"]).
Proof.
  intros Hfew Hr. split_and!.
  - rewrite filter_palette_last.
    destruct (last _) as [[m c]|] eqn:Hlast.
    2:{ apply last_None in Hlast. by apply rounds_nonempty in Hlast. }
    pose proof (last_round_pass _ _ _ _ _ Hlast) as (_ & Hsub & _).
    destruct (last_round_distinct _ _ (S retries) _ _ ltac:(lia) Hlast)
      as [_ Hnd].
    assert (length c < 8)%nat as Hc.
    { eapply Nat.le_lt_trans; [|exact Hfew].
      apply few_distinct_short; [done|].
      intros x Hx. eapply sorted_elem_of, elem_of_sublist; done. }
    exists (length c). split; [done|].
    replace (length c =? 16)%nat with false
      by (symmetry; apply Nat.eqb_neq; lia).
    by replace (length c <? 8)%nat with true
      by (symmetry; apply Nat.ltb_lt; lia).
  - intros dark' colours' retries' msg. rewrite filter_palette_last.
    destruct (last _) as [[m c]|] eqn:Hlast.
    2:{ split; [done|]. by intros (? & ? & ? & _). }
    destruct (length c =? 16)%nat eqn:E16.
    { apply Nat.eqb_eq in E16. split; [done|].
      intros (m' & c' & [= <- <-] & Hlt & _). lia. }
    destruct (length c <? 8)%nat eqn:E8.
    + apply Nat.ltb_lt in E8. split.
      * intros [= <-]. by exists m, c.
      * by intros (m' & c' & [= <- <-] & _ & ->).
    + apply Nat.ltb_ge in E8. split; [done|].
      intros (m' & c' & [= <- <-] & Hlt & _). lia.
  - vm_compute. reflexivity.
Qed.

Lemma filter_palette_too_few_witness :
  (length (remove_dups eight_black) < 8)%nat
  /\ (49 < 53)%nat
  /\ exists n, (n < 8)%nat
     /\ filter_palette true eight_black 50
        = Raise (ValueError ("can only find " +:+ pretty n
                               +:+ " (< 8) distinct colours")).
Proof.
  assert (H : (length (remove_dups eight_black) < 8)%nat)
    by (vm_compute; lia).
  assert (H' : (49 < 53)%nat) by lia.
  split; [exact H|]. split; [exact H'|].
  exact (proj1 (filter_palette_too_few true eight_black 49 H H')).
Defined.

(** C5, amended.  The similarity pass maps the empty list to the empty
    list; [filter_palette] on the empty list raises the too-few-colours
    error after its rounds (and the unbound-local error with no round). *)
Theorem filter_palette_empty (t : Q) (dark : bool) (retries : nat) :
  filter_by_similarity [] t = []
  /\ base16_imagen.filter_by_similarity [] t = []
  /\ filter_palette dark [] (S retries)
     = Raise (ValueError "can only find 0 (< 8) distinct colours")
  /\ filter_palette dark [] 0 = Raise (UnboundLocalError "n").
Proof.
  split_and!; try reflexivity.
  rewrite filter_palette_last.
  destruct (last _) as [[m c]|] eqn:Hlast.
  2:{ apply last_None in Hlast. by apply rounds_nonempty in Hlast. }
  apply last_round_pass in Hlast as (-> & _). reflexivity.
Qed.

(** The threshold of round 50 when every round came back short. *)
Lemma probe_50 : probe 50 0 1 = (1125899906842623 # 1125899906842624)%Q.
Proof. vm_compute. reflexivity. Qed.

Lemma probe_50_close :
  ((1 - probe 50 0 1) ^ 2 * inject_Z max_sq_distance <= 1)%Q
  /\ (764 # 765 <= probe 50 0 1)%Q
  /\ (764 # 765 <= probe 50 0 1 ^ 4)%Q.
Proof. rewrite probe_50. split_and!; apply Qle_bool_iff; vm_compute; reflexivity. Qed.

(** A palette of fewer than 16 colours, pairwise distinct and of pairwise
    different brightness, comes back whole (tone-sorted) from round 50. *)
Lemma short_palette_last_round (dark : bool) (colours : list colour) :
  (length colours < 16)%nat -> NoDup colours -> NoDup (sum <$> colours) ->
  last (rounds (filter_by_similarity (sorted (tone_key dark) colours)) 50 0 1)
  = Some (probe 50 0 1, sorted (tone_key dark) colours)
  /\ last (rounds (base16_imagen.filter_by_similarity
                     (sorted (tone_key dark) colours)) 50 0 1)
     = Some (probe 50 0 1, sorted (tone_key dark) colours).
Proof.
  intros Hlen Hnd Hsum.
  destruct probe_50_close as (Hsq & Hb & Hb4).
  assert (Hnd' : NoDup (sorted (tone_key dark) colours))
    by (by rewrite sorted_perm).
  assert (Hsum' : NoDup (sum <$> sorted (tone_key dark) colours))
    by (by rewrite sorted_perm).
  split.
  - rewrite rounds_short.
    + by rewrite filter_by_similarity_keeps_all.
    + intros t. eapply Nat.le_lt_trans; [|exact Hlen].
      rewrite <- (sorted_length (tone_key dark) colours).
      apply sublist_length, filter_by_similarity_sublist.
  - rewrite rounds_short.
    + by rewrite imagen_filter_keeps_all.
    + intros t. eapply Nat.le_lt_trans; [|exact Hlen].
      rewrite <- (sorted_length (tone_key dark) colours).
      apply sublist_length, imagen_filter_sublist.
Qed.

(** C3, amended.  When the search runs out and its last round kept at
    least 8 colours, [filter_palette] logs the warning and returns the
    candidates of that last round; ten pairwise-distinct colours of
    pairwise different brightness all come back (tone-sorted), with the
    warning, from either source file's [filter_palette]. *)
Theorem filter_palette_exhausted (dark : bool) (colours : list colour)
    (retries : nat) (candidates : list colour) :
  threshold_search (filter_by_similarity (sorted (tone_key dark) colours))
    retries 0 1 None = Exhausted (Some candidates) ->
  (8 <= length candidates)%nat ->
  (filter_palette dark colours retries
   = Ok (candidates,
         ["only found distinct " +:+ pretty (length candidates)
            +:+ " colours"])
   /\ exists m,
        last (rounds (filter_by_similarity (sorted (tone_key dark) colours))
                retries 0 1) = Some (m, candidates))
  /\ (forall ten : list colour,
        length ten = 10%nat -> NoDup ten -> NoDup (sum <$> ten) ->
        filter_palette dark ten 50
        = Ok (sorted (tone_key dark) ten, ["only found distinct 10 colours"])
        /\ base16_imagen.filter_palette dark ten 50
           = Ok (sorted (tone_key dark) ten,
                 ["only found distinct 10 colours"])).
Proof.
  intros Hsearch Hlen. split.
  - unfold filter_palette. rewrite Hsearch.
    replace (length candidates <? 8)%nat with false
      by (symmetry; apply Nat.ltb_ge; lia).
    split; [done|]. rewrite search_last in Hsearch.
    destruct (last _) as [[m c]|]; [|done]. exists m.
    destruct (length c =? 16)%nat; [done|]. by injection Hsearch as ->.
  - intros ten Hten Hnd Hsum.
    destruct (short_palette_last_round dark ten) as [Ht Hi];
      [lia|done|done|].
    rewrite filter_palette_last, imagen_filter_palette_last, Ht, Hi.
    rewrite sorted_length, Hten. done.
Qed.

Lemma filter_palette_exhausted_witness :
  threshold_search (filter_by_similarity (sorted (tone_key true) ten_spread))
    50 0 1 None = Exhausted (Some (sorted (tone_key true) ten_spread))
  /\ (8 <= length (sorted (tone_key true) ten_spread))%nat
  /\ filter_palette true ten_spread 50
     = Ok (sorted (tone_key true) ten_spread,
           ["only found distinct 10 colours"]).
Proof.
  assert (H1 : threshold_search
                 (filter_by_similarity (sorted (tone_key true) ten_spread))
                 50 0 1 None
               = Exhausted (Some (sorted (tone_key true) ten_spread)))
    by (vm_compute; reflexivity).
  assert (H2 : (8 <= length (sorted (tone_key true) ten_spread))%nat)
    by (vm_compute; lia).
  split; [exact H1|]. split; [exact H2|].
  exact (proj1 (proj1 (filter_palette_exhausted true ten_spread 50 _ H1 H2))).
Defined.

(** *** The slot assigner *)

Lemma pop_last_snoc {A} (l : list A) :
  match pop_last l with
  | Some (r, y) => l = r ++ [y]
  | None => l = []
  end.
Proof.
  induction l as [|x l IH]; cbn; [done|].
  destruct (pop_last l) as [[r y]|]; by subst.
Qed.

Lemma pop_last_truthy {A} (l : list A) :
  truthy l = match pop_last l with Some _ => true | None => false end.
Proof. destruct l as [|x l]; cbn; [done|]. by destruct (pop_last l) as [[??]|]. Qed.

(** The loop over list objects computes [assign_fun] of the list stored
    at [palette], and leaves every list object that existed before the
    call as it was. *)
Lemma assign_loop_run (slots : list (string * string)) :
  forall (l : loc) (d : gmap string colour) (h : heap),
  exists h',
    assign_loop slots l d h = (assign_fun slots (h !!! l) d, h')
    /\ forall l0, l0 ∈ dom h -> h' !! l0 = h !! l0.
Proof.
  induction slots as [|[label mn] slots IH]; intros l d h.
  { by exists h. }
  cbn [assign_loop assign_fun].
  unfold mbind at 1, M_bind at 1, lift at 1.
  destruct (dict_get metrics mn) as [key|e]; cbn [mbind result_bind];
    [|by exists h].
  unfold mbind at 1, M_bind at 1, list_sorted at 1.
  destruct (sorted_raising key (h !!! l)) as [s|e]; cbn [mbind result_bind];
    [|by exists h].
  set (l' := fresh (dom h)).
  assert (Hfresh : l' ∉ dom h) by apply is_fresh.
  assert (Hframe : forall (m : heap) v l0,
             l0 ∈ dom h -> <[l' := v]> m !! l0 = m !! l0).
  { intros m v l0 Hl0. apply lookup_insert_ne. by intros ->. }
  unfold mbind at 1, M_bind at 1, list_truthy at 1.
  rewrite lookup_total_insert_eq, pop_last_truthy.
  pose proof (pop_last_snoc s) as Hs.
  destruct (pop_last s) as [[rest c]|] eqn:Hpop.
  - unfold mbind at 1, M_bind at 1, list_pop at 1.
    rewrite lookup_total_insert_eq, Hpop.
    destruct (IH l' (<[label := c]> d) (<[l' := rest]> (<[l' := s]> h)))
      as (h' & -> & Hh').
    rewrite lookup_total_insert_eq. exists h'. split; [done|].
    intros l0 Hl0. rewrite Hh' by set_solver.
    by rewrite !Hframe.
  - unfold mbind at 1, M_bind at 1, lift at 1.
    destruct (dict_get reuse_palette label) as [entry|e];
      cbn [mbind result_bind]; [|eexists; split; [done|by apply Hframe]].
    unfold mbind at 1, M_bind at 1, lift at 1.
    destruct (get_preference d entry) as [c|e];
      cbn [mbind result_bind]; [|eexists; split; [done|by apply Hframe]].
    destruct (IH l' (<[label := c]> d) (<[l' := s]> h)) as (h' & -> & Hh').
    rewrite lookup_total_insert_eq. exists h'. split; [done|].
    intros l0 Hl0. rewrite Hh' by set_solver. by apply Hframe.
Qed.

Lemma assign_palette_run (self : Theme) (h : heap) (p : list colour) :
  h !! palette self = Some p ->
  exists h',
    assign_palette self h
    = (slots ← dict_get order (if dark self then "dark" else "light");
       assign_fun slots p ∅, h')
    /\ forall l0, l0 ∈ dom h -> h' !! l0 = h !! l0.
Proof.
  intros Hp. unfold assign_palette.
  unfold mbind at 1, M_bind at 1, list_copy at 1.
  set (l' := fresh (dom h)).
  assert (Hfresh : l' ∉ dom h) by apply is_fresh.
  rewrite (lookup_total_correct _ _ _ Hp).
  unfold mbind at 1, M_bind at 1, lift at 1.
  assert (Hframe : forall l0, l0 ∈ dom h -> <[l' := p]> h !! l0 = h !! l0).
  { intros l0 Hl0. apply lookup_insert_ne. by intros ->. }
  destruct (dict_get order _) as [slots|e]; cbn [mbind result_bind];
    [|by eexists].
  destruct (assign_loop_run slots l' ∅ (<[l' := p]> h)) as (h' & -> & Hh').
  rewrite lookup_total_insert_eq. exists h'. split; [done|].
  intros l0 Hl0. rewrite Hh' by set_solver. by apply Hframe.
Qed.

Lemma metrics_total (mn : string) (key : colour -> result Z) (c : colour) :
  metrics !! mn = Some key -> key c = Ok (score key c).
Proof.
  intros Hm. unfold metrics in Hm. apply elem_of_list_to_map_2 in Hm.
  destruct c as [[r g] b]. unfold score.
  repeat (apply elem_of_cons in Hm as [[= -> ->]|Hm]; [done|]).
  by apply elem_of_nil in Hm.
Qed.

Lemma sorted_raising_metric (mn : string) (key : colour -> result Z)
    (l : list colour) :
  metrics !! mn = Some key ->
  sorted_raising key l = Ok (sorted (score key) l).
Proof. intros Hm. apply sorted_raising_total. intros c. by eapply metrics_total. Qed.

Lemma dict_get_Some {V} (d : gmap string V) (k : string) (v : V) :
  d !! k = Some v -> dict_get d k = Ok v.
Proof. unfold dict_get. by intros ->. Qed.

Lemma mapM_dict_get (d : gmap string colour) (os : list string) :
  Forall (fun o => o ∈ dom d) os ->
  exists cs, mapM (dict_get d) os = Ok cs /\ length cs = length os.
Proof.
  induction 1 as [|o os Ho _ (cs & IH & Hlen)]; [by exists []|].
  apply elem_of_dom in Ho as [c Hc].
  exists (c :: cs).
  change (mapM (dict_get d) (o :: os))
    with (y ← dict_get d o; k ← mapM (dict_get d) os; mret (y :: k)).
  rewrite (dict_get_Some _ _ _ Hc), IH. cbn. by rewrite Hlen.
Qed.

Lemma get_preference_ok (avail : list string) (label : string)
    (d : gmap string colour) :
  resolvable avail label -> Forall (fun o => o ∈ dom d) avail ->
  exists entry c,
    dict_get reuse_palette label = Ok entry /\ get_preference d entry = Ok c.
Proof.
  unfold resolvable, dict_get at 1. intros Hres Havail.
  rewrite Forall_forall in Havail.
  destruct (reuse_palette !! label) as [[os mn|o]|]; [| |done].
  - destruct Hres as (Hne & Hos & [key Hkey]).
    destruct (mapM_dict_get d os) as (cs & Hcs & Hlen).
    { eapply Forall_impl; [exact Hos|]. cbn. auto. }
    destruct (sorted (score key) cs) as [|c cs'] eqn:E.
    { apply (f_equal length) in E. rewrite sorted_length, Hlen in E.
      by destruct os. }
    exists (reuse_best os mn), c. split; [done|]. cbn [get_preference].
    rewrite Hcs, (dict_get_Some _ _ _ Hkey). cbn [mbind result_bind].
    rewrite (sorted_raising_metric mn) by done. cbn [mbind result_bind].
    by rewrite E.
  - apply Havail, elem_of_dom in Hres as [c Hc].
    eexists _, c. split; [done|]. cbn [get_preference].
    by apply dict_get_Some.
Qed.

Lemma assign_fun_pop (label mn : string) (slots : list (string * string))
    (p : list colour) (d : gmap string colour) :
  is_Some (metrics !! mn) -> p <> [] ->
  exists rest c,
    length rest = pred (length p)
    /\ assign_fun ((label, mn) :: slots) p d
       = assign_fun slots rest (<[label := c]> d).
Proof.
  intros [key Hkey] Hp. cbn [assign_fun].
  rewrite (dict_get_Some _ _ _ Hkey). cbn [mbind result_bind].
  rewrite (sorted_raising_metric mn) by done. cbn [mbind result_bind].
  pose proof (pop_last_snoc (sorted (score key) p)) as Hs.
  destruct (pop_last _) as [[rest c]|].
  - exists rest, c. split; [|done].
    apply (f_equal length) in Hs.
    rewrite sorted_length, length_app in Hs. cbn in Hs. lia.
  - apply (f_equal length) in Hs. rewrite sorted_length in Hs.
    by destruct p.
Qed.

Lemma assign_fun_any (avail : list string) (label mn : string)
    (slots : list (string * string)) (p : list colour)
    (d : gmap string colour) :
  is_Some (metrics !! mn) -> resolvable avail label ->
  Forall (fun o => o ∈ dom d) avail ->
  exists rest c,
    assign_fun ((label, mn) :: slots) p d
    = assign_fun slots rest (<[label := c]> d).
Proof.
  intros [key Hkey] Hres Havail. cbn [assign_fun].
  rewrite (dict_get_Some _ _ _ Hkey). cbn [mbind result_bind].
  rewrite (sorted_raising_metric mn) by done. cbn [mbind result_bind].
  destruct (pop_last _) as [[rest c]|]; [by eexists _, _|].
  destruct (get_preference_ok avail label d) as (entry & c & -> & Hc);
    [done..|].
  cbn [mbind result_bind]. rewrite Hc. cbn [mbind result_bind].
  by eexists _, _.
Qed.

(** While the palette lasts, each slot takes a colour from it. *)
Lemma assign_fun_pop_phase (slots1 slots2 : list (string * string)) :
  forall (p : list colour) (d : gmap string colour),
  (length slots1 <= length p)%nat ->
  Forall (fun s => is_Some (metrics !! s.2)) slots1 ->
  exists p' d',
    assign_fun (slots1 ++ slots2) p d = assign_fun slots2 p' d'
    /\ dom d' = dom d ∪ list_to_set slots1.*1.
Proof.
  induction slots1 as [|[label mn] slots1 IH]; intros p d Hlen Hm.
  { exists p, d. split; [done|]. set_solver. }
  apply Forall_cons in Hm as [Hmn Hm]. cbn in Hlen, Hmn.
  destruct (assign_fun_pop label mn (slots1 ++ slots2) p d)
    as (rest & c & Hrest & Hstep);
    [done|intros ->; cbn in Hlen; lia|].
  destruct (IH rest (<[label := c]> d)) as (p' & d' & Hrun & Hdom);
    [lia|done|].
  exists p', d'. cbn [app]. rewrite Hstep, Hrun. split; [done|].
  rewrite Hdom, dom_insert_L. set_solver.
Qed.

(** Once [avail] is designated, the remaining slots are filled whatever
    is left of the palette. *)
Lemma assign_fun_tail_phase (avail : list string)
    (slots : list (string * string)) :
  forall (p : list colour) (d : gmap string colour),
  Forall (fun s => is_Some (metrics !! s.2) /\ resolvable avail s.1) slots ->
  Forall (fun o => o ∈ dom d) avail ->
  exists d',
    assign_fun slots p d = Ok d' /\ dom d' = dom d ∪ list_to_set slots.*1.
Proof.
  induction slots as [|[label mn] slots IH]; intros p d Hs Havail.
  { exists d. split; [done|]. set_solver. }
  apply Forall_cons in Hs as [[Hmn Hres] Hs]. cbn in Hmn, Hres.
  destruct (assign_fun_any avail label mn slots p d)
    as (rest & c & Hstep); [done..|].
  destruct (IH rest (<[label := c]> d)) as (d' & Hrun & Hdom); [done| |].
  { eapply Forall_impl; [exact Havail|]. cbn. intros o Ho.
    rewrite dom_insert_L. set_solver. }
  exists d'. rewrite Hstep, Hrun. split; [done|].
  rewrite Hdom, dom_insert_L. set_solver.
Qed.

Local Ltac lookup_table :=
  match goal with
  | |- context [reuse_palette !! ?k] =>
      let v := eval vm_compute in (reuse_palette !! k) in
      change (reuse_palette !! k) with v
  end.

Local Ltac table_fact :=
  unfold resolvable, primary; try lookup_table;
  first [ by eexists
        | split_and!; [done | repeat constructor | by eexists]
        | repeat constructor ].

(** The order tables: the first eight slots are the primary ones, and
    each later slot has a reuse entry that refers to primary slots only. *)
Lemma order_split (tone : bool) :
  exists slots,
    dict_get order (if tone then "dark" else "light") = Ok slots
    /\ (take 8 slots).*1 = primary
    /\ list_to_set slots.*1 = (list_to_set catalog : gset string)
    /\ Forall (fun s => is_Some (metrics !! s.2)) (take 8 slots)
    /\ Forall (fun s => is_Some (metrics !! s.2) /\ resolvable primary s.1)
         (drop 8 slots).
Proof.
  destruct tone.
  - exists [ ("color00", "dark"); ("color07", "light"); ("color01", "red");
         ("color02", "green"); ("color04", "blue"); ("color03", "yellow");
         ("color05", "magenta"); ("color06", "cyan"); ("color18", "dark");
         ("color19", "dark"); ("color20", "dark"); ("color21", "dark");
         ("color15", "dark"); ("color16", "dark"); ("color17", "dark");
         ("color08", "dark") ].
    split; [reflexivity|]. split; [reflexivity|].
    split; [vm_compute; reflexivity|].
    cbn [take drop].
    split; repeat (apply Forall_cons; split); try apply Forall_nil;
      cbn [fst snd]; try split; table_fact.
  - exists [ ("color00", "light"); ("color07", "dark"); ("color01", "red");
         ("color02", "green"); ("color04", "blue"); ("color03", "yellow");
         ("color05", "magenta"); ("color06", "cyan"); ("color18", "light");
         ("color19", "light"); ("color20", "light"); ("color21", "light");
         ("color15", "light"); ("color16", "light"); ("color17", "light");
         ("color08", "light") ].
    split; [reflexivity|]. split; [reflexivity|].
    split; [vm_compute; reflexivity|].
    cbn [take drop].
    split; repeat (apply Forall_cons; split); try apply Forall_nil;
      cbn [fst snd]; try split; table_fact.
Qed.

Lemma assign_fun_covers (tone : bool) (p : list colour) :
  (8 <= length p)%nat ->
  exists d,
    (slots ← dict_get order (if tone then "dark" else "light");
     assign_fun slots p ∅) = Ok d
    /\ dom d = list_to_set catalog.
Proof.
  intros Hp.
  destruct (order_split tone) as (slots & -> & Hprim & Hcat & H1 & H2).
  cbn [mbind result_bind]. rewrite <- Hcat, <- (take_drop 8 slots).
  assert (Hlen : (length (take 8 slots) <= 8)%nat)
    by (rewrite length_take; lia).
  destruct (assign_fun_pop_phase (take 8 slots) (drop 8 slots) p ∅)
    as (p' & d1 & -> & Hd1); [lia|done|].
  destruct (assign_fun_tail_phase primary (drop 8 slots) p' d1)
    as (d & -> & Hd); [done| |].
  { rewrite Hd1, Hprim. apply Forall_forall. intros o Ho.
    apply elem_of_union_r, elem_of_list_to_set, Ho. }
  exists d. split; [done|].
  rewrite Hd, Hd1, fmap_app, list_to_set_app_L, dom_empty_L. set_solver.
Qed.

(** *** The assigner as a whole *)

(** On a one-colour palette the second slot, color07, has no reuse
    entry. *)
Lemma assign_palette_one_colour_raises :
  (assign_palette dark_theme {[ 0%nat := [(1, 2, 3)] ]}).1
  = Raise (KeyError "color07").
Proof. vm_compute. reflexivity. Qed.

(** C1, amended.  For a stored palette of at least 8 colours and either
    tone, [assign_palette] returns a mapping whose domain is exactly the
    slot catalog. *)
Theorem assign_palette_covers_catalog (self : Theme) (h : heap)
    (p : list colour) :
  h !! palette self = Some p -> (8 <= length p)%nat ->
  exists designations h',
    assign_palette self h = (Ok designations, h')
    /\ dom designations = list_to_set catalog.
Proof.
  intros Hp Hlen.
  destruct (assign_palette_run self h p Hp) as (h' & -> & _).
  destruct (assign_fun_covers (dark self) p Hlen) as (d & -> & Hd).
  by exists d, h'.
Qed.

Lemma assign_palette_covers_catalog_witness :
  ({[ 0%nat := eight_spread ]} : heap) !! palette dark_theme
  = Some eight_spread
  /\ (8 <= length eight_spread)%nat
  /\ exists designations h',
       assign_palette dark_theme {[ 0%nat := eight_spread ]}
       = (Ok designations, h')
       /\ dom designations = list_to_set catalog.
Proof.
  assert (H1 : ({[ 0%nat := eight_spread ]} : heap) !! palette dark_theme
               = Some eight_spread) by reflexivity.
  assert (H2 : (8 <= length eight_spread)%nat) by (simpl; lia).
  split; [exact H1|]. split; [exact H2|].
  exact (assign_palette_covers_catalog dark_theme _ _ H1 H2).
Defined.

(** C7.  The mapping [assign_palette] returns depends only on the ordered
    palette and the tone: two theme objects with equal palettes and
    tones in any two stores get equal results, as does a second call on
    the same object; and every sort by a metric is the stable sort, so
    colours of equal score keep their input order. *)
Theorem assign_palette_deterministic (self1 self2 : Theme) (h1 h2 : heap)
    (p : list colour) :
  h1 !! palette self1 = Some p -> h2 !! palette self2 = Some p ->
  dark self1 = dark self2 ->
  (assign_palette self1 h1).1 = (assign_palette self2 h2).1
  /\ (assign_palette self1 (assign_palette self1 h1).2).1
     = (assign_palette self1 h1).1
  /\ (forall mn key (l : list colour),
        metrics !! mn = Some key ->
        exists l', sorted_raising key l = Ok l'
                   /\ stable_sort_of (score key) l l').
Proof.
  intros Hp1 Hp2 Hdark.
  destruct (assign_palette_run self1 h1 p Hp1) as (h1' & E1 & Hframe).
  destruct (assign_palette_run self2 h2 p Hp2) as (h2' & E2 & _).
  split_and!.
  - rewrite E1, E2, Hdark. done.
  - assert (Hp1' : h1' !! palette self1 = Some p).
    { rewrite Hframe; [done|]. by apply elem_of_dom. }
    rewrite E1. cbn [fst snd].
    destruct (assign_palette_run self1 h1' p Hp1') as (h1'' & -> & _). done.
  - intros mn key l Hkey. exists (sorted (score key) l).
    split; [by eapply sorted_raising_metric|apply sorted_stable_sort].
Qed.

Lemma assign_palette_deterministic_witness :
  ({[ 0%nat := eight_spread ]} : heap) !! palette dark_theme
  = Some eight_spread
  /\ ({[ 3%nat := eight_spread; 5%nat := [] ]} : heap)
       !! palette {| dark := true; palette := 3%nat |} = Some eight_spread
  /\ dark dark_theme = dark {| dark := true; palette := 3%nat |}
  /\ (assign_palette dark_theme {[ 0%nat := eight_spread ]}).1
     = (assign_palette {| dark := true; palette := 3%nat |}
          {[ 3%nat := eight_spread; 5%nat := [] ]}).1.
Proof.
  assert (H1 : ({[ 0%nat := eight_spread ]} : heap) !! palette dark_theme
               = Some eight_spread) by reflexivity.
  assert (H2 : ({[ 3%nat := eight_spread; 5%nat := [] ]} : heap)
                 !! palette {| dark := true; palette := 3%nat |}
               = Some eight_spread) by reflexivity.
  assert (H3 : dark dark_theme = dark {| dark := true; palette := 3%nat |})
    by reflexivity.
  split; [exact H1|]. split; [exact H2|]. split; [exact H3|].
  exact (proj1 (assign_palette_deterministic _ _ _ _ _ H1 H2 H3)).
Defined.

(** C9.  After [assign_palette] the stored palette, and every list object
    that existed before the call, is unchanged, so a second call from the
    same object returns the same result. *)
Theorem assign_palette_preserves_palette (self : Theme) (h : heap)
    (p : list colour) :
  h !! palette self = Some p ->
  (assign_palette self h).2 !! palette self = Some p
  /\ (forall l, l ∈ dom h -> (assign_palette self h).2 !! l = h !! l)
  /\ (assign_palette self (assign_palette self h).2).1
     = (assign_palette self h).1.
Proof.
  intros Hp.
  destruct (assign_palette_run self h p Hp) as (h' & E & Hframe).
  rewrite E. cbn [fst snd].
  assert (Hp' : h' !! palette self = Some p).
  { rewrite Hframe; [done|]. by apply elem_of_dom. }
  split_and!; [done|done|].
  destruct (assign_palette_run self h' p Hp') as (h'' & -> & _). done.
Qed.

Lemma assign_palette_preserves_palette_witness :
  ({[ 0%nat := eight_spread ]} : heap) !! palette dark_theme
  = Some eight_spread
  /\ (assign_palette dark_theme {[ 0%nat := eight_spread ]}).2
       !! palette dark_theme = Some eight_spread.
Proof.
  assert (H1 : ({[ 0%nat := eight_spread ]} : heap) !! palette dark_theme
               = Some eight_spread) by reflexivity.
  split; [exact H1|].
  exact (proj1 (assign_palette_preserves_palette dark_theme _ _ H1)).
Defined.

(* ================================================================== *)
(** ** Further properties of the code                                 *)
(* ================================================================== *)

(** *** The assigner, slot by slot *)

Lemma dict_get_Ok {V} (d : gmap string V) (k : string) (v : V) :
  dict_get d k = Ok v <-> d !! k = Some v.
Proof.
  unfold dict_get. destruct (d !! k); split; intros H; by simplify_eq.
Qed.

Lemma pop_last_Some {A} (l r : list A) (y : A) :
  pop_last l = Some (r, y) <-> l = r ++ [y].
Proof.
  split.
  - intros H. pose proof (pop_last_snoc l) as Hl. by rewrite H in Hl.
  - intros ->. induction r as [|x r IH]; [done|]. cbn. by rewrite IH.
Qed.

Lemma pop_last_None {A} (l : list A) : pop_last l = None <-> l = [].
Proof.
  split.
  - intros H. pose proof (pop_last_snoc l) as Hl. by rewrite H in Hl.
  - by intros ->.
Qed.

Lemma mapM_dict_get_Ok (d : gmap string colour) (os : list string)
    (cs : list colour) :
  mapM (dict_get d) os = Ok cs ->
  Forall2 (fun o c => d !! o = Some c) os cs.
Proof.
  revert cs. induction os as [|o os IH]; intros cs.
  { intros [= <-]. constructor. }
  change (mapM (dict_get d) (o :: os))
    with (y ← dict_get d o; k ← mapM (dict_get d) os; mret (y :: k)).
  destruct (dict_get d o) as [c|] eqn:Ho; [|done]. cbn [mbind result_bind].
  destruct (mapM (dict_get d) os) as [cs'|]; [|done]. intros [= <-].
  constructor; [by apply dict_get_Ok|by apply IH].
Qed.

(** What [get_preference] returns is the colour of one of the options. *)
Lemma get_preference_Ok (d : gmap string colour) (entry : reuse_entry)
    (c : colour) :
  get_preference d entry = Ok c ->
  match entry with
  | reuse_copy o => d !! o = Some c
  | reuse_best os mn => exists o, o ∈ os /\ d !! o = Some c
  end.
Proof.
  destruct entry as [os mn|o]; cbn [get_preference].
  - destruct (mapM (dict_get d) os) as [cs|] eqn:Hcs; [|done].
    cbn [mbind result_bind].
    destruct (dict_get metrics mn) as [key|] eqn:Hkey; [|done].
    cbn [mbind result_bind]. apply dict_get_Ok in Hkey.
    rewrite (sorted_raising_metric mn) by done. cbn [mbind result_bind].
    intros Hfirst.
    assert (Hc : c ∈ cs).
    { apply (sorted_elem_of (score key)).
      destruct (sorted (score key) cs); simplify_eq/=. left. }
    apply mapM_dict_get_Ok in Hcs.
    apply list_elem_of_lookup in Hc as [i Hi].
    destruct (Forall2_lookup_r _ _ _ _ _ Hcs Hi) as (o & Ho & Hoc).
    exists o. split; [|done]. by eapply list_elem_of_lookup_2.
  - apply dict_get_Ok.
Qed.

(** One successful iteration: the slot takes the last colour of the
    sorted palette, or, the palette being empty, a reused colour. *)
Lemma assign_fun_cons_Ok (label mn : string) (slots : list (string * string))
    (p : list colour) (d d' : gmap string colour) :
  assign_fun ((label, mn) :: slots) p d = Ok d' ->
  exists key rest c,
    metrics !! mn = Some key
    /\ (sorted (score key) p = rest ++ [c]
        \/ (p = [] /\ rest = []
            /\ exists entry, reuse_palette !! label = Some entry
                             /\ get_preference d entry = Ok c))
    /\ assign_fun slots rest (<[label := c]> d) = Ok d'.
Proof.
  cbn [assign_fun].
  destruct (dict_get metrics mn) as [key|] eqn:Hkey; [|done].
  cbn [mbind result_bind]. apply dict_get_Ok in Hkey.
  rewrite (sorted_raising_metric mn) by done. cbn [mbind result_bind].
  destruct (pop_last _) as [[rest c]|] eqn:Hpop.
  - apply pop_last_Some in Hpop. intros H. exists key, rest, c. auto.
  - apply pop_last_None in Hpop.
    assert (p = []) as ->.
    { apply (f_equal length) in Hpop. rewrite sorted_length in Hpop.
      by destruct p. }
    destruct (dict_get reuse_palette label) as [entry|] eqn:He; [|done].
    cbn [mbind result_bind]. apply dict_get_Ok in He.
    destruct (get_preference d entry) as [c|] eqn:Hc; [|done].
    cbn [mbind result_bind]. rewrite Hpop. intros H.
    exists key, [], c. split; [done|]. split; [|done]. right. eauto.
Qed.

(** A property of all palette colours holds of every designated colour. *)
Lemma assign_fun_Forall (P : colour -> Prop) (slots : list (string * string)) :
  forall (p : list colour) (d d' : gmap string colour),
  Forall P p -> map_Forall (fun _ c => P c) d ->
  assign_fun slots p d = Ok d' -> map_Forall (fun _ c => P c) d'.
Proof.
  induction slots as [|[label mn] slots IH]; intros p d d' Hp Hd.
  { by intros [= <-]. }
  intros (key & rest & c & Hkey & Hstep & Hrun)%assign_fun_cons_Ok.
  assert (Forall P rest /\ P c) as [Hrest Hc].
  { destruct Hstep as [Hs|(-> & -> & entry & He & Hpref)].
    - assert (Forall P (rest ++ [c])) as [? [? _]%Forall_cons]%Forall_app;
        [|done].
      rewrite <- Hs. by rewrite sorted_perm.
    - split; [constructor|]. apply get_preference_Ok in Hpref.
      destruct entry as [os mn'|o].
      + destruct Hpref as (o & _ & Ho). by apply (Hd o).
      + by apply (Hd o). }
  eapply IH; [exact Hrest| |exact Hrun].
  by apply map_Forall_insert_2.
Qed.

(** A slot that is not assigned later keeps its colour. *)
Lemma assign_fun_keeps (slots : list (string * string)) :
  forall (p : list colour) (d d' : gmap string colour) (label : string),
  assign_fun slots p d = Ok d' -> label ∉ slots.*1 ->
  d' !! label = d !! label.
Proof.
  induction slots as [|[l mn] slots IH]; intros p d d' label.
  { by intros [= <-]. }
  intros (key & rest & c & _ & _ & Hrun)%assign_fun_cons_Ok Hl.
  cbn in Hl. apply not_elem_of_cons in Hl as [Hne Hl].
  rewrite (IH _ _ _ _ Hrun Hl). by apply lookup_insert_ne.
Qed.

Lemma order_dark :
  dict_get order "dark"
  = Ok [ ("color00", "dark"); ("color07", "light"); ("color01", "red");
         ("color02", "green"); ("color04", "blue"); ("color03", "yellow");
         ("color05", "magenta"); ("color06", "cyan"); ("color18", "dark");
         ("color19", "dark"); ("color20", "dark"); ("color21", "dark");
         ("color15", "dark"); ("color16", "dark"); ("color17", "dark");
         ("color08", "dark") ].
Proof. reflexivity. Qed.

Lemma order_light :
  dict_get order "light"
  = Ok [ ("color00", "light"); ("color07", "dark"); ("color01", "red");
         ("color02", "green"); ("color04", "blue"); ("color03", "yellow");
         ("color05", "magenta"); ("color06", "cyan"); ("color18", "light");
         ("color19", "light"); ("color20", "light"); ("color21", "light");
         ("color15", "light"); ("color16", "light"); ("color17", "light");
         ("color08", "light") ].
Proof. reflexivity. Qed.

Lemma order_labels (tone : bool) (slots : list (string * string)) :
  dict_get order (if tone then "dark" else "light") = Ok slots ->
  slots.*1 = slot_labels
  /\ Forall (fun s => is_Some (metrics !! s.2)) slots.
Proof.
  destruct tone; [rewrite order_dark|rewrite order_light]; intros [= <-];
    (split; [reflexivity|]);
    repeat (apply Forall_cons; split; [eexists; reflexivity|]);
    apply Forall_nil_2.
Qed.

Lemma slot_labels_NoDup : NoDup slot_labels.
Proof.
  unfold slot_labels.
  repeat (apply NoDup_cons; split;
          [repeat (apply not_elem_of_cons; split; [discriminate|]);
           apply not_elem_of_nil|]).
  apply NoDup_nil_2.
Qed.

Lemma primary_no_reuse (label : string) :
  label ∈ primary -> reuse_palette !! label = None.
Proof.
  unfold primary. intros H.
  repeat (apply elem_of_cons in H as [->|H]; [reflexivity|]).
  by apply elem_of_nil in H.
Qed.

Lemma sorted_nil {A} (key : A -> Z) : sorted key [] = [].
Proof. reflexivity. Qed.

Lemma StronglySorted_snoc {A} (R : A -> A -> Prop) (l : list A) (y : A) :
  StronglySorted R (l ++ [y]) -> Forall (fun x => R x y) l.
Proof.
  induction l as [|x l IH]; [constructor|].
  cbn. intros [Hs Hall]%StronglySorted_inv. constructor; [|by apply IH].
  apply Forall_app in Hall as [_ [H _]%Forall_cons]. done.
Qed.

(** The colour a slot pops scores highest among the palette. *)
Lemma popped_is_best (key : colour -> Z) (p rest : list colour) (c : colour) :
  sorted key p = rest ++ [c] ->
  c ∈ p /\ (forall x, x ∈ rest -> x ∈ p) /\ length rest = pred (length p)
  /\ (forall x, x ∈ p -> key x <= key c).
Proof.
  intros Hs.
  assert (Hperm : rest ++ [c] ≡ₚ p) by (rewrite <- Hs; apply sorted_perm).
  split_and!.
  - rewrite <- Hperm. set_solver.
  - intros x Hx. rewrite <- Hperm. set_solver.
  - rewrite <- Hperm, length_app. cbn. lia.
  - intros x Hx. rewrite <- Hperm in Hx.
    destruct (sorted_stable_sort key p) as [Hsorted _]. rewrite Hs in Hsorted.
    apply StronglySorted_snoc in Hsorted. rewrite Forall_forall in Hsorted.
    apply elem_of_app in Hx as [Hx|Hx%list_elem_of_singleton];
      [by apply Hsorted|subst; lia].
Qed.

(** A slot of the pop phase: the palette is not exhausted. *)
Lemma assign_fun_cons_pop (label mn : string) (slots : list (string * string))
    (p : list colour) (d d' : gmap string colour) :
  assign_fun ((label, mn) :: slots) p d = Ok d' ->
  p <> [] \/ reuse_palette !! label = None ->
  exists key rest c,
    metrics !! mn = Some key /\ sorted (score key) p = rest ++ [c]
    /\ assign_fun slots rest (<[label := c]> d) = Ok d'.
Proof.
  intros (key & rest & c & Hkey & Hstep & Hrun)%assign_fun_cons_Ok Hp.
  exists key, rest, c. split; [done|]. split; [|done].
  destruct Hstep as [?|(-> & _ & entry & He & _)]; [done|].
  destruct Hp as [?|Hnone]; [done|]. by rewrite Hnone in He.
Qed.

Local Ltac step_pop H key rest c Hkey Hs :=
  apply assign_fun_cons_pop in H as (key & rest & c & Hkey & Hs & H);
  [|right; apply primary_no_reuse; unfold primary; repeat constructor].

(** A successful [assign_palette] is a successful [assign_fun] on the
    order table of the tone. *)
Lemma assign_palette_Ok (self : Theme) (h : heap) (p : list colour)
    (d : gmap string colour) :
  h !! palette self = Some p -> (assign_palette self h).1 = Ok d ->
  exists slots,
    dict_get order (if dark self then "dark" else "light") = Ok slots
    /\ assign_fun slots p ∅ = Ok d.
Proof.
  intros Hp Hrun.
  destruct (assign_palette_run self h p Hp) as (h'' & E & _).
  rewrite E in Hrun. cbn [fst] in Hrun.
  destruct (dict_get order _) as [slots|] eqn:Ho; [|done]. by exists slots.
Qed.

(** X1.  [assign_palette] designates colours of the palette only: whatever
    slot a colour ends up on, popped or reused, it is an element of the
    stored palette. *)
Theorem assign_palette_uses_palette_colours (self : Theme) (h : heap)
    (p : list colour) (d : gmap string colour) :
  h !! palette self = Some p -> (assign_palette self h).1 = Ok d ->
  forall label c, d !! label = Some c -> c ∈ p.
Proof.
  intros Hp Hrun label c Hc.
  destruct (assign_palette_Ok _ _ _ _ Hp Hrun) as (slots & _ & Hfun).
  eapply (assign_fun_Forall (fun c => c ∈ p)) in Hfun.
  - by apply (Hfun label).
  - by apply Forall_forall.
  - apply map_Forall_empty.
Qed.

Lemma score_dark (key : colour -> result Z) (c : colour) :
  metrics !! "dark" = Some key -> score key c = - sum c.
Proof. by intros [= <-]. Qed.

Lemma score_light (key : colour -> result Z) (c : colour) :
  metrics !! "light" = Some key -> score key c = sum c.
Proof. by intros [= <-]. Qed.

Local Ltac notin_labels :=
  cbn; repeat (apply not_elem_of_cons; split; [discriminate|]);
  apply not_elem_of_nil.

Lemma pop_permutation (key : colour -> Z) (p rest : list colour) (c : colour) :
  sorted key p = rest ++ [c] -> p ≡ₚ c :: rest.
Proof.
  intros Hs. rewrite <- (sorted_perm key p), Hs.
  by rewrite Permutation_app_comm.
Qed.

Lemma assign_palette_extremes (self : Theme) (h : heap)
    (p : list colour) (d : gmap string colour) :
  h !! palette self = Some p -> (assign_palette self h).1 = Ok d ->
  exists bg fg,
    d !! "color00" = Some bg /\ d !! "color07" = Some fg
    /\ bg ∈ p /\ fg ∈ p
    /\ forall x, x ∈ p ->
         if dark self then sum bg <= sum x <= sum fg
         else sum fg <= sum x <= sum bg.
Proof.
  intros Hp Hrun.
  destruct (assign_palette_Ok _ _ _ _ Hp Hrun) as (slots & Ho & Hfun).
  destruct (dark self);
    [rewrite order_dark in Ho|rewrite order_light in Ho];
    injection Ho as <-.
  all: apply assign_fun_cons_pop in Hfun
         as (k0 & r0 & c0 & Hk0 & Hs0 & Hfun); [|by right].
  all: apply assign_fun_cons_pop in Hfun
         as (k7 & r7 & c7 & Hk7 & Hs7 & Hfun); [|by right].
  all: pose proof (pop_permutation _ _ _ _ Hs0) as Hperm.
  all: apply popped_is_best in Hs0 as (Hc0 & Hr0 & _ & Hbest0).
  all: apply popped_is_best in Hs7 as (Hc7 & Hr7 & _ & Hbest7).
  all: exists c0, c7.
  all: split;
    [rewrite (assign_fun_keeps _ _ _ _ "color00" Hfun) by notin_labels;
     rewrite lookup_insert_ne by done; apply lookup_insert_eq|].
  all: split;
    [rewrite (assign_fun_keeps _ _ _ _ "color07" Hfun) by notin_labels;
     apply lookup_insert_eq|].
  all: split; [done|]. all: split; [by apply Hr0|].
  all: intros x Hx; pose proof (Hbest0 x Hx) as Hx0;
    pose proof (Hbest0 c7 (Hr0 c7 Hc7)) as H70;
    rewrite Hperm in Hx; apply elem_of_cons in Hx as [->|Hx];
    [|pose proof (Hbest7 x Hx) as Hx7].
  all: rewrite ?(score_dark _ _ Hk0), ?(score_light _ _ Hk0),
         ?(score_dark _ _ Hk7), ?(score_light _ _ Hk7) in *; lia.
Qed.

(** X2.  Under the dark order color00 is a colour of least channel sum
    of the palette and color07 one of greatest channel sum; under the
    light order it is the other way round. *)
Theorem assign_palette_background_foreground (self : Theme) (h : heap)
    (p : list colour) (d : gmap string colour) :
  h !! palette self = Some p -> (assign_palette self h).1 = Ok d ->
  exists bg fg,
    d !! "color00" = Some bg /\ d !! "color07" = Some fg
    /\ bg ∈ p /\ fg ∈ p
    /\ forall x, x ∈ p ->
         if dark self then sum bg <= sum x <= sum fg
         else sum fg <= sum x <= sum bg.
Proof. apply assign_palette_extremes. Qed.

(** While the palette lasts, a duplicate-free palette gives every slot a
    colour of its own. *)
Lemma assign_fun_pop_distinct (slots : list (string * string)) :
  forall (p : list colour) (d d' : gmap string colour),
  (length slots <= length p)%nat -> NoDup p -> NoDup slots.*1 ->
  (forall l, l ∈ slots.*1 -> d !! l = None) ->
  (forall l c, d !! l = Some c -> c ∉ p) ->
  distinct_colours d ->
  assign_fun slots p d = Ok d' -> distinct_colours d'.
Proof.
  induction slots as [|[label mn] slots IH];
    intros p d d' Hlen Hnd Hlabels Hfresh Hout Hinj.
  { by intros [= <-]. }
  intros Hrun. apply assign_fun_cons_pop in Hrun
    as (key & rest & c & _ & Hs & Hrun);
    [|left; intros ->; cbn in Hlen; lia].
  pose proof (pop_permutation _ _ _ _ Hs) as Hperm.
  rewrite Hperm in Hnd. apply NoDup_cons in Hnd as [Hc Hrest].
  cbn in Hlabels. apply NoDup_cons in Hlabels as [Hl Hlabels].
  eapply IH; [| | | | | |exact Hrun]; try done.
  - apply Permutation_length in Hperm. cbn in Hlen, Hperm. lia.
  - intros l Hin. rewrite lookup_insert_ne by (intros ->; done).
    apply Hfresh. cbn. by right.
  - intros l c' Hlc. destruct (decide (l = label)) as [->|Hne].
    + rewrite lookup_insert_eq in Hlc. by injection Hlc as <-.
    + rewrite lookup_insert_ne in Hlc by done.
      intros Hin. apply (Hout l c' Hlc). rewrite Hperm. by right.
  - intros l1 l2 c' H1 H2.
    assert (Hc' : forall l, d !! l = Some c -> False).
    { intros l Hlc. apply (Hout l c Hlc). rewrite Hperm. left. }
    destruct (decide (l1 = label)) as [->|Hne1],
      (decide (l2 = label)) as [->|Hne2]; [done| | |].
    + rewrite lookup_insert_eq in H1. injection H1 as <-.
      rewrite lookup_insert_ne in H2 by done. by destruct (Hc' l2).
    + rewrite lookup_insert_eq in H2. injection H2 as <-.
      rewrite lookup_insert_ne in H1 by done. by destruct (Hc' l1).
    + rewrite lookup_insert_ne in H1, H2 by done. by eapply Hinj.
Qed.

(** X3.  From a palette of at least 16 pairwise distinct colours no
    colour is designated to two slots: every slot is filled by a pop. *)
Theorem assign_palette_sixteen_distinct (self : Theme) (h : heap)
    (p : list colour) (d : gmap string colour) :
  h !! palette self = Some p -> (assign_palette self h).1 = Ok d ->
  NoDup p -> (16 <= length p)%nat ->
  distinct_colours d.
Proof.
  intros Hp Hrun Hnd Hlen.
  destruct (assign_palette_Ok _ _ _ _ Hp Hrun) as (slots & Ho & Hfun).
  destruct (order_labels _ _ Ho) as [Hl _].
  eapply assign_fun_pop_distinct; [| | | | | |exact Hfun].
  - apply (f_equal length) in Hl. rewrite length_fmap in Hl.
    rewrite Hl. cbn. lia.
  - done.
  - rewrite Hl. apply slot_labels_NoDup.
  - intros l _. apply lookup_empty.
  - intros l c H1. by rewrite lookup_empty in H1.
  - intros l1 l2 c H1. by rewrite lookup_empty in H1.
Qed.

(** With no more colours than slots, every palette colour ends up on a
    slot. *)
Lemma assign_fun_uses_all (slots : list (string * string)) :
  forall (p : list colour) (d d' : gmap string colour) (c : colour),
  (length p <= length slots)%nat -> NoDup slots.*1 ->
  (forall l, l ∈ slots.*1 -> d !! l = None) ->
  assign_fun slots p d = Ok d' ->
  c ∈ p \/ (exists l, d !! l = Some c) -> exists l, d' !! l = Some c.
Proof.
  induction slots as [|[label mn] slots IH];
    intros p d d' c Hlen Hlabels Hfresh.
  { intros [= <-] [Hc|Hc]; [|done]. destruct p; [|cbn in Hlen; lia].
    by apply elem_of_nil in Hc. }
  intros (key & rest & c0 & _ & Hstep & Hrun)%assign_fun_cons_Ok Hc.
  cbn in Hlabels. apply NoDup_cons in Hlabels as [Hl Hlabels].
  eapply IH; [| | |exact Hrun|]; try done.
  - destruct Hstep as [Hs|(_ & -> & _)]; [|cbn; lia].
    apply pop_permutation, Permutation_length in Hs. cbn in Hlen, Hs. lia.
  - intros l Hin. rewrite lookup_insert_ne by (intros ->; done).
    apply Hfresh. cbn. by right.
  - assert (Hkeep : forall l, d !! l = Some c ->
                      exists l', <[label := c0]> d !! l' = Some c).
    { intros l Hlc. exists l. rewrite lookup_insert_ne; [done|].
      intros ->. rewrite Hfresh in Hlc; [done|]. cbn. left. }
    destruct Hc as [Hc|[l Hlc]]; [|right; by eapply Hkeep].
    destruct Hstep as [Hs|(-> & _)]; [|by apply elem_of_nil in Hc].
    rewrite (pop_permutation _ _ _ _ Hs) in Hc.
    apply elem_of_cons in Hc as [->|Hc]; [right|by left].
    exists label. apply lookup_insert_eq.
Qed.

(** X4.  With at most 16 colours in the palette none is left over: every
    palette colour is designated to some slot. *)
Theorem assign_palette_uses_every_colour (self : Theme) (h : heap)
    (p : list colour) (d : gmap string colour) :
  h !! palette self = Some p -> (assign_palette self h).1 = Ok d ->
  (length p <= 16)%nat ->
  forall c, c ∈ p -> exists label, d !! label = Some c.
Proof.
  intros Hp Hrun Hlen c Hc.
  destruct (assign_palette_Ok _ _ _ _ Hp Hrun) as (slots & Ho & Hfun).
  destruct (order_labels _ _ Ho) as [Hl _].
  eapply assign_fun_uses_all; [| | |exact Hfun|by left].
  - apply (f_equal length) in Hl. rewrite length_fmap in Hl.
    rewrite Hl. cbn. lia.
  - rewrite Hl. apply slot_labels_NoDup.
  - intros l _. apply lookup_empty.
Qed.

(** With the palette exhausted, a slot whose reuse entry names one slot
    gets that slot's colour. *)
Lemma assign_fun_copy (slots : list (string * string)) :
  forall (d d' : gmap string colour) (label o : string),
  assign_fun slots [] d = Ok d' -> NoDup slots.*1 ->
  label ∈ slots.*1 -> reuse_palette !! label = Some (reuse_copy o) ->
  o ∉ slots.*1 ->
  d' !! label = d' !! o /\ is_Some (d' !! o).
Proof.
  induction slots as [|[l mn] slots IH]; intros d d' label o.
  { intros _ _ Hin. by apply elem_of_nil in Hin. }
  intros (key & rest & c & _ & Hstep & Hrun)%assign_fun_cons_Ok.
  destruct Hstep as [Hs|(_ & -> & entry & He & Hpref)].
  { rewrite sorted_nil in Hs. by destruct rest. }
  rewrite fmap_cons. cbn [fst].
  intros [Hl Hnd]%NoDup_cons Hin Hre [Hol Ho]%not_elem_of_cons.
  apply elem_of_cons in Hin as [->|Hin].
  - rewrite Hre in He. injection He as <-.
    apply get_preference_Ok in Hpref.
    rewrite (assign_fun_keeps _ _ _ _ l Hrun Hl), lookup_insert_eq.
    rewrite (assign_fun_keeps _ _ _ _ o Hrun Ho), lookup_insert_ne by done.
    by rewrite Hpref.
  - by eapply IH.
Qed.

(** The same for an entry that names several slots and a metric: the
    slot gets the colour of one of them, of least score. *)
Lemma assign_fun_best (slots : list (string * string)) :
  forall (d d' : gmap string colour) (label mn' : string) (os : list string),
  assign_fun slots [] d = Ok d' -> NoDup slots.*1 ->
  label ∈ slots.*1 -> reuse_palette !! label = Some (reuse_best os mn') ->
  Forall (fun o => o ∉ slots.*1) os ->
  exists o c key,
    o ∈ os /\ d' !! label = Some c /\ d' !! o = Some c
    /\ metrics !! mn' = Some key
    /\ forall o' c', o' ∈ os -> d' !! o' = Some c' ->
         score key c <= score key c'.
Proof.
  induction slots as [|[l mn] slots IH]; intros d d' label mn' os.
  { intros _ _ Hin. by apply elem_of_nil in Hin. }
  intros (key & rest & c & _ & Hstep & Hrun)%assign_fun_cons_Ok.
  destruct Hstep as [Hs|(_ & -> & entry & He & Hpref)].
  { rewrite sorted_nil in Hs. by destruct rest. }
  rewrite fmap_cons. cbn [fst]. intros [Hl Hnd]%NoDup_cons Hin Hre Hos.
  assert (Hos' : Forall (fun o => o ∉ (slots.*1) /\ o <> l) os).
  { eapply Forall_impl; [exact Hos|]. cbn beta.
    intros o [? ?]%not_elem_of_cons. done. }
  apply elem_of_cons in Hin as [->|Hin].
  2:{ eapply IH; try done. eapply Forall_impl; [exact Hos'|]. cbn. tauto. }
  rewrite Hre in He. injection He as <-. clear IH.
  cbn [get_preference] in Hpref.
  destruct (mapM (dict_get d) os) as [cs|] eqn:Hcs; [|done].
  cbn [mbind result_bind] in Hpref.
  destruct (dict_get metrics mn') as [key'|] eqn:Hkey'; [|done].
  cbn [mbind result_bind] in Hpref. apply dict_get_Ok in Hkey'.
  rewrite (sorted_raising_metric mn') in Hpref by done.
  cbn [mbind result_bind] in Hpref.
  apply mapM_dict_get_Ok in Hcs.
  destruct (sorted_stable_sort (score key') cs) as [Hsorted _].
  destruct (sorted (score key') cs) as [|c0 tl] eqn:Hsort; [done|].
  injection Hpref as ->.
  apply StronglySorted_inv in Hsorted as [_ Hmin].
  assert (Hall : forall x, x ∈ cs -> score key' c <= score key' x).
  { intros x Hx. apply (sorted_elem_of (score key')) in Hx.
    rewrite Hsort in Hx. rewrite Forall_forall in Hmin.
    apply elem_of_cons in Hx as [->|Hx]; [lia|by apply Hmin]. }
  assert (Hc : c ∈ cs).
  { apply (sorted_elem_of (score key')). rewrite Hsort. left. }
  assert (Hlook : forall o, o ∈ os -> d' !! o = d !! o).
  { intros o Ho. rewrite Forall_forall in Hos'. destruct (Hos' o Ho).
    rewrite (assign_fun_keeps _ _ _ _ o Hrun) by done.
    by apply lookup_insert_ne. }
  apply list_elem_of_lookup in Hc as [i Hi].
  destruct (Forall2_lookup_r _ _ _ _ _ Hcs Hi) as (o & Ho & Hoc).
  assert (Hoin : o ∈ os) by (by eapply list_elem_of_lookup_2).
  exists o, c, key'. split_and!; try done.
  - rewrite (assign_fun_keeps _ _ _ _ l Hrun Hl). apply lookup_insert_eq.
  - by rewrite Hlook.
  - intros o' c' Ho' Hc'. rewrite Hlook in Hc' by done.
    apply Hall. apply list_elem_of_lookup in Ho' as [j Hj].
    destruct (Forall2_lookup_l _ _ _ _ _ Hcs Hj) as (c'' & Hc'' & Hd).
    rewrite Hc' in Hd. injection Hd as <-. by eapply list_elem_of_lookup_2.
Qed.

(** The first slots of a successful run, as many as the palette has
    colours, are pops; what follows runs on the rest of the palette. *)
Lemma assign_fun_app_Ok (slots1 slots2 : list (string * string)) :
  forall (p : list colour) (d d' : gmap string colour),
  assign_fun (slots1 ++ slots2) p d = Ok d' ->
  (length slots1 <= length p)%nat ->
  exists p1 d1,
    length p1 = (length p - length slots1)%nat
    /\ assign_fun slots2 p1 d1 = Ok d'.
Proof.
  induction slots1 as [|[label mn] slots1 IH]; intros p d d' Hrun Hlen.
  { exists p, d. split; [cbn; lia|done]. }
  cbn [app] in Hrun. apply assign_fun_cons_pop in Hrun
    as (key & rest & c & _ & Hs & Hrun);
    [|left; intros ->; cbn in Hlen; lia].
  apply pop_permutation, Permutation_length in Hs. cbn in Hs, Hlen.
  destruct (IH _ _ _ Hrun) as (p1 & d1 & Hp1 & Hrun1); [lia|].
  exists p1, d1. split; [cbn; lia|done].
Qed.

(** The same for a run that need not succeed. *)
Lemma assign_fun_pops (slots1 slots2 : list (string * string)) :
  forall (p : list colour) (d : gmap string colour),
  (length slots1 <= length p)%nat ->
  Forall (fun s => is_Some (metrics !! s.2)) slots1 ->
  exists p1 d1,
    length p1 = (length p - length slots1)%nat
    /\ assign_fun (slots1 ++ slots2) p d = assign_fun slots2 p1 d1.
Proof.
  induction slots1 as [|[label mn] slots1 IH]; intros p d Hlen Hm.
  { exists p, d. split; [cbn; lia|done]. }
  apply Forall_cons in Hm as [Hmn Hm]. cbn in Hlen, Hmn.
  destruct (assign_fun_pop label mn (slots1 ++ slots2) p d)
    as (rest & c & Hrest & Hstep);
    [done|intros ->; cbn in Hlen; lia|].
  destruct (IH rest (<[label := c]> d)) as (p1 & d1 & Hp1 & Hrun);
    [lia|done|].
  exists p1, d1. cbn [app]. rewrite Hstep, Hrun. split; [cbn; lia|done].
Qed.

Lemma list_nil_length {A} (l : list A) : length l = 0%nat -> l = [].
Proof. by destruct l. Qed.

Local Ltac in_labels := cbn; repeat constructor.

Local Ltac nodup_labels :=
  cbn;
  repeat (apply NoDup_cons; split;
          [repeat (apply not_elem_of_cons; split; [discriminate|]);
           apply not_elem_of_nil|]);
  apply NoDup_nil_2.

(** X5.  With exactly 8 colours the eight extra slots are all reused
    colours: color19, color20, color21, color15, color16, color17 repeat
    color04, color07, color00, color01, color06, color02; color18 repeats
    the accent (color01..color06) of least channel sum and color08 the
    accent of greatest channel sum. *)
Theorem assign_palette_eight_colours_reuse (self : Theme) (h : heap)
    (p : list colour) (d : gmap string colour) :
  h !! palette self = Some p -> (assign_palette self h).1 = Ok d ->
  length p = 8%nat ->
  d !! "color19" = d !! "color04" /\ d !! "color20" = d !! "color07"
  /\ d !! "color21" = d !! "color00" /\ d !! "color15" = d !! "color01"
  /\ d !! "color16" = d !! "color06" /\ d !! "color17" = d !! "color02"
  /\ (exists o c,
        o ∈ accents /\ d !! "color18" = Some c /\ d !! o = Some c
        /\ forall o' c', o' ∈ accents -> d !! o' = Some c' -> sum c <= sum c')
  /\ (exists o c,
        o ∈ accents /\ d !! "color08" = Some c /\ d !! o = Some c
        /\ forall o' c', o' ∈ accents -> d !! o' = Some c' -> sum c' <= sum c).
Proof.
  intros Hp Hrun Hlen.
  destruct (assign_palette_Ok _ _ _ _ Hp Hrun) as (slots & Ho & Hfun).
  assert (exists slots2 d1,
            slots2.*1 = drop 8 slot_labels
            /\ assign_fun slots2 [] d1 = Ok d) as (slots2 & d1 & Hl2 & Hrun2).
  { destruct (dark self);
      [rewrite order_dark in Ho|rewrite order_light in Ho];
      injection Ho as <-.
    all: match type of Hfun with
         | assign_fun ?l _ _ = _ =>
             change l with (take 8 l ++ drop 8 l) in Hfun
         end.
    all: apply assign_fun_app_Ok in Hfun as (p1 & d1 & Hp1 & Hrun1);
      [|cbn; lia].
    all: cbn in Hp1; rewrite Hlen in Hp1; apply list_nil_length in Hp1;
      subst p1.
    all: eexists _, d1; (split; [|exact Hrun1]); reflexivity. }
  assert (Hnd : NoDup (drop 8 slot_labels)) by nodup_labels.
  assert (Hcopy : forall label o,
            label ∈ drop 8 slot_labels ->
            reuse_palette !! label = Some (reuse_copy o) ->
            o ∉ drop 8 slot_labels -> d !! label = d !! o).
  { intros label o Hin Hre Hnot.
    destruct (assign_fun_copy slots2 d1 d label o) as [E _];
      rewrite ?Hl2; done. }
  split_and!; try (apply Hcopy; [in_labels|reflexivity|notin_labels]).
  - destruct (assign_fun_best slots2 d1 d "color18" "light" accents)
      as (o & c & key & Hoin & Hc & Hoc & Hkey & Hmin);
      rewrite ?Hl2; try done; [in_labels| |].
    { repeat (apply Forall_cons; split; [notin_labels|]).
      apply Forall_nil_2. }
    exists o, c. split_and!; try done. intros o' c' Ho' Hc'.
    specialize (Hmin o' c' Ho' Hc').
    by rewrite !(score_light _ _ Hkey) in Hmin.
  - destruct (assign_fun_best slots2 d1 d "color08" "dark" accents)
      as (o & c & key & Hoin & Hc & Hoc & Hkey & Hmin);
      rewrite ?Hl2; try done; [in_labels| |].
    { repeat (apply Forall_cons; split; [notin_labels|]).
      apply Forall_nil_2. }
    exists o, c. split_and!; try done. intros o' c' Ho' Hc'.
    specialize (Hmin o' c' Ho' Hc').
    rewrite !(score_dark _ _ Hkey) in Hmin. lia.
Qed.

(** X6.  With fewer than 8 colours [assign_palette] raises [KeyError],
    and the key is the primary slot at which the palette runs out: the
    slot at position [length p] of the order. *)
Theorem assign_palette_short_palette_raises (self : Theme) (h : heap)
    (p : list colour) :
  h !! palette self = Some p -> (length p < 8)%nat ->
  exists label h',
    primary !! length p = Some label
    /\ assign_palette self h = (Raise (KeyError label), h').
Proof.
  intros Hp Hlen.
  destruct (assign_palette_run self h p Hp) as (h' & -> & _).
  assert (exists label,
            primary !! length p = Some label
            /\ (slots ← dict_get order (if dark self then "dark" else "light");
                assign_fun slots p ∅) = Raise (KeyError label))
    as (label & Hlabel & ->); [|by exists label, h'].
  destruct (dark self); [rewrite order_dark|rewrite order_light];
    cbn [mbind result_bind].
  all: match goal with
       | |- context [assign_fun ?l ?q ∅] =>
           rewrite <- (take_drop (length q) l)
       end.
  all: match goal with
       | |- context [assign_fun (?l1 ++ ?l2) ?q ∅] =>
           destruct (assign_fun_pops l1 l2 q ∅) as (p1 & d1 & Hp1 & ->)
       end.
  all: try (rewrite length_take; cbn; lia).
  all: try (apply Forall_take;
            repeat (apply Forall_cons; split; [eexists; reflexivity|]);
            apply Forall_nil_2).
  all: rewrite length_take in Hp1; cbn [length] in Hp1;
    assert (p1 = []) as -> by (apply list_nil_length; lia); clear Hp1.
  all: destruct (length p) as [|[|[|[|[|[|[|[|n]]]]]]]]; [..|lia];
    eexists; (split; [reflexivity|]); reflexivity.
Qed.

(** *** [get_palette] *)

Lemma third_gt (s k : Z) : (inject_Z k < inject_Z s / 3)%Q <-> 3 * k < s.
Proof.
  rewrite (Zlt_Qlt (3 * k) s), inject_Z_mult.
  assert (E : (inject_Z s / 3 * 3 == inject_Z s)%Q) by field.
  change (inject_Z 3) with 3%Q. split; intros H; lra.
Qed.

Lemma third_lt (s k : Z) : (inject_Z s / 3 < inject_Z k)%Q <-> s < 3 * k.
Proof.
  rewrite (Zlt_Qlt s (3 * k)), inject_Z_mult.
  assert (E : (inject_Z s / 3 * 3 == inject_Z s)%Q) by field.
  change (inject_Z 3) with 3%Q. split; intros H; lra.
Qed.

(** What a successful [filter_palette] returns. *)
Lemma filter_palette_Ok (dark : bool) (colours : list colour) (retries : nat)
    (res : list colour) (log : list string) :
  filter_palette dark colours retries = Ok (res, log) ->
  (8 <= length res)%nat /\ forall c, c ∈ res -> c ∈ colours.
Proof.
  rewrite filter_palette_last. intros Hres.
  destruct (last _) as [[m c]|] eqn:Hlast; [|done].
  apply last_round_pass in Hlast as (_ & Hsub & _).
  assert (Hin : forall x, x ∈ c -> x ∈ colours).
  { intros x Hx. eapply sorted_elem_of, elem_of_sublist; done. }
  destruct (length c =? 16)%nat eqn:E16.
  - apply Nat.eqb_eq in E16. injection Hres as <- <-. split; [lia|done].
  - destruct (length c <? 8)%nat eqn:E8; [done|]. apply Nat.ltb_ge in E8.
    by injection Hres as <- <-.
Qed.

Lemma within_boundaries_true (lower_bound upper_bound : option Q)
    (c : colour) :
  within_boundaries lower_bound upper_bound c = true
  <-> (forall l, lower_bound = Some l -> (l < inject_Z (sum c) / 3)%Q)
      /\ (forall u, upper_bound = Some u -> (inject_Z (sum c) / 3 < u)%Q).
Proof.
  unfold within_boundaries. rewrite andb_true_iff.
  destruct lower_bound as [l|], upper_bound as [u|];
    rewrite ?Qgtb_true; split; intros [H1 H2]; split; try done.
  all: try (by intros ? [= <-]).
  all: try (by apply H1).
  all: by apply H2.
Qed.

(** X7.  Every colour [get_palette] returns is one of the colours the
    image gave and lies strictly inside the darkness boundaries in
    force. *)
Theorem get_palette_within_boundaries (dark : bool) (thief_palette : list colour)
    (darkness_boundaries : option (list (option Q)))
    (p : list colour) (log : list string) :
  get_palette dark thief_palette darkness_boundaries = Ok (p, log) ->
  exists lower_bound upper_bound,
    match darkness_boundaries with
    | None => if dark then [Some 25%Q; None] else [None; Some 225%Q]
    | Some boundaries => boundaries
    end = [lower_bound; upper_bound]
    /\ forall c, c ∈ p ->
         c ∈ thief_palette
         /\ (forall l, lower_bound = Some l -> (l < inject_Z (sum c) / 3)%Q)
         /\ (forall u, upper_bound = Some u -> (inject_Z (sum c) / 3 < u)%Q).
Proof.
  unfold get_palette.
  destruct (match darkness_boundaries with None => _ | Some b => b end)
    as [|lower_bound [|upper_bound [|? ?]]]; try done.
  intros [_ Hin]%filter_palette_Ok. exists lower_bound, upper_bound.
  split; [done|]. intros c Hc%Hin.
  apply list_elem_of_In, filter_In in Hc as [Hc Hb].
  apply list_elem_of_In in Hc. by apply within_boundaries_true in Hb.
Qed.

(** X8.  With the default boundaries a dark theme has no colour of
    channel sum 75 or less, and a light theme none of 675 or more. *)
Theorem get_palette_default_brightness (dark : bool)
    (thief_palette p : list colour) (log : list string) :
  get_palette dark thief_palette None = Ok (p, log) ->
  forall c, c ∈ p -> if dark then 75 < sum c else sum c < 675.
Proof.
  unfold get_palette. destruct dark.
  all: intros [_ Hin]%filter_palette_Ok c Hc%Hin.
  all: apply list_elem_of_In, filter_In in Hc as [_ Hb].
  all: apply within_boundaries_true in Hb as [Hl Hu].
  - specialize (Hl _ eq_refl). apply (proj1 (third_gt (sum c) 25)) in Hl. cbv iota. lia.
  - specialize (Hu _ eq_refl). apply (proj1 (third_lt (sum c) 225)) in Hu. cbv iota. lia.
Qed.

(** X9.  The two steps of [Theme.__init__]: a palette that [get_palette]
    returned is always assigned, to every slot of the catalog, with
    colours of the image only. *)
Theorem get_palette_assign_palette (self : Theme) (h : heap)
    (thief_palette : list colour)
    (darkness_boundaries : option (list (option Q)))
    (p : list colour) (log : list string) :
  get_palette (dark self) thief_palette darkness_boundaries = Ok (p, log) ->
  h !! palette self = Some p ->
  exists d,
    (assign_palette self h).1 = Ok d
    /\ dom d = list_to_set catalog
    /\ forall label c, d !! label = Some c -> c ∈ thief_palette.
Proof.
  intros Hget Hp.
  assert ((8 <= length p)%nat /\ forall c, c ∈ p -> c ∈ thief_palette)
    as [Hlen Hin].
  { unfold get_palette in Hget.
    destruct (match darkness_boundaries with None => _ | Some b => b end)
      as [|lower_bound [|upper_bound [|? ?]]]; try done.
    apply filter_palette_Ok in Hget as [Hlen Hin]. split; [done|].
    intros c Hc%Hin. apply list_elem_of_In, filter_In in Hc as [Hc _].
    by apply list_elem_of_In. }
  destruct (assign_palette_run self h p Hp) as (h' & E & _).
  destruct (assign_fun_covers (dark self) p Hlen) as (d & Hd & Hdom).
  exists d. rewrite E, Hd. split; [done|]. split; [done|].
  destruct (dict_get order _) as [slots|] eqn:Ho; [|done].
  cbn [mbind result_bind] in Hd.
  eapply (assign_fun_Forall (fun c => c ∈ thief_palette)) in Hd.
  - intros label c Hc. by apply (Hd label).
  - by apply Forall_forall.
  - apply map_Forall_empty.
Qed.

(** *** [save] and [replace] *)

Lemma channels_in_range (r g b : Z) :
  forallb (fun colour => (0 <=? colour) && (colour <? 256)) [r; g; b] = true
  <-> in_range (r, g, b).
Proof. cbn. rewrite !andb_true_iff. lia. Qed.

Lemma _rgb_to_hex_Ok (r g b : Z) (separator : string) :
  in_range (r, g, b) ->
  _rgb_to_hex r g b separator
  = Ok (String (hex_digit (r / 16)) (String (hex_digit (r mod 16)) separator)
        +:+ String (hex_digit (g / 16)) (String (hex_digit (g mod 16)) separator)
        +:+ String (hex_digit (b / 16)) (String (hex_digit (b mod 16)) "")).
Proof.
  intros Hr. unfold _rgb_to_hex.
  rewrite (proj2 (channels_in_range r g b) Hr).
  destruct Hr as (Hr & Hg & Hb). cbn [fmap list_fmap String.concat].
  by rewrite !channel_code by done.
Qed.

Lemma _rgb_to_hex_Raise (r g b : Z) (separator : string) :
  ~ in_range (r, g, b) -> _rgb_to_hex r g b separator = Raise AssertionError.
Proof.
  intros Hr. unfold _rgb_to_hex.
  destruct (forallb _ _) eqn:E; [|done]. by apply channels_in_range in E.
Qed.

Lemma in_range_dec (c : colour) : {in_range c} + {~ in_range c}.
Proof.
  destruct c as [[r g] b]. unfold in_range.
  destruct (decide (0 <= r < 256 /\ 0 <= g < 256 /\ 0 <= b < 256)); auto.
Qed.

Lemma hex_digit_not_slash (d : Z) : hex_digit d <> "/"%char.
Proof.
  destruct d as [|p|p]; try discriminate.
  do 4 (try (destruct p as [p|p|]; try discriminate)).
Qed.

Lemma replace_slash_digit (d : Z) (s : string) :
  replace_from "/" "" 0 (String (hex_digit d) s)
  = String (hex_digit d) (replace_from "/" "" 0 s).
Proof.
  cbn [replace_from String.prefix]. destruct (ascii_dec _ _) as [E|]; [|done].
  by destruct (hex_digit_not_slash d).
Qed.

Lemma replace_slash_slash (s : string) :
  replace_from "/" "" 0 (String "/" s) = replace_from "/" "" 0 s.
Proof.
  cbn [replace_from String.prefix]. destruct (ascii_dec _ _); [|done].
  by destruct s.
Qed.

(** X11.  Taking the slashes out of the slash-separated code, as [save]
    does for the vim file, gives the code with the empty separator; the
    two calls fail on the same colours. *)
Theorem hexcode_without_slashes (r g b : Z) :
  (hexcode ← _rgb_to_hex r g b "/"; mret (replace "/" "" hexcode))
  = _rgb_to_hex r g b "".
Proof.
  destruct (in_range_dec (r, g, b)) as [Hr|Hr].
  - rewrite !_rgb_to_hex_Ok by done. cbn [mbind result_bind mret result_ret].
    f_equal. unfold replace. cbv [String.append].
    by repeat first [rewrite replace_slash_digit|rewrite replace_slash_slash].
  - by rewrite !_rgb_to_hex_Raise.
Qed.

(** [replace] leaves a text alone in which the first character of [old]
    does not occur. *)
Lemma replace_absent (a : ascii) (old new s : string) :
  (forall i, String.get i s <> Some a) ->
  replace (String a old) new s = s.
Proof.
  unfold replace. induction s as [|c s IH]; [done|]. intros Hs.
  cbn [replace_from String.prefix].
  destruct (ascii_dec a c) as [->|_].
  - by destruct (Hs 0%nat).
  - f_equal. apply IH. intros i. apply (Hs (S i)).
Qed.

Lemma save_loop_Ok (items : list (string * colour)) :
  forall vim shell,
  Forall (fun item => in_range item.2) items ->
  exists vim' shell',
    save_loop items vim shell = Ok (vim', shell')
    /\ (vim = None -> vim' = None) /\ (shell = None -> shell' = None).
Proof.
  induction items as [|[label [[r g] b]] items IH]; intros vim shell Hall.
  { by exists vim, shell. }
  apply Forall_cons in Hall as [Hr Hall]. cbn [save_loop snd] in *.
  rewrite _rgb_to_hex_Ok by done. cbn [mbind result_bind].
  match goal with
  | |- context [save_loop items ?v ?s] =>
      destruct (IH v s Hall) as (vim' & shell' & -> & Hv & Hs)
  end.
  exists vim', shell'. split; [done|].
  split; intros ->; [by apply Hv|by apply Hs].
Qed.

Lemma save_loop_Raise (items : list (string * colour)) :
  forall vim shell,
  ~ Forall (fun item => in_range item.2) items ->
  save_loop items vim shell = Raise AssertionError.
Proof.
  induction items as [|[label [[r g] b]] items IH]; intros vim shell Hall.
  { destruct Hall. apply Forall_nil_2. }
  cbn [save_loop].
  destruct (in_range_dec (r, g, b)) as [Hr|Hr].
  - rewrite _rgb_to_hex_Ok by done. cbn [mbind result_bind].
    apply IH. intros Hitems. apply Hall. by apply Forall_cons.
  - by rewrite _rgb_to_hex_Raise.
Qed.

(** X12.  [save] returns, rather than raises, exactly when there is a
    designation, a target is selected and every designated colour has
    its channels in [0, 256); a target that is not selected is never
    written. *)
Theorem save_returns_iff (designations : list (string * colour))
    (theme_name : string) (vim shell : bool) (vim_txt shell_txt : string) :
  (exists written,
     save designations theme_name vim shell vim_txt shell_txt = Ok written
     /\ (vim = false -> written.1 = None)
     /\ (shell = false -> written.2 = None))
  <-> designations <> []
      /\ (vim = true \/ shell = true)
      /\ Forall (fun item => in_range item.2) designations.
Proof.
  unfold save. split.
  - intros (written & Hsave & _).
    destruct designations as [|item items]; [done|]. split; [done|].
    cbn [truthy negb] in Hsave.
    destruct (vim || shell) eqn:Ht; [|done]. cbn [negb] in Hsave.
    split; [destruct vim, shell; auto; done|].
    destruct (decide (Forall (fun item => in_range item.2) (item :: items)))
      as [|Hbad]; [done|].
    by rewrite (save_loop_Raise _ _ _ Hbad) in Hsave.
  - intros (Hne & Ht & Hall).
    destruct designations as [|item items]; [done|]. cbn [truthy negb].
    replace (vim || shell) with true by (destruct Ht as [-> | ->]; [done|by destruct vim]).
    cbn [negb].
    match goal with
    | |- context [save_loop _ ?v ?s] =>
        destruct (save_loop_Ok (item :: items) v s Hall)
          as (vim' & shell' & -> & Hv & Hs)
    end.
    cbn [mbind result_bind]. eexists. split; [done|]. cbn [fst snd].
    split; intros ->.
    + by rewrite Hv.
    + by rewrite Hs.
Qed.

(** X13.  The exception [save] raises, by precedence: no designation, no
    target, then a channel out of range; nothing is written in any of
    these cases. *)
Theorem save_raises (designations : list (string * colour))
    (theme_name : string) (vim shell : bool) (vim_txt shell_txt : string) :
  ~ (designations <> []
     /\ (vim = true \/ shell = true)
     /\ Forall (fun item => in_range item.2) designations) ->
  save designations theme_name vim shell vim_txt shell_txt
  = Raise (if decide (designations = [])
           then ValueError "No colours designated"
           else if negb (vim || shell)
           then ValueError "Must select at least one or 'shell' or 'vim'"
           else AssertionError).
Proof.
  intros Hnot. unfold save.
  destruct designations as [|item items]; [done|]. cbn [truthy negb].
  rewrite decide_False by done.
  destruct (vim || shell) eqn:Ht; [|done]. cbn [negb].
  rewrite save_loop_Raise; [done|]. intros Hall. apply Hnot.
  split; [done|]. split; [|done]. destruct vim, shell; auto.
Qed.

Lemma str_truthy_false (s : string) : str_truthy s = false -> s = "".
Proof. by destruct s. Qed.

Lemma save_loop_absent (items : list (string * colour)) :
  forall vim shell,
  Forall (fun item => in_range item.2) items ->
  (forall text i, vim = Some text -> String.get i text <> Some "_"%char) ->
  (forall text i, shell = Some text -> String.get i text <> Some "_"%char) ->
  save_loop items vim shell = Ok (vim, shell).
Proof.
  induction items as [|[label [[r g] b]] items IH]; intros vim shell Hall Hv Hs.
  { done. }
  apply Forall_cons in Hall as [Hr Hall]. cbn [save_loop snd] in *.
  rewrite _rgb_to_hex_Ok by done. cbn [mbind result_bind].
  assert (forall (o : option string) (f : string -> string),
            (forall text i, o = Some text -> String.get i text <> Some "_"%char) ->
            (forall text, (forall i, String.get i text <> Some "_"%char) ->
                          f text = text) ->
            match o with
            | Some text => if str_truthy text then Some (f text) else o
            | None => None
            end = o) as Hsame.
  { intros [text|] f Ho Hf; [|done].
    destruct (str_truthy text); [|done]. f_equal. apply Hf.
    intros i. by apply Ho. }
  rewrite (Hsame shell), (Hsame vim); try done.
  - by apply IH.
  - intros text Ht. change ("__hashed_" +:+ label +:+ "__")
      with (String "_" ("_hashed_" +:+ label +:+ "__")).
    change ("__" +:+ label +:+ "__") with (String "_" ("_" +:+ label +:+ "__")).
    rewrite (replace_absent "_" ("_" +:+ label +:+ "__") _ text) by done.
    by rewrite replace_absent.
  - intros text Ht.
    change ("__" +:+ label +:+ "__") with (String "_" ("_" +:+ label +:+ "__")).
    by rewrite replace_absent.
Qed.

(** X14.  A template without an underscore has no placeholder: [save]
    writes it as it is (and does not write an empty one). *)
Theorem save_template_without_placeholder
    (designations : list (string * colour)) (theme_name : string)
    (vim shell : bool) (vim_txt shell_txt : string) :
  designations <> [] -> (vim = true \/ shell = true) ->
  Forall (fun item => in_range item.2) designations ->
  (forall i, String.get i vim_txt <> Some "_"%char) ->
  (forall i, String.get i shell_txt <> Some "_"%char) ->
  save designations theme_name vim shell vim_txt shell_txt
  = Ok (if vim && str_truthy vim_txt then Some vim_txt else None,
        if shell && str_truthy shell_txt then Some shell_txt else None).
Proof.
  intros Hne Ht Hall Hv Hs. unfold save.
  destruct designations as [|item items]; [done|]. cbn [truthy negb].
  replace (vim || shell) with true by (destruct Ht as [-> | ->]; [done|by destruct vim]).
  cbn [negb].
  change "__theme_name__" with (String "_" "_theme_name__").
  change "__theme__name__" with (String "_" "_theme__name__").
  rewrite !replace_absent by done.
  rewrite save_loop_absent; try done.
  - cbn [mbind result_bind]. by destruct vim, shell.
  - intros text i E. destruct vim; [|done]. by injection E as <-.
  - intros text i E. destruct shell; [|done]. by injection E as <-.
Qed.

(** *** Rendering, and the [save] of sweet16.py *)

Lemma _render_channels_Ok (c : colour) :
  in_range c -> _render_channels c = Ok c.
Proof.
  destruct c as [[r g] b]. intros (Hr & Hg & Hb).
  destruct (nibbles r Hr) as [Hr1 Hr2], (nibbles g Hg) as [Hg1 Hg2],
    (nibbles b Hb) as [Hb1 Hb2].
  destruct (hex_value_digit _ Hr1) as [_ Ur1],
    (hex_value_digit _ Hr2) as [_ Ur2], (hex_value_digit _ Hg1) as [_ Ug1],
    (hex_value_digit _ Hg2) as [_ Ug2], (hex_value_digit _ Hb1) as [_ Ub1],
    (hex_value_digit _ Hb2) as [_ Ub2].
  unfold _render_channels. rewrite _rgb_to_hex_Ok by done.
  cbv [String.append]. cbn [mbind result_bind upper]. unfold int16.
  rewrite (int16_digits_cons _ _ _ _ Ur1), (int16_digits_cons _ _ _ _ Ur2),
    (int16_digits_cons _ _ _ _ Ug1), (int16_digits_cons _ _ _ _ Ug2),
    (int16_digits_cons _ _ _ _ Ub1), (int16_digits_cons _ _ _ _ Ub2).
  cbn [int16_digits mbind mret result_bind result_ret]. f_equal.
  by apply (unpack_channels r g b).
Qed.

Lemma render_Ok (items : list (string * colour)) :
  Forall (fun item => in_range item.2) items -> render items = Ok items.
Proof.
  unfold render. induction 1 as [|[label c] items Hc Hall IH]; [done|].
  cbn [mapM]. cbn [snd fst] in *. rewrite (_render_channels_Ok c Hc).
  cbn [mbind result_bind mret result_ret]. by rewrite IH.
Qed.

(** X10.  When the palette holds colours with channels in [0, 256),
    rendering the designations [assign_palette] returned never fails,
    and the numbers put into each escape sequence are the channels of
    the designated colour. *)
Theorem render_designations (self : Theme) (h : heap) (p : list colour)
    (d : gmap string colour) (items : list (string * colour)) :
  h !! palette self = Some p -> (assign_palette self h).1 = Ok d ->
  Forall in_range p ->
  (forall label c, (label, c) ∈ items -> d !! label = Some c) ->
  render items = Ok items.
Proof.
  intros Hp Hrun Hall Hitems. apply render_Ok.
  destruct (assign_palette_Ok _ _ _ _ Hp Hrun) as (slots & _ & Hfun).
  eapply (assign_fun_Forall in_range) in Hfun;
    [|done|apply map_Forall_empty].
  apply Forall_forall. intros [label c] Hin. cbn [snd].
  apply (Hfun label), Hitems, Hin.
Qed.

(** X29.  sweet16.py's [save] never writes the shell file: it returns
    only when [vim] is selected and [shell] is not, so with its default
    arguments (both selected) it always raises. *)
Theorem sweet16_save_never_writes_shell
    (designations : list (string * colour)) (theme_name : string)
    (vim shell : bool) (vim_txt shell_txt : string)
    (written : option string * option string) :
  sweet16.save designations theme_name vim shell vim_txt shell_txt
  = Ok written ->
  vim = true /\ shell = false /\ written.2 = None.
Proof.
  unfold sweet16.save.
  destruct (negb (truthy designations)); [done|].
  destruct vim, shell; try done. cbn [negb orb].
  destruct (decide (Forall (fun item => in_range item.2) designations))
    as [Hall|Hbad].
  - match goal with
    | |- context [save_loop _ ?v ?s] =>
        destruct (save_loop_Ok designations v s Hall)
          as (vim' & shell' & -> & _ & Hs)
    end.
    cbn [mbind result_bind]. intros [= <-]. by rewrite Hs.
  - by rewrite save_loop_Raise.
Qed.

(** *** Invariants of the similarity pass *)

Lemma sq_distance_sym (c1 c2 : colour) : sq_distance c1 c2 = sq_distance c2 c1.
Proof.
  destruct c1 as [[r1 g1] b1], c2 as [[r2 g2] b2]. unfold sq_distance. ring.
Qed.

Lemma get_similarity_gt_sym (c1 c2 : colour) (t : Q) :
  get_similarity_gt c1 c2 t = get_similarity_gt c2 c1 t.
Proof. unfold get_similarity_gt. by rewrite sq_distance_sym. Qed.

Lemma get_similarity_gt_false (c1 c2 : colour) (t : Q) :
  get_similarity_gt c1 c2 t = false
  <-> (get_similarity_real c1 c2 <= Q2R t)%R.
Proof.
  rewrite <- not_true_iff_false, get_similarity_gt_real. lra.
Qed.

Section loop_invariants.
Context (t bt : Q) (bg : colour).

Lemma loop_test_false (c : colour) (chosen : list colour) :
  truthy chosen
  && existsb (fun choice => get_similarity_gt c choice t) chosen
  || Qgtb (background_similarity c bg) bt = false ->
  Forall (fun a => get_similarity_gt c a t = false) chosen
  /\ (background_similarity c bg <= bt)%Q.
Proof.
  intros [Hsim Hb%Qgtb_false]%orb_false_elim. split; [|done].
  destruct chosen as [|a chosen]; [apply Forall_nil_2|].
  cbn [truthy andb] in Hsim. apply Forall_forall. intros x Hx.
  apply not_true_iff_false. intros Hgt.
  apply not_true_iff_false in Hsim. apply Hsim, existsb_exists.
  exists x. split; [by apply list_elem_of_In|done].
Qed.

Lemma loop_test_true (c : colour) (chosen : list colour) :
  truthy chosen
  && existsb (fun choice => get_similarity_gt c choice t) chosen
  || Qgtb (background_similarity c bg) bt = true ->
  (exists k, k ∈ chosen /\ get_similarity_gt c k t = true)
  \/ (bt < background_similarity c bg)%Q.
Proof.
  intros [[_ Hsim]%andb_true_iff|Hb%Qgtb_true]%orb_true_iff; [left|by right].
  apply existsb_exists in Hsim as (k & Hk & Hgt).
  exists k. split; [by apply list_elem_of_In|done].
Qed.

Lemma apart_snoc (chosen : list colour) (c : colour) :
  apart t chosen -> Forall (fun a => get_similarity_gt c a t = false) chosen ->
  apart t (chosen ++ [c]).
Proof.
  intros Hap Hc i j a b Hij Ha Hb.
  apply lookup_app_Some in Hb as [Hb|[Hlen Hb]].
  - apply lookup_app_Some in Ha as [Ha|[Hlen _]].
    + by apply (Hap i j).
    + apply lookup_lt_Some in Hb. lia.
  - apply list_lookup_singleton_Some in Hb as [Hj <-].
    apply lookup_app_Some in Ha as [Ha|[Hlen' Ha]].
    + rewrite Forall_forall in Hc. eapply Hc, list_elem_of_lookup_2, Ha.
    + apply list_lookup_singleton_Some in Ha as [Hi _]. lia.
Qed.

Lemma similarity_loop_apart (colours : list colour) :
  forall chosen, apart t chosen -> apart t (similarity_loop t bt bg colours chosen).
Proof.
  induction colours as [|c colours IH]; intros chosen Hap; [done|].
  cbn [similarity_loop].
  destruct (_ || _) eqn:E; [by apply IH|].
  apply loop_test_false in E as [Hsim _]. by apply IH, apart_snoc.
Qed.

Lemma similarity_loop_gap (colours : list colour) :
  forall chosen,
  exists kept,
    similarity_loop t bt bg colours chosen = chosen ++ kept
    /\ Forall (fun c => (background_similarity c bg <= bt)%Q) kept.
Proof.
  induction colours as [|c colours IH]; intros chosen.
  { exists []. by rewrite app_nil_r. }
  cbn [similarity_loop].
  destruct (_ || _) eqn:E; [by apply IH|].
  apply loop_test_false in E as [_ Hb].
  destruct (IH (chosen ++ [c])) as (kept & -> & Hkept).
  exists (c :: kept). rewrite <- app_assoc. split; [done|].
  by apply Forall_cons.
Qed.

Lemma similarity_loop_saturated (colours : list colour) :
  forall chosen c,
  c ∈ colours ->
  c ∈ similarity_loop t bt bg colours chosen
  \/ (exists k, k ∈ similarity_loop t bt bg colours chosen
                /\ get_similarity_gt c k t = true)
  \/ (bt < background_similarity c bg)%Q.
Proof.
  induction colours as [|x colours IH]; intros chosen c Hc.
  { by apply elem_of_nil in Hc. }
  cbn [similarity_loop].
  apply elem_of_cons in Hc as [->|Hc].
  - destruct (_ || _) eqn:E.
    + apply loop_test_true in E as [(k & Hk & Hgt)|Hb]; [|by right; right].
      right; left. exists k. split; [|done].
      destruct (similarity_loop_app t bt bg colours chosen) as (kept & -> & _).
      apply elem_of_app. by left.
    + left.
      destruct (similarity_loop_app t bt bg colours (chosen ++ [x]))
        as (kept & -> & _).
      rewrite !elem_of_app, list_elem_of_singleton. auto.
  - destruct (_ || _); by apply IH.
Qed.

End loop_invariants.

Lemma rounding_slack_pos : (0 < Q2R rounding_slack)%R.
Proof.
  replace 0%R with (Q2R 0) by (unfold Q2R; cbn; lra).
  by apply Qlt_Rlt.
Qed.

Lemma slack_above (x : Q) : (x <= x + rounding_slack)%Q.
Proof.
  rewrite <- (Qplus_0_r x) at 1. apply Qplus_le_r. discriminate.
Qed.

Lemma slack_below (x : Q) : (x - rounding_slack <= x)%Q.
Proof.
  rewrite <- (Qplus_0_r x) at 2. apply Qplus_le_r. discriminate.
Qed.

Lemma apart_separated (t : Q) (res : list colour) :
  apart t res -> separated t res.
Proof.
  intros Hap i j a b Hij Ha Hb.
  assert (get_similarity_real a b <= Q2R t)%R.
  { apply get_similarity_gt_false.
    destruct (decide (i < j)%nat).
    - rewrite get_similarity_gt_sym. by apply (Hap i j).
    - apply (Hap j i); [lia|done|done]. }
  pose proof rounding_slack_pos. rewrite Q2R_plus. lra.
Qed.

Lemma apart_singleton (t : Q) (bg : colour) : apart t [bg].
Proof.
  intros i j a b Hij Ha Hb.
  apply list_lookup_singleton_Some in Ha as [-> _].
  apply list_lookup_singleton_Some in Hb as [-> _]. lia.
Qed.

Lemma separated_nil (t : Q) : separated t [].
Proof. intros i j a b _ Ha. by rewrite lookup_nil in Ha. Qed.

(** *** Rounding in the similarity pass *)

(** The integer square root brackets the real one. *)
Lemma Zsqrt_real (n : Z) :
  0 <= n -> (IZR (Z.sqrt n) <= sqrt (IZR n) < IZR (Z.sqrt n) + 1)%R.
Proof.
  intros Hn. destruct (Z.sqrt_spec n Hn) as [Hlo Hhi].
  pose proof (Z.sqrt_nonneg n) as Hs. set (s := Z.sqrt n) in *.
  split.
  - rewrite <- (sqrt_square (IZR s)) by (by apply IZR_le).
    apply sqrt_le_1_alt. rewrite <- mult_IZR. by apply IZR_le.
  - replace (IZR s + 1)%R with (IZR (Z.succ s)) by (rewrite succ_IZR; ring).
    rewrite <- (sqrt_square (IZR (Z.succ s))) by (apply IZR_le; lia).
    apply sqrt_lt_1_alt. rewrite <- mult_IZR.
    split; [by apply IZR_le|by apply IZR_lt].
Qed.

(** [math.sqrt] of a squared distance is within [2 ^ -45] of the root. *)
Lemma sqrt_binary64_err (d : Z) :
  0 <= d < 2 ^ 18 ->
  (- / 2 ^ 45 <= Q2R (sqrt_binary64 d) - sqrt (IZR d) <= / 2 ^ 45)%R.
Proof.
  intros [Hd0 Hd]. unfold sqrt_binary64.
  destruct (Z.leb_spec d 0) as [Hle|Hpos].
  { replace d with 0 by lia. rewrite sqrt_0.
    replace (Q2R 0) with 0%R by (unfold Q2R; cbn; lra).
    lra. }
  assert (He : 0 <= Z.log2 d / 2 <= 8).
  { pose proof (Z.log2_nonneg d).
    assert (Z.log2 d < 18) by (apply Z.log2_lt_pow2; lia).
    split; [apply Z.div_pos; lia|].
    assert (Z.log2 d / 2 < 9) by (apply Z.div_lt_upper_bound; lia). lia. }
  set (e := Z.log2 d / 2) in *.
  set (N := d * 4 ^ (53 - e)).
  assert (HN : 0 <= N) by (apply Z.mul_nonneg_nonneg; [lia|apply Z.pow_nonneg; lia]).
  pose proof (Zsqrt_real N HN) as [Hlo Hhi].
  pose proof (Z.sqrt_nonneg N) as Hs0.
  set (s := Z.sqrt N) in *.
  assert (Hm : 2 * ((s + 1) / 2) - 1 <= s <= 2 * ((s + 1) / 2)).
  { pose proof (Z.div_mod (s + 1) 2 ltac:(lia)).
    pose proof (Z.mod_pos_bound (s + 1) 2 ltac:(lia)). lia. }
  set (m := (s + 1) / 2) in *.
  set (P := IZR (2 ^ (53 - e))).
  assert (HP : (2 ^ 45 <= P)%R).
  { unfold P. replace (2 ^ 45)%R with (IZR (2 ^ 45)) by (simpl; lra).
    apply IZR_le, Z.pow_le_mono_r; lia. }
  assert (HNP : sqrt (IZR N) = (sqrt (IZR d) * P)%R).
  { unfold N. rewrite mult_IZR, sqrt_mult_alt by (by apply IZR_le).
    f_equal. replace 4 with (2 * 2) by done.
    rewrite Z.pow_mul_l, mult_IZR. apply sqrt_square.
    apply IZR_le, Z.pow_nonneg. lia. }
  rewrite HNP in Hlo, Hhi.
  set (a := sqrt (IZR d)) in *.
  assert (Hx : (Q2R (inject_Z m * 2 ^ (e - 52)) * P = 2 * IZR m)%R).
  { rewrite (Qeq_eqR _ (inject_Z m * (2 ^ e # Z.to_pos (2 ^ 52))))
      by (by rewrite Qpower_2_fraction by lia).
    rewrite Q2R_mult, Q2R_inject_Z. unfold Q2R. cbn [Qnum Qden].
    unfold P. change (Z.pos (Z.to_pos (2 ^ 52))) with (2 ^ 52).
    assert (E : (IZR (2 ^ e) * IZR (2 ^ (53 - e)) = 2 * IZR (2 ^ 52))%R).
    { rewrite <- !mult_IZR. f_equal. rewrite <- Z.pow_add_r by lia.
      replace (e + (53 - e)) with 53 by lia. done. }
    assert (0 < IZR (2 ^ 52))%R by (apply IZR_lt; done).
    field_simplify; [|lra]. rewrite Rmult_assoc, E. field. lra. }
  set (x := Q2R (inject_Z m * 2 ^ (e - 52))) in *.
  destruct Hm as [Hm1%IZR_le Hm2%IZR_le].
  rewrite minus_IZR, mult_IZR in Hm1. rewrite mult_IZR in Hm2.
  assert (Hb : (-1 <= (x - a) * P <= 1)%R) by lra.
  assert (0 < / 2 ^ 45)%R by lra.
  assert (E45 : (/ 2 ^ 45 * 2 ^ 45 = 1)%R) by lra.
  split; nra.
Qed.

Lemma Q2R_over_pow2 (z : Z) (n : nat) (p : positive) :
  Z.pos p = 2 ^ Z.of_nat n -> Q2R (z # p) = (IZR z / 2 ^ n)%R.
Proof.
  intros E. unfold Q2R. cbn [Qnum Qden]. by rewrite E, <- pow_IZR.
Qed.

Lemma Q2R_2 : Q2R 2 = 2%R.
Proof. unfold Q2R. cbn. lra. Qed.

(** Rounding a number below 2 in absolute value, over the reals. *)
Lemma binary64_err_R (q : Q) :
  (-2 < Q2R q < 2)%R ->
  (- / 2 ^ 53 <= Q2R (binary64 q) - Q2R q <= / 2 ^ 53)%R.
Proof.
  intros [Hlo Hhi].
  assert (Hq : (Qabs q < 2 ^ (0 + 1))%Q).
  { change (2 ^ (0 + 1))%Q with 2%Q.
    apply Qabs_Qlt_condition. split; apply Rlt_Qlt.
    all: rewrite ?Q2R_opp, Q2R_2; lra. }
  apply (binary64_err q 0 ltac:(lia)) in Hq.
  change (2 ^ (0 - 53))%Q with (1 # 2 ^ 53)%Q in Hq.
  apply Qabs_Qle_condition in Hq as [H1%Qle_Rle H2%Qle_Rle].
  rewrite Q2R_minus in H1, H2. rewrite Q2R_opp in H1.
  rewrite (Q2R_over_pow2 1 53 (2 ^ 53)%positive eq_refl) in H1, H2.
  lra.
Qed.

Lemma in_range_sq_distance (c1 c2 : colour) :
  in_range c1 -> in_range c2 -> 0 <= sq_distance c1 c2 <= max_sq_distance.
Proof.
  destruct c1 as [[r1 g1] b1], c2 as [[r2 g2] b2].
  unfold in_range, sq_distance, max_sq_distance. intros H1 H2.
  assert (H : forall a b, 0 <= a < 256 -> 0 <= b < 256 ->
                          0 <= (a - b) ^ 2 <= 255 ^ 2) by (intros; nia).
  pose proof (H r1 r2). pose proof (H g1 g2). pose proof (H b1 b2). lia.
Qed.

(** The similarity the code computes is within [2 ^ -51] of the exact
    one. *)
Lemma get_similarity_binary64_err (c1 c2 : colour) :
  in_range c1 -> in_range c2 ->
  (- / 2 ^ 51
   <= Q2R (get_similarity_binary64 c1 c2) - get_similarity_real c1 c2
   <= / 2 ^ 51)%R.
Proof.
  intros H1 H2. pose proof (in_range_sq_distance c1 c2 H1 H2) as [Hd0 Hd].
  unfold get_similarity_binary64, get_similarity_real.
  set (d := sq_distance c1 c2) in *.
  assert (HDv : max_sq_distance = 195075) by reflexivity.
  pose proof (sqrt_binary64_err d ltac:(lia)) as Hsd.
  pose proof (sqrt_binary64_err max_sq_distance ltac:(lia)) as HsD.
  assert (HA : (441 <= sqrt (IZR max_sq_distance))%R).
  { rewrite <- (sqrt_square 441) at 1 by lra.
    apply sqrt_le_1_alt. rewrite HDv. lra. }
  assert (Ha0 : (0 <= sqrt (IZR d))%R) by apply sqrt_pos.
  assert (HaA : (sqrt (IZR d) <= sqrt (IZR max_sq_distance))%R)
    by (by apply sqrt_le_1_alt, IZR_le).
  set (a := sqrt (IZR d)) in *. set (A := sqrt (IZR max_sq_distance)) in *.
  assert (HSD0 : ~ (sqrt_binary64 max_sq_distance == 0)%Q).
  { intros E. vm_compute in E. discriminate. }
  set (Sd := sqrt_binary64 d) in *. set (SD := sqrt_binary64 max_sq_distance) in *.
  assert (Hr : exists r, (0 <= r <= 1 /\ r * A = a /\ a / A = r)%R).
  { exists (a / A)%R. assert (0 < / A)%R by (apply Rinv_0_lt_compat; lra).
    assert (A * / A = 1)%R by (field; lra).
    unfold Rdiv. split; [split; nra|]. split; [field; lra|done]. }
  destruct Hr as (r & Hr & Era & ->).
  assert (Hbig : (/ 2 ^ 52 <= 1 /\ / 2 ^ 53 <= 1 /\ 0 < / 2 ^ 53)%R) by lra.
  assert (Hq0 : (- / 2 ^ 52 <= Q2R (Sd / SD) - r <= / 2 ^ 52)%R).
  { rewrite Q2R_div by done.
    assert (Hx : exists x, (x * Q2R SD = Q2R Sd /\ x = Q2R Sd / Q2R SD)%R).
    { exists (Q2R Sd / Q2R SD)%R. split; [field; lra|done]. }
    destruct Hx as (x & Hx & <-).
    assert (E8 : (/ 2 ^ 52 * 2 ^ 8 = 2 * / 2 ^ 45)%R) by lra.
    assert (0 < / 2 ^ 52)%R by lra.
    assert (0 < / 2 ^ 45)%R by lra.
    assert (HSDlo : (2 ^ 8 <= Q2R SD)%R) by lra.
    assert (Hb : (- (2 * / 2 ^ 45) <= (x - r) * Q2R SD <= 2 * / 2 ^ 45)%R) by nra.
    split; nra. }
  pose proof (binary64_err_R (Sd / SD)) as Hq1.
  specialize (Hq1 ltac:(lra)).
  set (q1 := binary64 (Sd / SD)) in *.
  pose proof (binary64_err_R (1 - q1)) as Hq2.
  rewrite Q2R_minus, RMicromega.Q2R_1 in Hq2.
  specialize (Hq2 ltac:(lra)).
  lra.
Qed.

(** The brightness similarity the code computes is within [2 ^ -52] of
    the exact one: checked for each of the 766 brightness differences. *)
Lemma brightness_band :
  forallb (fun k =>
             Qle_bool
               (Qabs (binary64 (binary64 (255 - binary64 (inject_Z k / 3))
                                / 255)
                      - (255 - inject_Z k / 3) / 255))
               (1 # 2 ^ 52))
    (seqZ 0 766) = true.
Proof. vm_compute. reflexivity. Qed.

Lemma in_range_sum (c : colour) : in_range c -> 0 <= sum c <= 765.
Proof. destruct c as [[r g] b]. unfold in_range, sum. cbn. lia. Qed.

Lemma background_similarity_binary64_err (c bg : colour) :
  in_range c -> in_range bg ->
  (Qabs (background_similarity_binary64 c bg - background_similarity c bg)
   <= 1 # 2 ^ 52)%Q.
Proof.
  intros Hc%in_range_sum Hbg%in_range_sum.
  unfold background_similarity_binary64, background_similarity.
  set (k := Z.abs (sum c - sum bg)).
  assert (Hk : k ∈ seqZ 0 766) by (apply elem_of_seqZ; lia).
  pose proof brightness_band as H. rewrite forallb_forall in H.
  apply list_elem_of_In, H in Hk. by apply Qle_bool_iff in Hk.
Qed.

(** The derived threshold of themerator.py on floats: never below the
    similarity threshold, and above the exact one by at most five
    roundings. *)
Lemma background_threshold_binary64_bounds (t : Q) :
  (0 <= t <= 1)%Q ->
  (Qmax (1 - (1 - t) * 2) t <= background_threshold_binary64 t)%Q
  /\ (background_threshold_binary64 t
      <= Qmax (1 - (1 - t) * 2) t + (5 # 2 ^ 53))%Q.
Proof.
  intros Ht. unfold background_threshold_binary64.
  set (e := (1 # 2 ^ 53)%Q).
  assert (He : (0 < e)%Q) by reflexivity.
  assert (E5 : (5 # 2 ^ 53 == 5 * e)%Q) by reflexivity.
  pose proof (binary64_err (1 - t) 0 ltac:(lia)) as H1.
  change (2 ^ (0 + 1))%Q with 2%Q in H1.
  change (2 ^ (0 - 53))%Q with e in H1.
  rewrite Qabs_Qlt_condition, Qabs_Qle_condition in H1.
  specialize (H1 ltac:(lra)).
  set (y1 := binary64 (1 - t)) in *.
  pose proof (binary64_err (y1 * 2) 1 ltac:(lia)) as H2.
  change (2 ^ (1 + 1))%Q with 4%Q in H2.
  assert (E2 : (2 ^ (1 - 53) == 2 * e)%Q) by reflexivity.
  rewrite E2, Qabs_Qlt_condition, Qabs_Qle_condition in H2.
  assert (He1 : (e <= 1 # 8)%Q) by discriminate.
  specialize (H2 ltac:(lra)).
  set (y2 := binary64 (y1 * 2)) in *.
  pose proof (binary64_err (1 - y2) 0 ltac:(lia)) as H3.
  change (2 ^ (0 + 1))%Q with 2%Q in H3.
  change (2 ^ (0 - 53))%Q with e in H3.
  rewrite Qabs_Qlt_condition, Qabs_Qle_condition in H3.
  specialize (H3 ltac:(lra)).
  set (y3 := binary64 (1 - y2)) in *.
  rewrite E5.
  pose proof (Q.le_max_r (1 - (1 - t) * 2) t) as Hm.
  split.
  - apply Q.max_lub; [|apply Q.le_max_r].
    eapply Qle_trans; [|apply Q.le_max_r]. lra.
  - apply Q.max_lub; lra.
Qed.

Lemma get_similarity_real_sym (c1 c2 : colour) :
  get_similarity_real c1 c2 = get_similarity_real c2 c1.
Proof. unfold get_similarity_real. by rewrite sq_distance_sym. Qed.

Lemma Q2R_rounding_slack : Q2R rounding_slack = (/ 2 ^ 50)%R.
Proof.
  unfold rounding_slack. rewrite (Q2R_over_pow2 1 50 (2 ^ 50)%positive eq_refl).
  lra.
Qed.

Section loop_invariants_binary64.
Context (t bt : Q) (bg : colour).

Lemma loop_binary64_test_false (c : colour) (chosen : list colour) :
  truthy chosen
  && existsb (fun choice => Qgtb (get_similarity_binary64 c choice) t) chosen
  || Qgtb (background_similarity_binary64 c bg) bt = false ->
  Forall (fun a => (get_similarity_binary64 c a <= t)%Q) chosen
  /\ (background_similarity_binary64 c bg <= bt)%Q.
Proof.
  intros [Hsim Hb%Qgtb_false]%orb_false_elim. split; [|done].
  destruct chosen as [|a chosen]; [apply Forall_nil_2|].
  cbn [truthy andb] in Hsim. apply Forall_forall. intros x Hx.
  apply Qgtb_false, not_true_iff_false. intros Hgt.
  apply not_true_iff_false in Hsim. apply Hsim, existsb_exists.
  exists x. split; [by apply list_elem_of_In|done].
Qed.

Lemma loop_binary64_test_true (c : colour) (chosen : list colour) :
  truthy chosen
  && existsb (fun choice => Qgtb (get_similarity_binary64 c choice) t) chosen
  || Qgtb (background_similarity_binary64 c bg) bt = true ->
  (exists k, k ∈ chosen /\ (t < get_similarity_binary64 c k)%Q)
  \/ (bt < background_similarity_binary64 c bg)%Q.
Proof.
  intros [[_ Hsim]%andb_true_iff|Hb%Qgtb_true]%orb_true_iff; [left|by right].
  apply existsb_exists in Hsim as (k & Hk & Hgt%Qgtb_true).
  exists k. split; [by apply list_elem_of_In|done].
Qed.

Lemma apart_binary64_snoc (chosen : list colour) (c : colour) :
  apart_binary64 t chosen ->
  Forall (fun a => (get_similarity_binary64 c a <= t)%Q) chosen ->
  apart_binary64 t (chosen ++ [c]).
Proof.
  intros Hap Hc i j a b Hij Ha Hb.
  apply lookup_app_Some in Hb as [Hb|[Hlen Hb]].
  - apply lookup_app_Some in Ha as [Ha|[Hlen _]].
    + by apply (Hap i j).
    + apply lookup_lt_Some in Hb. lia.
  - apply list_lookup_singleton_Some in Hb as [Hj <-].
    apply lookup_app_Some in Ha as [Ha|[Hlen' Ha]].
    + rewrite Forall_forall in Hc. eapply Hc, list_elem_of_lookup_2, Ha.
    + apply list_lookup_singleton_Some in Ha as [Hi _]. lia.
Qed.

Lemma similarity_loop_binary64_apart (colours : list colour) :
  forall chosen,
    apart_binary64 t chosen ->
    apart_binary64 t (similarity_loop_binary64 t bt bg colours chosen).
Proof.
  induction colours as [|c colours IH]; intros chosen Hap; [done|].
  cbn [similarity_loop_binary64].
  destruct (_ || _) eqn:E; [by apply IH|].
  apply loop_binary64_test_false in E as [Hsim _].
  by apply IH, apart_binary64_snoc.
Qed.

Lemma similarity_loop_binary64_gap (colours : list colour) :
  forall chosen,
  exists kept,
    similarity_loop_binary64 t bt bg colours chosen = chosen ++ kept
    /\ Forall (fun c => (background_similarity_binary64 c bg <= bt)%Q) kept.
Proof.
  induction colours as [|c colours IH]; intros chosen.
  { exists []. by rewrite app_nil_r. }
  cbn [similarity_loop_binary64].
  destruct (_ || _) eqn:E; [by apply IH|].
  apply loop_binary64_test_false in E as [_ Hb].
  destruct (IH (chosen ++ [c])) as (kept & -> & Hkept).
  exists (c :: kept). rewrite <- app_assoc. split; [done|].
  by apply Forall_cons.
Qed.

Lemma similarity_loop_binary64_saturated (colours : list colour) :
  forall chosen c,
  c ∈ colours ->
  c ∈ similarity_loop_binary64 t bt bg colours chosen
  \/ (exists k, k ∈ similarity_loop_binary64 t bt bg colours chosen
                /\ (t < get_similarity_binary64 c k)%Q)
  \/ (bt < background_similarity_binary64 c bg)%Q.
Proof.
  induction colours as [|x colours IH]; intros chosen c Hc.
  { by apply elem_of_nil in Hc. }
  cbn [similarity_loop_binary64].
  apply elem_of_cons in Hc as [->|Hc].
  - destruct (_ || _) eqn:E.
    + apply loop_binary64_test_true in E as [(k & Hk & Hgt)|Hb];
        [|by right; right].
      right; left. exists k. split; [|done].
      destruct (similarity_loop_binary64_app t bt bg colours chosen)
        as (kept & -> & _).
      apply elem_of_app. by left.
    + left.
      destruct (similarity_loop_binary64_app t bt bg colours (chosen ++ [x]))
        as (kept & -> & _).
      rewrite !elem_of_app, list_elem_of_singleton. auto.
  - destruct (_ || _); by apply IH.
Qed.

End loop_invariants_binary64.

Lemma apart_binary64_singleton (t : Q) (bg : colour) : apart_binary64 t [bg].
Proof.
  intros i j a b Hij Ha Hb.
  apply list_lookup_singleton_Some in Ha as [-> _].
  apply list_lookup_singleton_Some in Hb as [-> _]. lia.
Qed.

Lemma filter_by_similarity_binary64_sublist (colours : list colour)
    (t bt : Q) :
  filter_by_similarity_binary64_with colours t bt `sublist_of` colours.
Proof.
  destruct colours as [|bg colours]; cbn; [done|].
  destruct (similarity_loop_binary64_app t bt bg colours [bg])
    as (kept & -> & Hsub).
  by apply sublist_skip.
Qed.

Lemma filter_by_similarity_binary64_in_range (colours : list colour)
    (t bt : Q) :
  Forall in_range colours ->
  Forall in_range (filter_by_similarity_binary64_with colours t bt).
Proof.
  rewrite !Forall_forall. intros Hin x Hx. apply Hin.
  eapply elem_of_sublist; [exact Hx|].
  apply filter_by_similarity_binary64_sublist.
Qed.

Lemma apart_binary64_separated (t : Q) (res : list colour) :
  Forall in_range res -> apart_binary64 t res -> separated t res.
Proof.
  intros Hin Hap.
  assert (H : forall i j a b, (i < j)%nat -> res !! i = Some a ->
                res !! j = Some b ->
                (get_similarity_real b a <= Q2R (t + rounding_slack))%R).
  { intros i j a b Hij Ha Hb.
    pose proof (Hap i j a b Hij Ha Hb) as Hle%Qle_Rle.
    rewrite Forall_forall in Hin.
    pose proof (get_similarity_binary64_err b a
                  (Hin b (list_elem_of_lookup_2 _ _ _ Hb))
                  (Hin a (list_elem_of_lookup_2 _ _ _ Ha))) as Herr.
    rewrite Q2R_plus, Q2R_rounding_slack. lra. }
  intros i j a b Hij Ha Hb.
  destruct (decide (i < j)%nat).
  - rewrite get_similarity_real_sym. by apply (H i j).
  - apply (H j i); [lia|done|done].
Qed.

(** X17.  For colours with channels in [0, 256): in what
    [filter_by_similarity] returns, no two colours are more similar than
    the threshold, up to the rounding slack [2 ^ -50].  This holds for
    the pass of either source file with exact comparisons, and for the
    pass on floats whatever the derived threshold. *)
Theorem filter_by_similarity_separated (colours : list colour) (t : Q) :
  Forall in_range colours ->
  separated t (filter_by_similarity colours t)
  /\ separated t (base16_imagen.filter_by_similarity colours t)
  /\ (forall bt, separated t (filter_by_similarity_binary64_with colours t bt)).
Proof.
  intros Hin. split_and!.
  1,2: destruct colours as [|bg colours]; [apply separated_nil|].
  1,2: apply apart_separated, similarity_loop_apart, apart_singleton.
  intros bt. apply apart_binary64_separated.
  { by apply filter_by_similarity_binary64_in_range. }
  destruct colours as [|bg colours]; [by intros i j a b _ Ha|].
  apply similarity_loop_binary64_apart, apart_binary64_singleton.
Qed.

(** X18.  For colours with channels in [0, 256) and a threshold in
    [0, 1]: every kept colour other than the anchor keeps the brightness
    gap the pass asks for; its brightness similarity to the anchor is at
    most the derived threshold, up to the rounding slack [2 ^ -50].  This
    holds for the pass of either source file with exact comparisons, for
    the pass of themerator.py on floats, and for the pass of
    base16_imagen.py on floats when its [similarity_threshold ** 4] is
    within [2 ^ -52] of the exact power. *)
Theorem filter_by_similarity_brightness_gap (colours : list colour) (t : Q) :
  Forall in_range colours -> (0 <= t <= 1)%Q ->
  brightness_gap (Qmax (1 - (1 - t) * 2) t) (filter_by_similarity colours t)
  /\ brightness_gap (t ^ 4) (base16_imagen.filter_by_similarity colours t)
  /\ brightness_gap (Qmax (1 - (1 - t) * 2) t)
       (filter_by_similarity_binary64 colours t)
  /\ (forall bt,
        (Qabs (bt - t ^ 4) <= 1 # 2 ^ 52)%Q ->
        brightness_gap (t ^ 4) (filter_by_similarity_binary64_with colours t bt)).
Proof.
  intros Hin Ht.
  assert (Hfloat : forall bt bt0,
            (bt <= bt0 + (5 # 2 ^ 53))%Q ->
            brightness_gap bt0 (filter_by_similarity_binary64_with colours t bt)).
  { intros bt bt0 Hbt bg' kept' E.
    destruct colours as [|bg colours]; [done|].
    unfold filter_by_similarity_binary64_with in E.
    destruct (similarity_loop_binary64_gap t bt bg colours [bg])
      as (kept & E' & Hkept).
    destruct (similarity_loop_binary64_app t bt bg colours [bg])
      as (kept2 & E2 & Hsub).
    rewrite E' in E, E2. injection E as <- <-. injection E2 as <-.
    apply Forall_cons in Hin as [Hbg Hin].
    rewrite Forall_forall in Hkept, Hin. apply Forall_forall.
    intros c Hc. pose proof (Hkept c Hc) as Hle.
    pose proof (background_similarity_binary64_err c bg
                  (Hin c (elem_of_sublist _ _ _ Hc Hsub)) Hbg)
      as [H1 H2]%Qabs_Qle_condition.
    unfold rounding_slack.
    assert (E52 : (1 # 2 ^ 52 == 2 * (1 # 2 ^ 53))%Q) by reflexivity.
    assert (E53 : (5 # 2 ^ 53 == 5 * (1 # 2 ^ 53))%Q) by reflexivity.
    assert (E50 : (1 # 2 ^ 50 == 8 * (1 # 2 ^ 53))%Q) by reflexivity.
    rewrite E52 in H1, H2. rewrite E53 in Hbt. rewrite E50.
    assert (0 < 1 # 2 ^ 53)%Q by reflexivity.
    set (e := (1 # 2 ^ 53)%Q) in *. lra. }
  split_and!.
  1,2: destruct colours as [|bg colours]; [done|]; intros bg' kept' E.
  1,2: unfold filter_by_similarity, base16_imagen.filter_by_similarity in E.
  1,2: match type of E with
       | similarity_loop ?t ?bt ?bg ?l ?c = _ =>
           destruct (similarity_loop_gap t bt bg l c) as (kept & E' & Hkept)
       end.
  1,2: rewrite E' in E; injection E as <- <-.
  1,2: eapply Forall_impl; [exact Hkept|]; cbn beta; intros c Hc.
  1,2: eapply Qle_trans; [exact Hc|apply slack_above].
  - apply Hfloat. by apply background_threshold_binary64_bounds.
  - intros bt [H1 H2]%Qabs_Qle_condition. apply Hfloat.
    assert (E52 : (1 # 2 ^ 52 == 2 * (1 # 2 ^ 53))%Q) by reflexivity.
    assert (E53 : (5 # 2 ^ 53 == 5 * (1 # 2 ^ 53))%Q) by reflexivity.
    rewrite E52 in H1, H2. rewrite E53.
    assert (0 < 1 # 2 ^ 53)%Q by reflexivity.
    set (e := (1 # 2 ^ 53)%Q) in *. set (t4 := (t ^ 4)%Q) in *. lra.
Qed.

(** X19.  For colours with channels in [0, 256) and a threshold in
    [0, 1]: a colour that [filter_by_similarity] leaves out is as similar
    as the threshold, up to the rounding slack [2 ^ -50], to a colour it
    keeps, or as close in brightness to the anchor as the derived
    threshold, up to the rounding slack.  This holds for the pass of
    either source file with exact comparisons, for the pass of
    themerator.py on floats, and for the pass of base16_imagen.py on
    floats when its [similarity_threshold ** 4] is within [2 ^ -52] of
    the exact power. *)
Theorem filter_by_similarity_saturated (colours : list colour) (t : Q) :
  Forall in_range colours -> (0 <= t <= 1)%Q ->
  saturated t (Qmax (1 - (1 - t) * 2) t) colours
    (filter_by_similarity colours t)
  /\ saturated t (t ^ 4) colours (base16_imagen.filter_by_similarity colours t)
  /\ saturated t (Qmax (1 - (1 - t) * 2) t) colours
       (filter_by_similarity_binary64 colours t)
  /\ (forall bt,
        (Qabs (bt - t ^ 4) <= 1 # 2 ^ 52)%Q ->
        saturated t (t ^ 4) colours
          (filter_by_similarity_binary64_with colours t bt)).
Proof.
  intros Hin Ht. pose proof rounding_slack_pos as Hslack.
  assert (Hfloat : forall bt bt0,
            (bt0 - (2 # 2 ^ 53) <= bt)%Q ->
            saturated t bt0 colours
              (filter_by_similarity_binary64_with colours t bt)).
  { intros bt bt0 Hbt c Hc.
    destruct colours as [|bg colours]; [by apply elem_of_nil in Hc|].
    unfold filter_by_similarity_binary64_with.
    pose proof (similarity_loop_binary64_saturated t bt bg colours [bg] c)
      as Hsat.
    pose proof (similarity_loop_binary64_app t bt bg colours [bg])
      as (kept & E & Hsub).
    apply elem_of_cons in Hc as [->|Hc];
      [left; rewrite E; apply elem_of_cons; by left|].
    apply Forall_cons in Hin as [Hbg Hin]. rewrite Forall_forall in Hin.
    destruct (Hsat Hc) as [Hi|[(k & Hk & Hgt)|Hb]];
      [by left|right; left|right; right].
    - exists k. split; [done|].
      assert (Hkr : in_range k).
      { rewrite E in Hk. apply elem_of_cons in Hk as [->|Hk]; [done|].
        apply Hin. by eapply elem_of_sublist. }
      pose proof (get_similarity_binary64_err c k (Hin c Hc) Hkr) as Herr.
      apply Qlt_Rlt in Hgt.
      unfold Qminus. rewrite Q2R_plus, Q2R_opp, Q2R_rounding_slack. lra.
    - exists bg. split; [done|].
      pose proof (background_similarity_binary64_err c bg (Hin c Hc) Hbg)
        as [H1 H2]%Qabs_Qle_condition.
      unfold rounding_slack.
      assert (E52 : (1 # 2 ^ 52 == 2 * (1 # 2 ^ 53))%Q) by reflexivity.
      assert (E53 : (2 # 2 ^ 53 == 2 * (1 # 2 ^ 53))%Q) by reflexivity.
      assert (E50 : (1 # 2 ^ 50 == 8 * (1 # 2 ^ 53))%Q) by reflexivity.
      rewrite E52 in H1, H2. rewrite E53 in Hbt. rewrite E50.
      assert (0 < 1 # 2 ^ 53)%Q by reflexivity.
      set (e := (1 # 2 ^ 53)%Q) in *. lra. }
  split_and!.
  1,2: intros c Hc.
  1,2: destruct colours as [|bg colours]; [by apply elem_of_nil in Hc|].
  1,2: unfold filter_by_similarity, base16_imagen.filter_by_similarity.
  1,2: match goal with
       | |- context [similarity_loop ?t ?bt ?bg ?l ?c0] =>
           pose proof (similarity_loop_saturated t bt bg l c0 c) as Hsat;
           pose proof (similarity_loop_app t bt bg l c0) as (kept & E & _)
       end.
  1,2: apply elem_of_cons in Hc as [->|Hc];
    [left; rewrite E; apply elem_of_cons; by left|].
  1,2: destruct (Hsat Hc) as [Hi|[(k & Hk & Hgt)|Hb]];
    [by left|right; left|right; right].
  1,3: exists k; split; [done|]; apply get_similarity_gt_real in Hgt;
            unfold Qminus; rewrite Q2R_plus, Q2R_opp; lra.
  1,2: exists bg; split; [done|].
  1,2: eapply Qle_lt_trans; [apply slack_below|exact Hb].
  - apply Hfloat.
    destruct (background_threshold_binary64_bounds t Ht) as [Hlo _].
    eapply Qle_trans; [|exact Hlo].
    assert (0 <= 2 # 2 ^ 53)%Q by discriminate.
    set (x := Qmax _ _). lra.
  - intros bt [H1 H2]%Qabs_Qle_condition. apply Hfloat.
    assert (E52 : (1 # 2 ^ 52 == 2 * (1 # 2 ^ 53))%Q) by reflexivity.
    assert (E53 : (2 # 2 ^ 53 == 2 * (1 # 2 ^ 53))%Q) by reflexivity.
    rewrite E52 in H1, H2. rewrite E53.
    set (e := (1 # 2 ^ 53)%Q) in *. set (t4 := (t ^ 4)%Q) in *. lra.
Qed.

(** On floats the pass keeps a pair that is, exactly, more similar than
    the threshold: the rounded similarity of [(117, 60, 60)] and
    [(60, 60, 60)] equals [near_threshold], the exact one is above it. *)
Lemma filter_by_similarity_binary64_near_miss :
  filter_by_similarity_binary64 near_miss near_threshold = near_miss
  /\ filter_by_similarity near_miss near_threshold
     = [ (0, 0, 0); (60, 60, 60) ]
  /\ (get_similarity_binary64 (117, 60, 60)%Z (60, 60, 60)%Z
      == near_threshold)%Q
  /\ (get_similarity_real (117, 60, 60)%Z (60, 60, 60)%Z
      > Q2R near_threshold)%R.
Proof.
  split; [by vm_compute|]. split; [by vm_compute|]. split; [by vm_compute|].
  apply get_similarity_gt_real. by vm_compute.
Qed.

(** *** The pass on floats and the pass with exact comparisons *)

Lemma existsb_ext_in {A} (f g : A -> bool) (l : list A) :
  (forall x, x ∈ l -> f x = g x) -> existsb f l = existsb g l.
Proof.
  induction l as [|a l IH]; intros H; [done|]. cbn.
  rewrite (H a) by left. rewrite IH; [done|].
  intros x Hx. apply H. by right.
Qed.

(** Away from the band the rounded similarity test decides as the exact
    one. *)
Lemma get_similarity_binary64_decides (c k : colour) (t : Q) :
  in_range c -> in_range k ->
  get_similarity_gt c k (t - rounding_slack)
  = get_similarity_gt c k (t + rounding_slack) ->
  Qgtb (get_similarity_binary64 c k) t = get_similarity_gt c k t.
Proof.
  intros Hc Hk E.
  pose proof (get_similarity_binary64_err c k Hc Hk) as Herr.
  pose proof Q2R_rounding_slack as Hs.
  destruct (get_similarity_gt c k (t + rounding_slack)) eqn:Ehi.
  - apply get_similarity_gt_real in Ehi. rewrite Q2R_plus, Hs in Ehi.
    transitivity true; [|symmetry].
    + apply Qgtb_true, Rlt_Qlt. lra.
    + apply get_similarity_gt_real. lra.
  - apply get_similarity_gt_false in E.
    unfold Qminus in E. rewrite Q2R_plus, Q2R_opp, Hs in E.
    transitivity false; [|symmetry].
    + apply Qgtb_false, Rle_Qle. lra.
    + apply get_similarity_gt_false. lra.
Qed.

(** Away from the band the rounded brightness test decides as the
    exact one, for a rounded derived threshold [bt'] between [bt] and
    [bt + 5 * 2 ^ -53]. *)
Lemma background_similarity_binary64_decides (c bg : colour) (bt bt' : Q) :
  in_range c -> in_range bg ->
  (bt <= bt' <= bt + (5 # 2 ^ 53))%Q ->
  Qgtb (background_similarity c bg) (bt - rounding_slack)
  = Qgtb (background_similarity c bg) (bt + rounding_slack) ->
  Qgtb (background_similarity_binary64 c bg) bt'
  = Qgtb (background_similarity c bg) bt.
Proof.
  intros Hc Hbg Hbt E.
  pose proof (background_similarity_binary64_err c bg Hc Hbg)
    as [H1 H2]%Qabs_Qle_condition.
  unfold rounding_slack in E.
  assert (E52 : (1 # 2 ^ 52 == 2 * (1 # 2 ^ 53))%Q) by reflexivity.
  assert (E53 : (5 # 2 ^ 53 == 5 * (1 # 2 ^ 53))%Q) by reflexivity.
  assert (E50 : (1 # 2 ^ 50 == 8 * (1 # 2 ^ 53))%Q) by reflexivity.
  assert (He : (0 < 1 # 2 ^ 53)%Q) by reflexivity.
  rewrite E52 in H1, H2. rewrite E53 in Hbt.
  destruct (Qgtb (background_similarity c bg) (bt + (1 # 2 ^ 50))) eqn:Ehi.
  - apply Qgtb_true in Ehi. rewrite E50 in Ehi.
    set (e := (1 # 2 ^ 53)%Q) in *.
    transitivity true; [|symmetry]; apply Qgtb_true; lra.
  - apply Qgtb_false in E. rewrite E50 in E.
    set (e := (1 # 2 ^ 53)%Q) in *.
    transitivity false; [|symmetry]; apply Qgtb_false; lra.
Qed.

Lemma similarity_loop_binary64_agrees (t bt bt' : Q) (bg : colour)
    (all colours chosen : list colour) :
  Forall in_range all -> in_range bg ->
  (bt <= bt' <= bt + (5 # 2 ^ 53))%Q ->
  chosen ⊆ all -> colours ⊆ all ->
  Forall (fun c =>
            Forall (fun k => get_similarity_gt c k (t - rounding_slack)
                             = get_similarity_gt c k (t + rounding_slack)) all
            /\ Qgtb (background_similarity c bg) (bt - rounding_slack)
               = Qgtb (background_similarity c bg) (bt + rounding_slack))
    colours ->
  similarity_loop_binary64 t bt' bg colours chosen
  = similarity_loop t bt bg colours chosen.
Proof.
  intros Hall Hbg Hbt. revert chosen.
  induction colours as [|c colours IH]; intros chosen Hch Hcol Hclear; [done|].
  apply Forall_cons in Hclear as [[Hsim Hb] Hclear].
  assert (Hc : c ∈ all) by (apply Hcol; left).
  rewrite Forall_forall in Hall, Hsim.
  cbn [similarity_loop_binary64 similarity_loop].
  rewrite (existsb_ext_in _ (fun choice => get_similarity_gt c choice t)).
  2:{ intros k Hk. apply get_similarity_binary64_decides; auto. }
  rewrite (background_similarity_binary64_decides c bg bt bt') by auto.
  assert (Hcol' : colours ⊆ all) by (intros x Hx; apply Hcol; by right).
  destruct (_ || _); apply IH; try done.
  intros x [Hx|Hx%list_elem_of_singleton]%elem_of_app; [by apply Hch|by subst].
Qed.

(** X30.  For colours with channels in [0, 256) and a threshold in
    [0, 1]: when no comparison of the pass is within the rounding slack
    [2 ^ -50] of its threshold, [filter_by_similarity] of themerator.py
    on floats returns exactly what it returns with exact comparisons. *)
Theorem filter_by_similarity_binary64_agrees (colours : list colour) (t : Q) :
  Forall in_range colours -> (0 <= t <= 1)%Q ->
  clear_of_rounding colours t (Qmax (1 - (1 - t) * 2) t) = true ->
  filter_by_similarity_binary64 colours t = filter_by_similarity colours t.
Proof.
  intros Hin Ht Hclear.
  destruct colours as [|bg colours]; [done|].
  unfold filter_by_similarity_binary64, filter_by_similarity_binary64_with,
    filter_by_similarity.
  cbn [clear_of_rounding] in Hclear.
  pose proof (background_threshold_binary64_bounds t Ht) as Hbt.
  apply (similarity_loop_binary64_agrees _ _ _ _ (bg :: colours)).
  - done.
  - by apply Forall_cons in Hin as [? _].
  - done.
  - intros x ->%list_elem_of_singleton. left.
  - intros x Hx. by right.
  - apply Forall_forall. intros c Hc.
    rewrite forallb_forall in Hclear.
    apply list_elem_of_In, Hclear, andb_true_iff in Hc as [Hsim Hb].
    split; [|by apply eqb_prop].
    apply Forall_forall. intros k Hk. rewrite forallb_forall in Hsim.
    by apply eqb_prop, Hsim, list_elem_of_In.
Qed.

(** *** Thresholds of 1 and above *)

Lemma Qgtb_ext (a b b' : Q) : (b == b')%Q -> Qgtb a b = Qgtb a b'.
Proof.
  intros E. destruct (Qgtb a b') eqn:E'.
  - apply Qgtb_true. apply Qgtb_true in E'. by rewrite E.
  - apply Qgtb_false. apply Qgtb_false in E'. by rewrite E.
Qed.

Lemma similarity_loop_ext (t bt bt' : Q) (bg : colour) (colours : list colour) :
  (bt == bt')%Q ->
  forall chosen,
  similarity_loop t bt bg colours chosen
  = similarity_loop t bt' bg colours chosen.
Proof.
  intros E. induction colours as [|c colours IH]; intros chosen; [done|].
  cbn [similarity_loop]. rewrite (Qgtb_ext _ bt bt' E).
  by destruct (_ || _).
Qed.

(** X20.  For a threshold up to 1 the derived background threshold of
    themerator.py, [max(1 - (1 - t) * 2, t)], is [t] itself: the
    brightness rule is applied with the similarity threshold. *)
Theorem filter_by_similarity_background_threshold (colours : list colour)
    (t : Q) :
  (t <= 1)%Q ->
  filter_by_similarity colours t
  = match colours with
    | [] => []
    | background :: colours' =>
        similarity_loop t t background colours' [background]
    end.
Proof.
  intros Ht. destruct colours as [|bg colours]; [done|].
  unfold filter_by_similarity. apply similarity_loop_ext.
  apply Q.max_r. lra.
Qed.

Lemma background_similarity_le_1 (c bg : colour) :
  (background_similarity c bg <= 1)%Q.
Proof.
  unfold background_similarity.
  assert (0 <= inject_Z (Z.abs (sum c - sum bg)))%Q.
  { change 0%Q with (inject_Z 0). rewrite <- Zle_Qle. lia. }
  set (x := inject_Z _) in *. clearbody x.
  assert (0 <= x / 3)%Q by (apply Qle_shift_div_l; [reflexivity|lra]).
  set (y := (x / 3)%Q) in *. clearbody y.
  apply Qle_shift_div_r; [reflexivity|]. lra.
Qed.

Lemma similarity_loop_threshold_one (t bt : Q) (bg : colour)
    (colours : list colour) :
  (1 <= t)%Q -> (1 <= bt)%Q ->
  forall chosen, similarity_loop t bt bg colours chosen = chosen ++ colours.
Proof.
  intros Ht Hbt. induction colours as [|c colours IH]; intros chosen.
  { by rewrite app_nil_r. }
  cbn [similarity_loop].
  assert (existsb (fun choice => get_similarity_gt c choice t) chosen = false)
    as ->.
  { apply not_true_iff_false. intros (k & _ & Hgt)%existsb_exists.
    unfold get_similarity_gt in Hgt.
    apply andb_true_iff in Hgt as [Hgt%Qgtb_true _]. lra. }
  assert (Qgtb (background_similarity c bg) bt = false) as ->.
  { apply Qgtb_false. pose proof (background_similarity_le_1 c bg). lra. }
  rewrite andb_false_r. cbn [orb]. rewrite IH, <- app_assoc. done.
Qed.

(** X21.  At a threshold of 1 or more neither rule can discard a colour:
    either [filter_by_similarity] returns its argument, duplicates
    included. *)
Theorem filter_by_similarity_threshold_one (colours : list colour) (t : Q) :
  (1 <= t)%Q ->
  filter_by_similarity colours t = colours
  /\ base16_imagen.filter_by_similarity colours t = colours.
Proof.
  intros Ht. destruct colours as [|bg colours]; [done|].
  unfold filter_by_similarity, base16_imagen.filter_by_similarity.
  rewrite !similarity_loop_threshold_one; try done.
  - assert (t ^ 4 == t * t * (t * t))%Q as -> by (simpl; ring). assert (1 <= t * t)%Q by nra. nra.
  - pose proof (Q.le_max_r (1 - (1 - t) * 2) t). lra.
Qed.

(** *** The thresholds the search probes *)

(** X22.  With [max_retries] at most 53 (the default is 50) the palette
    [filter_palette] returns is the similarity pass at a dyadic
    threshold strictly between 0 and 1: an odd numerator over
    [2 ^ (i + 1)], where [i] is the round (counted from 0) that produced
    it.  Up to that round the float midpoints are exact. *)
Theorem filter_palette_threshold_dyadic (dark : bool) (colours : list colour)
    (retries : nat) (res : list colour) (log : list string) :
  (retries <= 53)%nat ->
  filter_palette dark colours retries = Ok (res, log) ->
  exists (i : nat) (m : Q),
    (i < retries)%nat
    /\ Z.odd (Qnum m) = true
    /\ Z.pos (Qden m) = 2 ^ (Z.of_nat i + 1)
    /\ 0 < Qnum m < 2 ^ (Z.of_nat i + 1)
    /\ res = filter_by_similarity (sorted (tone_key dark) colours) m.
Proof.
  intros Hr. rewrite filter_palette_last. intros Hres.
  destruct (last _) as [[m c]|] eqn:Hlast; [|done].
  assert (res = c) as ->.
  { destruct (length c =? 16)%nat; [by injection Hres|].
    destruct (length c <? 8)%nat; [done|]. by injection Hres. }
  pose proof (last_round_pass _ _ _ _ _ Hlast) as (Hc & _).
  rewrite last_lookup in Hlast.
  pose proof (lookup_lt_Some _ _ _ Hlast) as Hlt.
  pose proof (rounds_length
                (filter_by_similarity (sorted (tone_key dark) colours))
                retries 0 1) as Hlen.
  apply rounds_probe_dyadic in Hlast as (Hodd & Hden & Hnum); [|done].
  eexists _, m. split_and!; try done. all: lia.
Qed.

(** *** RGB to hex, in closed form *)

(** X15.  [_rgb_to_hex] in closed form: the three two-digit codes joined
    by the separator for channels in [0, 256), [AssertionError] for any
    other colour. *)
Theorem rgb_to_hex_outcome (r g b : Z) (separator : string) :
  _rgb_to_hex r g b separator
  = if decide (in_range (r, g, b))
    then Ok (channel_hex r +:+ separator +:+ channel_hex g +:+ separator
               +:+ channel_hex b)
    else Raise AssertionError.
Proof.
  destruct (decide _) as [Hr|Hr].
  - by rewrite _rgb_to_hex_Ok.
  - by rewrite _rgb_to_hex_Raise.
Qed.

(** *** Similarity *)

Lemma sq_distance_le (c1 c2 : colour) :
  in_range c1 -> in_range c2 -> sq_distance c1 c2 <= max_sq_distance.
Proof.
  destruct c1 as [[r1 g1] b1], c2 as [[r2 g2] b2].
  unfold in_range, sq_distance, max_sq_distance. intros H1 H2.
  assert (forall x y, 0 <= x < 256 -> 0 <= y < 256 -> (x - y) ^ 2 <= 255 ^ 2)
    as Hsq by (intros; nia).
  pose proof (Hsq r1 r2). pose proof (Hsq g1 g2). pose proof (Hsq b1 b2). lia.
Qed.

(** X16.  [get_similarity] is symmetric, lies in [0, 1] for colours with
    channels in [0, 256), and is 1 for identical colours only. *)
Theorem get_similarity_range (c1 c2 : colour) :
  in_range c1 -> in_range c2 ->
  (0 <= get_similarity_real c1 c2 <= 1)%R
  /\ get_similarity_real c1 c2 = get_similarity_real c2 c1
  /\ (get_similarity_real c1 c2 = 1%R <-> c1 = c2).
Proof.
  intros H1 H2. unfold get_similarity_real.
  rewrite (sq_distance_sym c2 c1).
  pose proof (sq_distance_nonneg c1 c2) as Hd%IZR_le.
  pose proof (sq_distance_le c1 c2 H1 H2) as HdD%IZR_le.
  assert (Hpos : c1 <> c2 -> (0 < IZR (sq_distance c1 c2))%R).
  { intros Hne%sq_distance_pos. apply IZR_lt. lia. }
  assert (Hrefl : c1 = c2 -> IZR (sq_distance c1 c2) = 0%R).
  { intros ->. by rewrite sq_distance_refl. }
  set (d := IZR (sq_distance c1 c2)) in *. clearbody d.
  assert (HD : (0 < IZR max_sq_distance)%R) by (apply IZR_lt; reflexivity).
  set (D := IZR max_sq_distance) in *. clearbody D.
  assert (HsD : (0 < sqrt D)%R) by (by apply sqrt_lt_R0).
  assert (Hsd : (0 <= sqrt d)%R) by apply sqrt_pos.
  assert (HsdD : (sqrt d <= sqrt D)%R) by (by apply sqrt_le_1_alt).
  assert (Hq0 : (0 <= sqrt d / sqrt D)%R).
  { apply Rmult_le_pos; [done|]. left. by apply Rinv_0_lt_compat. }
  assert (Hq1 : (sqrt d / sqrt D <= 1)%R).
  { apply Rmult_le_reg_r with (sqrt D); [done|].
    unfold Rdiv. rewrite Rmult_assoc, Rinv_l by lra. lra. }
  split; [lra|]. split; [done|]. split.
  - intros E. destruct (decide (c1 = c2)) as [|Hne]; [done|]. exfalso.
    apply Hpos in Hne. apply sqrt_lt_R0 in Hne.
    assert (0 < sqrt d / sqrt D)%R; [|lra].
    apply Rmult_lt_0_compat; [done|]. by apply Rinv_0_lt_compat.
  - intros ->%Hrefl. rewrite sqrt_0. lra.
Qed.

(** *** Prominence *)

Lemma invalid_hues_fail (names : list string) :
  ~ names ⊆ channel_names ->
  existsb (fun highlight => negb (bool_decide (highlight ∈ channel_names)))
    names = true.
Proof.
  intros Hsub. apply not_false_iff_true. intros Hex. apply Hsub.
  intros name Hname. destruct (decide (name ∈ channel_names)) as [|Hn]; [done|].
  assert (existsb (fun highlight =>
                     negb (bool_decide (highlight ∈ channel_names))) names
          = true); [|congruence].
  apply existsb_exists. exists name. split; [by apply list_elem_of_In|].
  by apply negb_true_iff, bool_decide_eq_false.
Qed.

(** [prominence] on valid names, by the channels selected. *)
Lemma prominence_valid (r g b : Z) (names : list string) :
  names ⊆ channel_names ->
  prominence (r, g, b) (hl_list names)
  = match bool_decide ("red" ∈ names), bool_decide ("green" ∈ names),
          bool_decide ("blue" ∈ names) with
    | true, false, false => Ok (Z.min (r - g) (r - b))
    | false, true, false => Ok (Z.min (g - r) (g - b))
    | false, false, true => Ok (Z.min (b - r) (b - g))
    | true, true, false => Ok (Z.min (r - b) (g - b))
    | true, false, true => Ok (Z.min (r - g) (b - g))
    | false, true, true => Ok (Z.min (g - r) (b - r))
    | _, _, _ => Raise (ValueError "min() arg is an empty sequence")
    end.
Proof.
  intros Hsub. unfold prominence. rewrite valid_hues_pass by done.
  cbn [channels channel_names zip zip_with fold_left fst snd].
  by destruct (bool_decide ("red" ∈ names)), (bool_decide ("green" ∈ names)),
    (bool_decide ("blue" ∈ names)).
Qed.

Lemma names_nil_or_all (names : list string) :
  names ⊆ channel_names ->
  (names = [] \/ channel_names ⊆ names)
  <-> (bool_decide ("red" ∈ names) = bool_decide ("green" ∈ names)
       /\ bool_decide ("green" ∈ names) = bool_decide ("blue" ∈ names)).
Proof.
  intros Hsub. split.
  - intros [->|Hall]; [done|].
    rewrite !bool_decide_eq_true_2; [done|..]; apply Hall; repeat constructor.
  - intros [E1 E2].
    destruct (bool_decide ("blue" ∈ names)) eqn:Eb.
    + right. rewrite E2 in E1. apply bool_decide_eq_true in E1, E2, Eb.
      intros n Hn. apply list_elem_of_In in Hn. cbn in Hn.
      destruct Hn as [<-|[<-|[<-|[]]]]; done.
    + left. rewrite E2 in E1. apply bool_decide_eq_false in E1, E2, Eb.
      destruct names as [|n names]; [done|]. exfalso.
      assert (Hn : n ∈ channel_names) by (apply Hsub; left).
      apply list_elem_of_In in Hn. cbn in Hn.
      destruct Hn as [<-|[<-|[<-|[]]]]; [apply E1|apply E2|apply Eb]; left.
Qed.

(** X23.  The three outcomes of [prominence]: a name other than red,
    green, blue raises "Bad highlight selection"; valid names that
    select no channel or all three leave [min] with an empty list; in
    every other case a number is returned. *)
Theorem prominence_outcomes (rgb : colour) (names : list string) :
  (prominence rgb (hl_list names) = Raise (ValueError "Bad highlight selection")
   <-> ~ names ⊆ channel_names)
  /\ (prominence rgb (hl_list names)
      = Raise (ValueError "min() arg is an empty sequence")
      <-> names ⊆ channel_names /\ (names = [] \/ channel_names ⊆ names))
  /\ ((exists m, prominence rgb (hl_list names) = Ok m)
      <-> names ⊆ channel_names /\ names <> [] /\ ~ channel_names ⊆ names).
Proof.
  destruct rgb as [[r g] b].
  destruct (decide (names ⊆ channel_names)) as [Hsub|Hsub].
  - pose proof (names_nil_or_all names Hsub) as Hiff.
    rewrite (prominence_valid r g b names Hsub).
    destruct (bool_decide ("red" ∈ names)), (bool_decide ("green" ∈ names)),
      (bool_decide ("blue" ∈ names)).
    all: try (assert (Ha : names = [] \/ channel_names ⊆ names)
                by (by apply Hiff)).
    all: try (assert (Hna : ~ (names = [] \/ channel_names ⊆ names))
                by (rewrite Hiff; by intros [? ?])).
    all: split_and!; split.
    all: first
      [ by intros [=]
      | by intros [m [=]]
      | by intros ?
      | by intros [_ ?]
      | by (intros _; eexists)
      | by intros _
      | (intros (_ & Hne & Hall); by destruct Ha)
      | (intros _; split_and!;
         [done|intros ->; apply Hna; by left|intros H; apply Hna; by right]) ].
  - unfold prominence. rewrite invalid_hues_fail by done.
    split_and!; split.
    all: first
      [ done
      | by intros [=]
      | by intros [m [=]]
      | by intros [? _] ].
Qed.

(** X24.  For a colour with channels in [0, 256) a returned prominence
    lies between -255 and 255. *)
Theorem prominence_range (rgb : colour) (names : list string) (m : Z) :
  in_range rgb -> prominence rgb (hl_list names) = Ok m ->
  -255 <= m <= 255.
Proof.
  destruct rgb as [[r g] b]. intros (Hr & Hg & Hb) Hm.
  destruct (decide (names ⊆ channel_names)) as [Hsub|Hsub].
  - rewrite (prominence_valid r g b names Hsub) in Hm.
    destruct (bool_decide ("red" ∈ names)), (bool_decide ("green" ∈ names)),
      (bool_decide ("blue" ∈ names)); try done; injection Hm as <-; lia.
  - unfold prominence in Hm. by rewrite invalid_hues_fail in Hm.
Qed.

(** X25.  A hue and its complement (red and cyan, green and magenta, blue
    and yellow) cannot both be prominent: the two scores of a colour sum
    to at most 0. *)
Theorem prominence_complement (rgb : colour) (names names' : list string)
    (m m' : Z) :
  (forall name, name ∈ channel_names -> name ∈ names <-> name ∉ names') ->
  prominence rgb (hl_list names) = Ok m ->
  prominence rgb (hl_list names') = Ok m' ->
  m + m' <= 0.
Proof.
  destruct rgb as [[r g] b]. intros Hc Hm Hm'.
  destruct (decide (names ⊆ channel_names)) as [Hsub|Hsub];
    [|unfold prominence in Hm; by rewrite invalid_hues_fail in Hm].
  destruct (decide (names' ⊆ channel_names)) as [Hsub'|Hsub'];
    [|unfold prominence in Hm'; by rewrite invalid_hues_fail in Hm'].
  rewrite (prominence_valid r g b names Hsub) in Hm.
  rewrite (prominence_valid r g b names' Hsub') in Hm'.
  assert (forall name, name ∈ channel_names ->
            bool_decide (name ∈ names') = negb (bool_decide (name ∈ names)))
    as Hneg.
  { intros name Hn. specialize (Hc name Hn).
    destruct (bool_decide (name ∈ names)) eqn:E.
    - apply bool_decide_eq_true in E. apply bool_decide_eq_false. tauto.
    - apply bool_decide_eq_false in E. apply bool_decide_eq_true.
      destruct (decide (name ∈ names')); tauto. }
  rewrite !Hneg in Hm' by repeat constructor.
  destruct (bool_decide ("red" ∈ names)), (bool_decide ("green" ∈ names)),
    (bool_decide ("blue" ∈ names)); try done.
  all: cbn [negb] in Hm'; injection Hm as <-; injection Hm' as <-; lia.
Qed.

(** *** Building a theme in base16_imagen.py *)

Lemma generate_palette_store (has_logger : bool) (colours : loc)
    (variant : option string) (intensity : Z) (h : heap)
    (c : colour) (rest : list colour) :
  h !! colours = Some (c :: rest) ->
  (generate_palette has_logger colours variant intensity h).2
  = <[colours := rest]> h.
Proof.
  intros Hc. unfold generate_palette.
  rewrite (lookup_total_correct _ _ _ Hc).
  by destruct (filter_palette_on _ _ _) as [[palette warnings]|f].
Qed.

(** X26.  [generate_designations] takes the first colour out of the
    caller's list for good, whether the theme is built or not:
    afterwards the list holds the remaining colours.  On an empty list
    it raises [IndexError] and changes nothing. *)
Theorem generate_designations_pops_colours (has_logger : bool) (colours : loc)
    (variant : option string) (intensity : Z) (h : heap)
    (l : list colour) :
  h !! colours = Some l ->
  (l = [] ->
   generate_designations has_logger colours variant intensity h
   = (Failed (Raised (IndexError "pop from empty list")), h))
  /\ (forall c rest, l = c :: rest ->
      (generate_designations has_logger colours variant intensity h).2
        !! colours = Some rest).
Proof.
  intros Hl. split.
  - intros ->. unfold generate_designations, generate_palette.
    by rewrite (lookup_total_correct _ _ _ Hl).
  - intros c rest ->. unfold generate_designations.
    pose proof (generate_palette_store has_logger colours variant intensity
                  h c rest Hl) as Hstore.
    destruct (generate_palette _ _ _ _ _) as [[[[dk pal] warnings]|f] h1];
      cbn [snd] in Hstore; subst h1;
      [|cbn [snd]; by rewrite lookup_insert_eq].
    set (h1 := <[colours := rest]> h).
    set (self := {| dark := dk; palette := fresh (dom h1) |}).
    destruct (assign_palette_run self (<[fresh (dom h1) := pal]> h1) pal)
      as (h2 & E & Hframe); [by rewrite lookup_insert_eq|].
    assert (Hfresh : fresh (dom h1) <> colours).
    { intros E'. apply (is_fresh (dom h1)). rewrite E'.
      apply elem_of_dom. unfold h1. rewrite lookup_insert_eq. by eexists. }
    assert (h2 !! colours = Some rest) as Hkeep.
    { rewrite Hframe.
      - rewrite lookup_insert_ne by done. apply lookup_insert_eq.
      - apply elem_of_dom. rewrite lookup_insert_ne by done.
        unfold h1. rewrite lookup_insert_eq. by eexists. }
    rewrite E. by destruct (_ ≫= _).
Qed.

Lemma full_intensity_keeps_all (dominant_colour : colour)
    (colours : list colour) :
  Forall in_range colours ->
  List.filter
    (between_boundaries (darkness_boundaries (Some "dark") 100 dominant_colour))
    colours = colours.
Proof.
  intros Hall. induction Hall as [|c colours Hc Hall IH]; [done|].
  cbn [List.filter]. rewrite IH.
  replace (between_boundaries _ c) with true; [done|]. symmetry.
  unfold between_boundaries, darkness_boundaries.
  cbn [variant_falsy fst snd]. rewrite bool_decide_eq_true_2 by done.
  cbn [fst snd]. apply in_range_sum in Hc.
  apply andb_true_iff. rewrite !Qle_bool_iff. split.
  - apply Qle_shift_div_l; [reflexivity|].
    apply Qle_trans with 0%Q; [by vm_compute|].
    change 0%Q with (inject_Z 0). rewrite <- Zle_Qle. lia.
  - apply Qle_shift_div_r; [reflexivity|].
    change (255 * 3)%Q with (inject_Z 765). rewrite <- Zle_Qle. lia.
Qed.

(** X27.  A dark theme at full intensity from 8 to 15 colours with
    channels in [0, 256), pairwise distinct and of pairwise different
    brightness: [create_theme] dies with [AttributeError], because the
    warning about the short palette is logged before the theme has its
    logger; the maker's list has lost its first colour all the same.  An
    object that already has a logger gets all the colours back, with the
    warning. *)
Theorem create_theme_short_palette_raises (colours : loc) (h : heap)
    (c : colour) (rest : list colour) :
  h !! colours = Some (c :: rest) ->
  Forall in_range (c :: rest) ->
  (8 <= length (c :: rest) < 16)%nat ->
  NoDup (c :: rest) -> NoDup (sum <$> c :: rest) ->
  create_theme colours (Some "dark") 100 h
  = (Failed (AttributeError "'Theme' object has no attribute 'logger'"),
     <[colours := rest]> h)
  /\ generate_palette true colours (Some "dark") 100 h
     = (Returned (true, sorted (tone_key true) (c :: rest),
                  ["only found distinct " +:+ pretty (length (c :: rest))
                     +:+ " colours"]),
        <[colours := rest]> h).
Proof.
  intros Hc Hall Hlen Hnd Hsum.
  assert (Hfilter : base16_imagen.filter_palette true (c :: rest) 50
                    = Ok (sorted (tone_key true) (c :: rest),
                          ["only found distinct "
                             +:+ pretty (length (c :: rest)) +:+ " colours"])).
  { destruct (short_palette_last_round true (c :: rest)) as [_ Hi];
      [lia|done|done|].
    rewrite imagen_filter_palette_last, Hi, !sorted_length.
    replace (length (c :: rest) =? 16)%nat with false
      by (symmetry; apply Nat.eqb_neq; lia).
    replace (length (c :: rest) <? 8)%nat with false
      by (symmetry; apply Nat.ltb_ge; lia).
    replace (length (c :: rest) <? 16)%nat with true
      by (symmetry; apply Nat.ltb_lt; lia).
    done. }
  unfold create_theme, generate_designations, generate_palette.
  rewrite (lookup_total_correct _ _ _ Hc).
  rewrite full_intensity_keeps_all by done.
  unfold filter_palette_on, theme_dark.
  rewrite bool_decide_eq_true_2 by done. cbn [orb].
  by rewrite Hfilter.
Qed.

Lemma generate_palette_Returned (has_logger : bool) (colours : loc)
    (variant : option string) (intensity : Z) (h h' : heap)
    (dk : bool) (pal : list colour) (warnings : list string) :
  generate_palette has_logger colours variant intensity h
  = (Returned (dk, pal, warnings), h') ->
  exists c rest,
    h !!! colours = c :: rest /\ dk = theme_dark variant c.
Proof.
  unfold generate_palette. destruct (h !!! colours) as [|c rest]; [done|].
  destruct (filter_palette_on _ _ _) as [[p w]|f]; [|done].
  intros [= <- _ _ _]. by exists c, rest.
Qed.

(** X28.  A variant that is a string other than "dark" (the default of
    [create_theme] is the empty string) always gives a light theme,
    however dark the dominant colour: color00 is the brightest and
    color07 the darkest of the designated colours. *)
Theorem generate_designations_default_variant_light (has_logger : bool)
    (colours : loc) (variant : string) (intensity : Z) (h : heap)
    (self : Theme) (d : gmap string colour) (warnings : list string) :
  variant <> "dark" ->
  (generate_designations has_logger colours (Some variant) intensity h).1
  = Returned (self, d, warnings) ->
  dark self = false
  /\ exists bg fg,
       d !! "color00" = Some bg /\ d !! "color07" = Some fg
       /\ forall label x, d !! label = Some x -> sum fg <= sum x <= sum bg.
Proof.
  intros Hv. unfold generate_designations.
  destruct (generate_palette _ _ _ _ _)
    as [[[[dk pal] w]|f] h1] eqn:Hgen; [|done].
  apply generate_palette_Returned in Hgen as (c & rest & _ & Hdark).
  assert (dk = false) as ->.
  { rewrite Hdark. unfold theme_dark.
    rewrite !bool_decide_eq_false_2; [done|done|]. by intros [= ->]. }
  set (self' := {| dark := false; palette := fresh (dom h1) |}).
  destruct (assign_palette self' _) as [[d'|e] h2] eqn:Hrun; [|done].
  intros [= <- <- <-]. split; [done|].
  assert (Hp : <[fresh (dom h1) := pal]> h1 !! palette self' = Some pal)
    by apply lookup_insert_eq.
  assert (Hok : (assign_palette self' (<[fresh (dom h1) := pal]> h1)).1
                = Ok d') by (by rewrite Hrun).
  destruct (assign_palette_extremes _ _ _ _ Hp Hok)
    as (bg & fg & Hbg & Hfg & _ & _ & Hext).
  exists bg, fg. split; [done|]. split; [done|]. intros label x Hx.
  destruct (assign_palette_Ok _ _ _ _ Hp Hok) as (slots & _ & Hfun).
  eapply (assign_fun_Forall (fun c => c ∈ pal)) in Hfun.
  - apply (Hext x). by apply (Hfun label).
  - by apply Forall_forall.
  - apply map_Forall_empty.
Qed.

(** *** Instances *)

Lemma eight_run :
  eight_store !! palette dark_theme = Some eight_spread
  /\ (assign_palette dark_theme eight_store).1 = Ok eight_designations.
Proof. split; [reflexivity|]. vm_compute. reflexivity. Qed.

Lemma twin_run :
  twin_store !! palette dark_theme = Some twin_darkest
  /\ (assign_palette dark_theme twin_store).1 = Ok twin_designations.
Proof. split; [reflexivity|]. vm_compute. reflexivity. Qed.

Lemma nine_run :
  get_palette true ten_spread None
  = Ok (bright_nine, ["only found distinct 9 colours"]).
Proof. vm_compute. reflexivity. Qed.

Lemma ramp_in_range : Forall in_range grey_ramp.
Proof.
  repeat (apply Forall_cons; split; [cbn; lia|]). apply Forall_nil_2.
Qed.

Lemma eight_in_range : Forall in_range eight_spread.
Proof.
  repeat (apply Forall_cons; split; [cbn; lia|]). apply Forall_nil_2.
Qed.

Lemma ramp_distinct : NoDup grey_ramp /\ NoDup (sum <$> grey_ramp).
Proof. split; apply (bool_decide_unpack _); by vm_compute. Qed.

Lemma no_such_character (a : ascii) (s : string) :
  string_forallb (fun c => negb (Ascii.eqb c a)) s = true ->
  forall i, String.get i s <> Some a.
Proof.
  induction s as [|c s IH]; intros Hs i; [by destruct i|].
  cbn [string_forallb] in Hs. apply andb_true_iff in Hs as [Hc Hs].
  destruct i as [|i]; cbn [String.get].
  - intros [= ->]. by rewrite Ascii.eqb_refl in Hc.
  - by apply IH.
Qed.

Lemma assign_palette_uses_palette_colours_witness :
  eight_store !! palette dark_theme = Some eight_spread
  /\ (assign_palette dark_theme eight_store).1 = Ok eight_designations
  /\ forall label c, eight_designations !! label = Some c -> c ∈ eight_spread.
Proof.
  destruct eight_run as [H1 H2].
  split; [exact H1|]. split; [exact H2|].
  exact (assign_palette_uses_palette_colours dark_theme eight_store
           eight_spread eight_designations H1 H2).
Defined.

Lemma assign_palette_background_foreground_witness :
  eight_store !! palette dark_theme = Some eight_spread
  /\ (assign_palette dark_theme eight_store).1 = Ok eight_designations
  /\ exists bg fg,
       eight_designations !! "color00" = Some bg
       /\ eight_designations !! "color07" = Some fg
       /\ bg ∈ eight_spread /\ fg ∈ eight_spread
       /\ forall x, x ∈ eight_spread ->
            if dark dark_theme then sum bg <= sum x <= sum fg
            else sum fg <= sum x <= sum bg.
Proof.
  destruct eight_run as [H1 H2].
  split; [exact H1|]. split; [exact H2|].
  exact (assign_palette_background_foreground dark_theme eight_store
           eight_spread eight_designations H1 H2).
Defined.

Lemma assign_palette_sixteen_distinct_witness :
  twin_store !! palette dark_theme = Some twin_darkest
  /\ (assign_palette dark_theme twin_store).1 = Ok twin_designations
  /\ NoDup twin_darkest /\ (16 <= length twin_darkest)%nat
  /\ distinct_colours twin_designations.
Proof.
  destruct twin_run as [H1 H2].
  assert (H3 : NoDup twin_darkest) by (apply (bool_decide_unpack _); by vm_compute).
  assert (H4 : (16 <= length twin_darkest)%nat) by (cbn; lia).
  split; [exact H1|]. split; [exact H2|]. split; [exact H3|].
  split; [exact H4|].
  exact (assign_palette_sixteen_distinct dark_theme twin_store twin_darkest
           twin_designations H1 H2 H3 H4).
Defined.

Lemma assign_palette_uses_every_colour_witness :
  eight_store !! palette dark_theme = Some eight_spread
  /\ (assign_palette dark_theme eight_store).1 = Ok eight_designations
  /\ (length eight_spread <= 16)%nat
  /\ forall c, c ∈ eight_spread ->
       exists label, eight_designations !! label = Some c.
Proof.
  destruct eight_run as [H1 H2].
  assert (H3 : (length eight_spread <= 16)%nat) by (cbn; lia).
  split; [exact H1|]. split; [exact H2|]. split; [exact H3|].
  exact (assign_palette_uses_every_colour dark_theme eight_store eight_spread
           eight_designations H1 H2 H3).
Defined.

Lemma assign_palette_eight_colours_reuse_witness :
  eight_store !! palette dark_theme = Some eight_spread
  /\ (assign_palette dark_theme eight_store).1 = Ok eight_designations
  /\ length eight_spread = 8%nat
  /\ eight_designations !! "color19" = eight_designations !! "color04"
  /\ eight_designations !! "color20" = eight_designations !! "color07".
Proof.
  destruct eight_run as [H1 H2].
  assert (H3 : length eight_spread = 8%nat) by reflexivity.
  split; [exact H1|]. split; [exact H2|]. split; [exact H3|].
  destruct (assign_palette_eight_colours_reuse dark_theme eight_store
              eight_spread eight_designations H1 H2 H3) as (E19 & E20 & _).
  split; [exact E19|exact E20].
Defined.

Lemma assign_palette_short_palette_raises_witness :
  one_store !! palette dark_theme = Some [(1, 2, 3)]
  /\ (length [(1, 2, 3)] < 8)%nat
  /\ exists label h',
       primary !! length [(1, 2, 3)] = Some label
       /\ assign_palette dark_theme one_store = (Raise (KeyError label), h').
Proof.
  assert (H1 : one_store !! palette dark_theme = Some [(1, 2, 3)])
    by reflexivity.
  assert (H2 : (length [(1, 2, 3)] < 8)%nat) by (cbn; lia).
  split; [exact H1|]. split; [exact H2|].
  exact (assign_palette_short_palette_raises dark_theme one_store [(1, 2, 3)]
           H1 H2).
Defined.

Lemma get_palette_within_boundaries_witness :
  get_palette true ten_spread None
  = Ok (bright_nine, ["only found distinct 9 colours"])
  /\ exists lower_bound upper_bound,
       [Some 25%Q; None] = [lower_bound; upper_bound]
       /\ forall c, c ∈ bright_nine ->
            c ∈ ten_spread
            /\ (forall l, lower_bound = Some l -> (l < inject_Z (sum c) / 3)%Q)
            /\ (forall u, upper_bound = Some u -> (inject_Z (sum c) / 3 < u)%Q).
Proof.
  split; [exact nine_run|].
  exact (get_palette_within_boundaries true ten_spread None bright_nine
           ["only found distinct 9 colours"] nine_run).
Defined.

Lemma get_palette_default_brightness_witness :
  get_palette true ten_spread None
  = Ok (bright_nine, ["only found distinct 9 colours"])
  /\ forall c, c ∈ bright_nine -> 75 < sum c.
Proof.
  split; [exact nine_run|].
  exact (get_palette_default_brightness true ten_spread bright_nine
           ["only found distinct 9 colours"] nine_run).
Defined.

Lemma get_palette_assign_palette_witness :
  get_palette (dark dark_theme) ten_spread None
  = Ok (bright_nine, ["only found distinct 9 colours"])
  /\ nine_store !! palette dark_theme = Some bright_nine
  /\ exists d,
       (assign_palette dark_theme nine_store).1 = Ok d
       /\ dom d = list_to_set catalog
       /\ forall label c, d !! label = Some c -> c ∈ ten_spread.
Proof.
  assert (H2 : nine_store !! palette dark_theme = Some bright_nine)
    by reflexivity.
  split; [exact nine_run|]. split; [exact H2|].
  exact (get_palette_assign_palette dark_theme nine_store ten_spread None
           bright_nine ["only found distinct 9 colours"] nine_run H2).
Defined.

Lemma save_raises_witness :
  ~ ([("color00", (1, 2, 300))] <> []
     /\ (true = true \/ true = true)
     /\ Forall (fun item : string * colour => in_range item.2)
          [("color00", (1, 2, 300))])
  /\ save [("color00", (1, 2, 300))] "mine" true true "a" "b"
     = Raise AssertionError.
Proof.
  assert (H : ~ ([("color00", (1, 2, 300))] <> []
                 /\ (true = true \/ true = true)
                 /\ Forall (fun item : string * colour => in_range item.2)
                      [("color00", (1, 2, 300))])).
  { intros (_ & _ & Hall). apply Forall_cons in Hall as [Hr _].
    cbn in Hr. lia. }
  split; [exact H|].
  exact (save_raises [("color00", (1, 2, 300))] "mine" true true "a" "b" H).
Defined.

Lemma save_template_without_placeholder_witness :
  save [("color00", (10, 171, 255))] "mine" true true "set background" "echo"
  = Ok (Some "set background", Some "echo").
Proof.
  apply (save_template_without_placeholder [("color00", (10, 171, 255))]
           "mine" true true "set background" "echo").
  - discriminate.
  - by left.
  - apply Forall_cons; split; [cbn; lia|apply Forall_nil_2].
  - by apply no_such_character.
  - by apply no_such_character.
Defined.

Lemma filter_by_similarity_background_threshold_witness :
  filter_by_similarity ten_sorted (1 # 2)
  = similarity_loop (1 # 2) (1 # 2) (10, 10, 10) (tail ten_sorted)
      [(10, 10, 10)].
Proof.
  apply (filter_by_similarity_background_threshold ten_sorted (1 # 2)).
  discriminate.
Defined.

Lemma filter_by_similarity_threshold_one_witness :
  filter_by_similarity eight_black 1 = eight_black
  /\ base16_imagen.filter_by_similarity eight_black 1 = eight_black.
Proof.
  apply (filter_by_similarity_threshold_one eight_black 1). discriminate.
Defined.

Lemma filter_palette_threshold_dyadic_witness :
  (50 <= 53)%nat
  /\ filter_palette true ten_spread 50
     = Ok (ten_sorted, ["only found distinct 10 colours"])
  /\ exists (i : nat) (m : Q),
       (i < 50)%nat
       /\ Z.odd (Qnum m) = true
       /\ Z.pos (Qden m) = 2 ^ (Z.of_nat i + 1)
       /\ 0 < Qnum m < 2 ^ (Z.of_nat i + 1)
       /\ ten_sorted = filter_by_similarity (sorted (tone_key true) ten_spread) m.
Proof.
  assert (Hr : (50 <= 53)%nat) by lia.
  assert (H : filter_palette true ten_spread 50
              = Ok (ten_sorted, ["only found distinct 10 colours"]))
    by (vm_compute; reflexivity).
  split; [exact Hr|]. split; [exact H|].
  exact (filter_palette_threshold_dyadic true ten_spread 50 ten_sorted
           ["only found distinct 10 colours"] Hr H).
Defined.

Lemma half_in_unit : (0 <= 1 # 2 <= 1)%Q.
Proof. split; discriminate. Qed.

Lemma filter_by_similarity_separated_witness :
  Forall in_range eight_spread
  /\ separated (1 # 2) (filter_by_similarity eight_spread (1 # 2))
  /\ separated (1 # 2)
       (base16_imagen.filter_by_similarity eight_spread (1 # 2))
  /\ (forall bt,
        separated (1 # 2)
          (filter_by_similarity_binary64_with eight_spread (1 # 2) bt)).
Proof.
  split; [exact eight_in_range|].
  exact (filter_by_similarity_separated eight_spread (1 # 2) eight_in_range).
Defined.

Lemma filter_by_similarity_brightness_gap_witness :
  Forall in_range eight_spread /\ (0 <= 1 # 2 <= 1)%Q
  /\ brightness_gap (Qmax (1 - (1 - (1 # 2)) * 2) (1 # 2))
       (filter_by_similarity eight_spread (1 # 2))
  /\ brightness_gap ((1 # 2) ^ 4)
       (base16_imagen.filter_by_similarity eight_spread (1 # 2))
  /\ brightness_gap (Qmax (1 - (1 - (1 # 2)) * 2) (1 # 2))
       (filter_by_similarity_binary64 eight_spread (1 # 2))
  /\ (forall bt,
        (Qabs (bt - (1 # 2) ^ 4) <= 1 # 2 ^ 52)%Q ->
        brightness_gap ((1 # 2) ^ 4)
          (filter_by_similarity_binary64_with eight_spread (1 # 2) bt)).
Proof.
  split; [exact eight_in_range|]. split; [exact half_in_unit|].
  exact (filter_by_similarity_brightness_gap eight_spread (1 # 2)
           eight_in_range half_in_unit).
Defined.

Lemma filter_by_similarity_saturated_witness :
  Forall in_range eight_spread /\ (0 <= 1 # 2 <= 1)%Q
  /\ saturated (1 # 2) (Qmax (1 - (1 - (1 # 2)) * 2) (1 # 2)) eight_spread
       (filter_by_similarity eight_spread (1 # 2))
  /\ saturated (1 # 2) ((1 # 2) ^ 4) eight_spread
       (base16_imagen.filter_by_similarity eight_spread (1 # 2))
  /\ saturated (1 # 2) (Qmax (1 - (1 - (1 # 2)) * 2) (1 # 2)) eight_spread
       (filter_by_similarity_binary64 eight_spread (1 # 2))
  /\ (forall bt,
        (Qabs (bt - (1 # 2) ^ 4) <= 1 # 2 ^ 52)%Q ->
        saturated (1 # 2) ((1 # 2) ^ 4) eight_spread
          (filter_by_similarity_binary64_with eight_spread (1 # 2) bt)).
Proof.
  split; [exact eight_in_range|]. split; [exact half_in_unit|].
  exact (filter_by_similarity_saturated eight_spread (1 # 2)
           eight_in_range half_in_unit).
Defined.

Lemma filter_by_similarity_binary64_agrees_witness :
  Forall in_range eight_spread /\ (0 <= 1 # 2 <= 1)%Q
  /\ clear_of_rounding eight_spread (1 # 2)
       (Qmax (1 - (1 - (1 # 2)) * 2) (1 # 2)) = true
  /\ filter_by_similarity_binary64 eight_spread (1 # 2)
     = filter_by_similarity eight_spread (1 # 2).
Proof.
  assert (H : clear_of_rounding eight_spread (1 # 2)
                (Qmax (1 - (1 - (1 # 2)) * 2) (1 # 2)) = true)
    by (vm_compute; reflexivity).
  split; [exact eight_in_range|]. split; [exact half_in_unit|].
  split; [exact H|].
  exact (filter_by_similarity_binary64_agrees eight_spread (1 # 2)
           eight_in_range half_in_unit H).
Defined.

Lemma get_similarity_range_witness :
  in_range (10, 10, 10) /\ in_range (250, 250, 250)
  /\ (0 <= get_similarity_real (10, 10, 10)%Z (250, 250, 250)%Z <= 1)%R.
Proof.
  assert (H1 : in_range (10, 10, 10)) by (cbn; lia).
  assert (H2 : in_range (250, 250, 250)) by (cbn; lia).
  split; [exact H1|]. split; [exact H2|].
  exact (proj1 (get_similarity_range (10, 10, 10) (250, 250, 250) H1 H2)).
Defined.

Lemma prominence_range_witness :
  in_range (200, 50, 50)
  /\ prominence (200, 50, 50) (hl_list ["red"]) = Ok 150
  /\ -255 <= 150 <= 255.
Proof.
  assert (H1 : in_range (200, 50, 50)) by (cbn; lia).
  assert (H2 : prominence (200, 50, 50) (hl_list ["red"]) = Ok 150)
    by reflexivity.
  split; [exact H1|]. split; [exact H2|].
  exact (prominence_range (200, 50, 50) ["red"] 150 H1 H2).
Defined.

Lemma prominence_complement_witness :
  prominence (200, 50, 60) (hl_list ["red"]) = Ok 140
  /\ prominence (200, 50, 60) (hl_list ["green"; "blue"]) = Ok (-150)
  /\ 140 + -150 <= 0.
Proof.
  split; [reflexivity|]. split; [reflexivity|].
  apply (prominence_complement (200, 50, 60) ["red"] ["green"; "blue"]
           140 (-150)); [|reflexivity|reflexivity].
  intros name Hname. apply list_elem_of_In in Hname. cbn in Hname.
  destruct Hname as [<-|[<-|[<-|[]]]].
  - split; [intros _|intros _; repeat constructor].
    intros H. apply list_elem_of_In in H. cbn in H.
    by destruct H as [H|[H|[]]].
  - split; [intros H|intros H; destruct H; repeat constructor].
    apply list_elem_of_In in H. cbn in H. by destruct H as [H|[]].
  - split; [intros H|intros H; destruct H; repeat constructor].
    apply list_elem_of_In in H. cbn in H. by destruct H as [H|[]].
Defined.

Lemma generate_designations_pops_colours_witness :
  spread_store !! 0%nat = Some ten_spread
  /\ (generate_designations true 0%nat (Some "dark") 100 spread_store).2
       !! 0%nat = Some (tail ten_spread).
Proof.
  assert (H : spread_store !! 0%nat = Some ten_spread) by reflexivity.
  split; [exact H|].
  exact (proj2 (generate_designations_pops_colours true 0%nat (Some "dark")
                  100 spread_store ten_spread H)
           (10, 10, 10) (tail ten_spread) eq_refl).
Defined.

Lemma create_theme_short_palette_raises_witness :
  create_theme 0%nat (Some "dark") 100 ramp_store
  = (Failed (AttributeError "'Theme' object has no attribute 'logger'"),
     <[0%nat := tail grey_ramp]> ramp_store).
Proof.
  destruct ramp_distinct as [H1 H2].
  apply (create_theme_short_palette_raises 0%nat ramp_store (0, 1, 0)
           (tail grey_ramp)).
  - reflexivity.
  - exact ramp_in_range.
  - cbn. lia.
  - exact H1.
  - exact H2.
Defined.

Lemma generate_designations_default_variant_light_witness :
  (generate_designations true 0%nat (Some "") 100 spread_store).1
  = Returned (light_theme, light_designations,
              ["only found distinct 10 colours"])
  /\ dark light_theme = false.
Proof.
  assert (H : (generate_designations true 0%nat (Some "") 100 spread_store).1
              = Returned (light_theme, light_designations,
                          ["only found distinct 10 colours"]))
    by (vm_compute; reflexivity).
  split; [exact H|].
  apply (generate_designations_default_variant_light true 0%nat "" 100
           spread_store light_theme light_designations
           ["only found distinct 10 colours"]); [discriminate|exact H].
Defined.

Lemma render_designations_witness :
  render two_items = Ok two_items.
Proof.
  destruct eight_run as [H1 H2].
  apply (render_designations dark_theme eight_store eight_spread
           eight_designations two_items H1 H2 eight_in_range).
  intros label c Hin. apply list_elem_of_In in Hin. cbn in Hin.
  destruct Hin as [[= <- <-]|[[= <- <-]|[]]]; reflexivity.
Defined.

Lemma sweet16_save_never_writes_shell_witness :
  sweet16.save [("color00", (10, 171, 255))] "mine" true false
    "a __color00__" "b"
  = Ok (Some "a 0aabff", None)
  /\ true = true /\ false = false.
Proof.
  assert (H : sweet16.save [("color00", (10, 171, 255))] "mine" true false
                "a __color00__" "b" = Ok (Some "a 0aabff", None))
    by reflexivity.
  split; [exact H|].
  destruct (sweet16_save_never_writes_shell _ _ _ _ _ _ _ H) as (Hv & Hs & _).
  split; [exact Hv|exact Hs].
Defined.
